(** * AI-Assistant: the conversation controller and the completion proxy

    A shallow embedding of [src/app/page.tsx] (the client-side
    conversation controller, [handleSendMessage] and its helpers) and of
    [src/app/api/chat/route.ts] (the server-side proxy, [POST]), with the
    platform functions they call: the streaming UTF-8 [TextDecoder], the
    string methods [trim], [split], [includes] and [replace], and
    [JSON.parse].

    JavaScript strings are sequences of UTF-16 code units and are modelled
    as [list N].  Literals of the (UTF-8 encoded) source files are written
    as Rocq strings and decoded with [TextDecoder.utf8_decode]. *)

From Stdlib.Strings Require Import String Ascii Byte.
From Stdlib Require Import List NArith ZArith Lia Bool.
Import ListNotations.

Set Implicit Arguments.
Set Warnings "-register-all".

(* ================================================================== *)
(** * The platform: UTF-8 decoding *)

Module TextDecoder.

(** The state of the UTF-8 decoder of the Encoding standard. *)
Record utf8 := {
  code_point : N;
  bytes_seen : N;
  bytes_needed : N;
  lower_boundary : N;
  upper_boundary : N
}.

Definition utf8_init : utf8 :=
  {| code_point := 0; bytes_seen := 0; bytes_needed := 0;
     lower_boundary := 0x80; upper_boundary := 0xBF |}.

Definition REPLACEMENT : N := 0xFFFD.

Definition between (lo hi b : N) : bool := (lo <=? b)%N && (b <=? hi)%N.

(** A byte read while no sequence is pending. *)
Definition lead (b : N) : utf8 * list N :=
  if between 0x00 0x7F b then (utf8_init, [b])
  else if between 0xC2 0xDF b then
    ({| code_point := N.land b 0x1F; bytes_seen := 0; bytes_needed := 1;
        lower_boundary := 0x80; upper_boundary := 0xBF |}, [])
  else if between 0xE0 0xEF b then
    ({| code_point := N.land b 0xF; bytes_seen := 0; bytes_needed := 2;
        lower_boundary := if (b =? 0xE0)%N then 0xA0 else 0x80;
        upper_boundary := if (b =? 0xED)%N then 0x9F else 0xBF |}, [])
  else if between 0xF0 0xF4 b then
    ({| code_point := N.land b 0x7; bytes_seen := 0; bytes_needed := 3;
        lower_boundary := if (b =? 0xF0)%N then 0x90 else 0x80;
        upper_boundary := if (b =? 0xF4)%N then 0x8F else 0xBF |}, [])
  else (utf8_init, [REPLACEMENT]).

(** One byte through the decoder: the new state and the code points
    emitted.  A byte that breaks a pending sequence emits U+FFFD and is
    then read again as a first byte. *)
Definition handler (d : utf8) (b : N) : utf8 * list N :=
  if (bytes_needed d =? 0)%N then lead b
  else if negb (between (lower_boundary d) (upper_boundary d) b) then
    let (d', out) := lead b in (d', REPLACEMENT :: out)
  else
    let cp := N.lor (N.shiftl (code_point d) 6) (N.land b 0x3F) in
    let seen := (bytes_seen d + 1)%N in
    if (seen =? bytes_needed d)%N then (utf8_init, [cp])
    else ({| code_point := cp; bytes_seen := seen;
             bytes_needed := bytes_needed d;
             lower_boundary := 0x80; upper_boundary := 0xBF |}, []).

Fixpoint run (d : utf8) (bs : list byte) : utf8 * list N :=
  match bs with
  | [] => (d, [])
  | b :: bs' =>
      let (d1, out1) := handler d (Byte.to_N b) in
      let (d2, out2) := run d1 bs' in
      (d2, out1 ++ out2)
  end.

(** Code points to UTF-16 code units. *)
Definition utf16 (cp : N) : list N :=
  if (cp <? 0x10000)%N then [cp]
  else let c := (cp - 0x10000)%N in
       [(0xD800 + N.shiftr c 10)%N; (0xDC00 + N.land c 0x3FF)%N].

(** The decoder object: the UTF-8 state and the "BOM seen" flag
    ([ignoreBOM] and [fatal] are left at their default, false). *)
Record t := { dec : utf8; bom_seen : bool }.

(** [new TextDecoder()] *)
Definition new : t := {| dec := utf8_init; bom_seen := false |}.

(** Serialising the output queue drops one leading U+FEFF of the whole
    stream. *)
Definition serialize (seen : bool) (cps : list N) : bool * list N :=
  match cps with
  | [] => (seen, [])
  | c :: rest =>
      if seen then (true, cps)
      else if (c =? 0xFEFF)%N then (true, rest) else (true, cps)
  end.

(** [decoder.decode(value, { stream: true })]: the bytes of a pending
    sequence stay in the decoder. *)
Definition decode_stream (d : t) (chunk : list byte) : t * list N :=
  let (u, cps) := run (dec d) chunk in
  let (seen, cps') := serialize (bom_seen d) cps in
  ({| dec := u; bom_seen := seen |}, flat_map utf16 cps').

(** Decoding a whole body at once ([response.text()], [response.json()],
    a source literal): a sequence pending at the end is U+FFFD. *)
Definition utf8_decode (bs : list byte) : list N :=
  let (u, cps) := run utf8_init bs in
  let cps := if (bytes_needed u =? 0)%N then cps else cps ++ [REPLACEMENT] in
  flat_map utf16 (snd (serialize false cps)).

End TextDecoder.

(* ================================================================== *)
(** * The platform: strings *)

Module JS.

Definition string := list N.

(** A literal of the source text. *)
Definition lit (s : String.string) : string :=
  TextDecoder.utf8_decode (list_byte_of_string s).

Definition eqb (a b : string) : bool :=
  if list_eq_dec N.eq_dec a b then true else false.

Fixpoint is_prefix (p s : string) : bool :=
  match p, s with
  | [], _ => true
  | a :: p', b :: s' => (a =? b)%N && is_prefix p' s'
  | _ :: _, [] => false
  end.

(** [s.includes(sub)] *)
Fixpoint includes (sub s : string) : bool :=
  is_prefix sub s ||
  match s with
  | [] => false
  | _ :: s' => includes sub s'
  end.

(** WhiteSpace and LineTerminator of ECMAScript, as [trim] removes them. *)
Definition is_space (c : N) : bool :=
  match c with
  | 0x9 | 0xA | 0xB | 0xC | 0xD | 0x20 | 0xA0 | 0x1680
  | 0x2000 | 0x2001 | 0x2002 | 0x2003 | 0x2004 | 0x2005 | 0x2006
  | 0x2007 | 0x2008 | 0x2009 | 0x200A
  | 0x2028 | 0x2029 | 0x202F | 0x205F | 0x3000 | 0xFEFF => true
  | _ => false
  end%N.

Fixpoint dropWhile (f : N -> bool) (s : string) : string :=
  match s with
  | [] => []
  | c :: s' => if f c then dropWhile f s' else s
  end.

Definition trimStart (s : string) : string := dropWhile is_space s.
Definition trimEnd (s : string) : string := rev (dropWhile is_space (rev s)).

(** [s.trim()] *)
Definition trim (s : string) : string := trimEnd (trimStart s).

(** [s.split(sep)] for a non-empty separator: the occurrences of [sep]
    are found from left to right, without overlap.  [skip] counts the
    units of a separator just matched that are still to be passed, [cur]
    holds the piece being read, reversed. *)
Fixpoint split_go (sep : string) (skip : nat) (cur : string) (s : string)
  : list string :=
  match s with
  | [] => [rev cur]
  | c :: s' =>
      match skip with
      | S k => split_go sep k cur s'
      | O =>
          if is_prefix sep s
          then rev cur :: split_go sep (length sep - 1) [] s'
          else split_go sep 0 (c :: cur) s'
      end
  end.

Definition split (sep s : string) : list string := split_go sep 0 [] s.

(** [s.replace(/^data: /, "")]: the pattern is anchored at the start. *)
Definition data_marker : string := [100; 97; 116; 97; 58; 32]%N.

Definition strip_data_marker (s : string) : string :=
  if is_prefix data_marker s then skipn (length data_marker) s else s.

(** The decimal numeral of a non-negative integer, as a template literal
    prints a status code. *)
Fixpoint digits (d : Decimal.uint) : string :=
  match d with
  | Decimal.Nil => []
  | Decimal.D0 d => 48 :: digits d
  | Decimal.D1 d => 49 :: digits d
  | Decimal.D2 d => 50 :: digits d
  | Decimal.D3 d => 51 :: digits d
  | Decimal.D4 d => 52 :: digits d
  | Decimal.D5 d => 53 :: digits d
  | Decimal.D6 d => 54 :: digits d
  | Decimal.D7 d => 55 :: digits d
  | Decimal.D8 d => 56 :: digits d
  | Decimal.D9 d => 57 :: digits d
  end%N.

Definition decimal (n : N) : string := digits (N.to_uint n).

(** A literal in which the apostrophe stands for the quotation mark, to
    write documents down. *)
Definition quoted (s : String.string) : string :=
  map (fun c => if (c =? 39)%N then 34%N else c) (lit s).

(** The frame delimiter, two line feeds. *)
Definition LF : N := 10.
Definition blank_line : string := [LF; LF].

End JS.

Notation "'js' s" := (JS.lit s%string) (at level 9, s at level 0, only parsing).

(* ================================================================== *)
(** * The platform: values and [JSON.parse] *)

Module JSON.

(** A numeric literal [-?int(.frac)?(e exp)?], kept as the decimal it
    denotes: (-1)^negative * mantissa * 10^exponent. *)
Record number := { negative : bool; mantissa : N; exponent : Z }.

(** The values a parsed document is made of, and [undefined], which a
    lookup of a missing property gives. *)
Inductive value :=
| Undefined
| Null
| Bool (b : bool)
| Num (n : number)
| Str (s : JS.string)
| Arr (elements : list value)
| Obj (members : list (JS.string * value)).

(** ** Tokens *)

Inductive token :=
| TLBrace | TRBrace | TLBracket | TRBracket | TColon | TComma
| TString (s : JS.string)
| TNumber (n : number)
| TTrue | TFalse | TNull.

Definition is_digit (c : N) : bool := (48 <=? c)%N && (c <=? 57)%N.

Fixpoint span_digits (s : JS.string) : list N * JS.string :=
  match s with
  | c :: s' =>
      if is_digit c
      then let (ds, rest) := span_digits s' in ((c - 48)%N :: ds, rest)
      else ([], s)
  | [] => ([], [])
  end.

Definition digits_value (ds : list N) : N :=
  fold_left (fun a d => (a * 10 + d)%N) ds 0%N.

(** The exponent part, after the fraction: nothing, or [e], an optional
    sign and at least one digit, and then the end of the literal. *)
Definition number_exponent (s : JS.string) : option Z :=
  match s with
  | [] => Some 0%Z
  | c :: r =>
      if (c =? 101)%N || (c =? 69)%N then
        let (sign, r') :=
          match r with
          | 43%N :: r' => (1%Z, r')
          | 45%N :: r' => ((-1)%Z, r')
          | _ => (1%Z, r)
          end in
        match span_digits r' with
        | ((_ :: _) as ds, []) => Some (sign * Z.of_N (digits_value ds))%Z
        | _ => None
        end
      else None
  end.

Definition number_of_literal (s : JS.string) : option number :=
  let (neg, s1) :=
    match s with
    | 45%N :: r => (true, r)
    | _ => (false, s)
    end in
  match span_digits s1 with
  | ([], _) => None
  | (0%N :: _ :: _, _) => None
  | (int, s2) =>
      let fraction :=
        match s2 with
        | 46%N :: r =>
            match span_digits r with
            | ([], _) => None
            | (fr, s3) => Some (fr, s3)
            end
        | _ => Some ([], s2)
        end in
      match fraction with
      | None => None
      | Some (fr, s3) =>
          match number_exponent s3 with
          | None => None
          | Some e =>
              Some {| negative := neg;
                      mantissa := digits_value (int ++ fr);
                      exponent := e - Z.of_nat (length fr) |}
          end
      end
  end.

Definition word_token (s : JS.string) : option token :=
  if JS.eqb s (js"true") then Some TTrue
  else if JS.eqb s (js"false") then Some TFalse
  else if JS.eqb s (js"null") then Some TNull
  else None.

Definition hex_digit (c : N) : option N :=
  if is_digit c then Some (c - 48)%N
  else if (97 <=? c)%N && (c <=? 102)%N then Some (c - 87)%N
  else if (65 <=? c)%N && (c <=? 70)%N then Some (c - 55)%N
  else None.

Inductive lex_mode :=
| LStart
| LString (acc : JS.string)
| LEscape (acc : JS.string)
| LUnicode (acc : JS.string) (count : nat) (v : N)
| LNumber (acc : JS.string)
| LWord (acc : JS.string).

Definition is_json_space (c : N) : bool :=
  (c =? 32)%N || (c =? 9)%N || (c =? 10)%N || (c =? 13)%N.

Definition is_number_char (c : N) : bool :=
  is_digit c || (c =? 43)%N || (c =? 45)%N || (c =? 46)%N
  || (c =? 101)%N || (c =? 69)%N.

Definition is_letter (c : N) : bool := (97 <=? c)%N && (c <=? 122)%N.

(** A unit read between tokens. *)
Definition lex_start (toks : list token) (c : N)
  : option (lex_mode * list token) :=
  if is_json_space c then Some (LStart, toks)
  else if (c =? 123)%N then Some (LStart, TLBrace :: toks)
  else if (c =? 125)%N then Some (LStart, TRBrace :: toks)
  else if (c =? 91)%N then Some (LStart, TLBracket :: toks)
  else if (c =? 93)%N then Some (LStart, TRBracket :: toks)
  else if (c =? 58)%N then Some (LStart, TColon :: toks)
  else if (c =? 44)%N then Some (LStart, TComma :: toks)
  else if (c =? 34)%N then Some (LString [], toks)
  else if is_digit c || (c =? 45)%N then Some (LNumber [c], toks)
  else if is_letter c then Some (LWord [c], toks)
  else None.

Definition unescape (c : N) : option N :=
  match c with
  | 34 => Some 34 | 92 => Some 92 | 47 => Some 47
  | 98 => Some 8 | 102 => Some 12 | 110 => Some 10
  | 114 => Some 13 | 116 => Some 9
  | _ => None
  end%N.

(** The tokens are collected in reverse. *)
Definition lex_step (m : lex_mode) (toks : list token) (c : N)
  : option (lex_mode * list token) :=
  match m with
  | LStart => lex_start toks c
  | LString acc =>
      if (c =? 34)%N then Some (LStart, TString (rev acc) :: toks)
      else if (c =? 92)%N then Some (LEscape acc, toks)
      else if (c <? 32)%N then None
      else Some (LString (c :: acc), toks)
  | LEscape acc =>
      if (c =? 117)%N then Some (LUnicode acc 0 0%N, toks)
      else match unescape c with
           | Some u => Some (LString (u :: acc), toks)
           | None => None
           end
  | LUnicode acc count v =>
      match hex_digit c with
      | Some h =>
          let v' := (v * 16 + h)%N in
          match count with
          | 3%nat => Some (LString (v' :: acc), toks)
          | _ => Some (LUnicode acc (S count) v', toks)
          end
      | None => None
      end
  | LNumber acc =>
      if is_number_char c then Some (LNumber (c :: acc), toks)
      else match number_of_literal (rev acc) with
           | Some n => lex_start (TNumber n :: toks) c
           | None => None
           end
  | LWord acc =>
      if is_letter c then Some (LWord (c :: acc), toks)
      else match word_token (rev acc) with
           | Some t => lex_start (t :: toks) c
           | None => None
           end
  end.

Definition lex_end (m : lex_mode) (toks : list token) : option (list token) :=
  match m with
  | LStart => Some (rev toks)
  | LNumber acc =>
      match number_of_literal (rev acc) with
      | Some n => Some (rev (TNumber n :: toks))
      | None => None
      end
  | LWord acc =>
      match word_token (rev acc) with
      | Some t => Some (rev (t :: toks))
      | None => None
      end
  | LString _ | LEscape _ | LUnicode _ _ _ => None
  end.

Fixpoint lex (m : lex_mode) (toks : list token) (s : JS.string)
  : option (list token) :=
  match s with
  | [] => lex_end m toks
  | c :: s' =>
      match lex_step m toks c with
      | Some (m', toks') => lex m' toks' s'
      | None => None
      end
  end.

(** ** The grammar, as a pushdown automaton over the tokens *)

(** A container that waits for its next value. *)
Inductive container :=
| InArray (done : list value)
| InObject (done : list (JS.string * value)) (key : JS.string).

Inductive pstate :=
| SValue (stack : list container)
| SArrFirst (stack : list container)
| SArrNext (done : list value) (stack : list container)
| SObjFirst (stack : list container)
| SObjKey (done : list (JS.string * value)) (stack : list container)
| SObjColon (done : list (JS.string * value)) (key : JS.string)
    (stack : list container)
| SObjNext (done : list (JS.string * value)) (stack : list container)
| SDone (v : value)
| SError.

(** A value is complete: it goes to the container on top of the stack. *)
Definition complete (v : value) (stack : list container) : pstate :=
  match stack with
  | [] => SDone v
  | InArray done :: rest => SArrNext (v :: done) rest
  | InObject done key :: rest => SObjNext ((key, v) :: done) rest
  end.

Definition expect_value (stack : list container) (t : token) : pstate :=
  match t with
  | TString s => complete (Str s) stack
  | TNumber n => complete (Num n) stack
  | TTrue => complete (Bool true) stack
  | TFalse => complete (Bool false) stack
  | TNull => complete Null stack
  | TLBracket => SArrFirst stack
  | TLBrace => SObjFirst stack
  | _ => SError
  end.

Definition pstep (st : pstate) (t : token) : pstate :=
  match st with
  | SValue stack => expect_value stack t
  | SArrFirst stack =>
      match t with
      | TRBracket => complete (Arr []) stack
      | _ => expect_value (InArray [] :: stack) t
      end
  | SArrNext done stack =>
      match t with
      | TComma => SValue (InArray done :: stack)
      | TRBracket => complete (Arr (rev done)) stack
      | _ => SError
      end
  | SObjFirst stack =>
      match t with
      | TRBrace => complete (Obj []) stack
      | TString k => SObjColon [] k stack
      | _ => SError
      end
  | SObjKey done stack =>
      match t with
      | TString k => SObjColon done k stack
      | _ => SError
      end
  | SObjColon done key stack =>
      match t with
      | TColon => SValue (InObject done key :: stack)
      | _ => SError
      end
  | SObjNext done stack =>
      match t with
      | TComma => SObjKey done stack
      | TRBrace => complete (Obj (rev done)) stack
      | _ => SError
      end
  | SDone _ => SError
  | SError => SError
  end.

(** [JSON.parse(text)]: [None] is the SyntaxError. *)
Definition parse (text : JS.string) : option value :=
  match lex LStart [] text with
  | Some toks =>
      match fold_left pstep toks (SValue []) with
      | SDone v => Some v
      | _ => None
      end
  | None => None
  end.

(** ** What the programs do with a value *)

(** The Number value of a literal is zero when the mantissa is, and when
    the decimal is at most 2^-1075, half the least positive binary64. *)
Definition number_is_zero (n : number) : bool :=
  (mantissa n =? 0)%N ||
  ((exponent n <? 0)%Z &&
   (Z.of_N (mantissa n) * 2 ^ 1075 <=? 10 ^ (- exponent n))%Z).

(** The Number value of a literal is infinite when the decimal is, in
    absolute value, at least 2^1024 - 2^970, half-way from the greatest
    binary64 to 2^1024. *)
Definition number_is_infinite (n : number) : bool :=
  let bound := (2 ^ 1024 - 2 ^ 970)%Z in
  if (exponent n <? 0)%Z
  then (bound * 10 ^ (- exponent n) <=? Z.of_N (mantissa n))%Z
  else (bound <=? Z.of_N (mantissa n) * 10 ^ exponent n)%Z.

(** ToBoolean *)
Definition truthy (v : value) : bool :=
  match v with
  | Undefined | Null => false
  | Bool b => b
  | Num n => negb (number_is_zero n)
  | Str s => negb (JS.eqb s [])
  | Arr _ | Obj _ => true
  end.

(** The own property [key] of an object literal: the last member of
    that name wins. *)
Fixpoint member (key : JS.string) (ms : list (JS.string * value)) : value :=
  match ms with
  | [] => Undefined
  | (k, v) :: rest =>
      match member key rest with
      | Undefined => if JS.eqb k key then v else Undefined
      | later => later
      end
  end.

(** A canonical array index. *)
Definition index_of_key (key : JS.string) : option nat :=
  match span_digits key with
  | ((_ :: _) as ds, []) =>
      let n := digits_value ds in
      if JS.eqb (JS.decimal n) key then Some (N.to_nat n) else None
  | _ => None
  end.

(** [v.key] and [v[key]], for a [key] that is an index or names no
    built-in property (the programs read [error], [content], [type],
    [value], [messages], [model], [choices], [0], [message], [role]).
    [None] is the TypeError of reading a property of [undefined] or
    [null]. *)
Definition get (v : value) (key : JS.string) : option value :=
  match v with
  | Undefined | Null => None
  | Obj ms => Some (member key ms)
  | Arr l =>
      match index_of_key key with
      | Some i => Some (nth i l Undefined)
      | None => Some Undefined
      end
  | Str s =>
      match index_of_key key with
      | Some i =>
          match nth_error s i with
          | Some c => Some (Str [c])
          | None => Some Undefined
          end
      | None => Some Undefined
      end
  | Bool _ | Num _ => Some Undefined
  end.

Definition is_array (v : value) : bool :=
  match v with Arr _ => true | _ => false end.

Definition join (sep : JS.string) (parts : list JS.string) : JS.string :=
  match parts with
  | [] => []
  | p :: rest => p ++ flat_map (fun q => sep ++ q) rest
  end.

(** Whether an object literal has an own property [key]. *)
Definition has_own (key : JS.string) (ms : list (JS.string * value)) : bool :=
  existsb (fun kv => JS.eqb (fst kv) key) ms.

Section ToString.

(** Number::toString, the shortest decimal that reads back as the same
    binary64, is left to the platform. *)
Variable Number_toString : number -> JS.string.

(** ToString, as string concatenation, [new Error(v)] and a property
    key [o[v]] apply it.  [None] is the TypeError of an object that has
    no primitive value: a parsed object inherits [toString] and
    [valueOf] from [Object.prototype], and the inherited [toString]
    gives ["[object Object]"]; an own member named [toString] hides it
    and, coming from a document, is no function, and [valueOf] gives no
    primitive.  An array is joined, its elements converted in turn. *)
Fixpoint ToString (v : value) : option JS.string :=
  match v with
  | Undefined => Some (js"undefined")
  | Null => Some (js"null")
  | Bool true => Some (js"true")
  | Bool false => Some (js"false")
  | Num n => Some (Number_toString n)
  | Str s => Some s
  | Arr l =>
      option_map (join (js","))
        ((fix each (l : list value) : option (list JS.string) :=
            match l with
            | [] => Some []
            | e :: rest =>
                match
                  match e with
                  | Undefined | Null => Some []
                  | _ => ToString e
                  end, each rest
                with
                | Some p, Some ps => Some (p :: ps)
                | _, _ => None
                end
            end) l)
  | Obj ms =>
      if has_own (js"toString") ms then None else Some (js"[object Object]")
  end.

End ToString.

(** What [JSON.stringify] writes, as the value that the text denotes:
    a number that is not finite is written [null], and so is
    [undefined] in an array; a member that is [undefined] is left out.
    A zero, negative or not, is written [0].  Any other number is
    written as a literal of the same Number, for which its own literal
    stands. *)
Fixpoint stringified (v : value) : value :=
  match v with
  | Undefined | Null | Bool _ | Str _ => v
  | Num n =>
      if number_is_infinite n then Null
      else if number_is_zero n
           then Num {| negative := false; mantissa := 0; exponent := 0 |}
           else v
  | Arr l =>
      Arr (map (fun e => match stringified e with
                         | Undefined => Null
                         | written => written
                         end) l)
  | Obj ms =>
      Obj ((fix members (ms : list (JS.string * value)) :=
              match ms with
              | [] => []
              | (k, x) :: rest =>
                  match stringified x with
                  | Undefined => members rest
                  | written => (k, written) :: members rest
                  end
              end) ms)
  end.

End JSON.

(* ================================================================== *)
(** * The conversation controller, [src/app/page.tsx] *)

Module Controller.

Import JSON.

(** ** Data *)

Inductive Role := user | assistant.

(** [type Message].  The content is declared a string; what is stored
    there comes from a parsed document, so the model keeps the value. *)
Record Message := { role : Role; content : value; id : JS.string }.

(** The state of [ChatPage]: [messages], [input], [isLoading], [error]. *)
Record State := {
  messages : list Message;
  input : JS.string;
  isLoading : bool;
  error : option JS.string
}.

Definition FALLBACK_RESPONSES : list JS.string :=
  [ js"Извините, не удалось подключиться к сервису ИИ. Вот запасной ответ.";
    js"Сервис ИИ в настоящее время недоступен. Пожалуйста, попробуйте позже.";
    js"У меня проблемы с подключением к сервису ИИ, но я всё ещё здесь, чтобы помочь.";
    js"Похоже, возникла проблема с сервисом ИИ. Позвольте мне предоставить простой ответ." ].

(** What a [throw] carries: an [Error] object with its [name] and
    [message], or anything else. *)
Inductive thrown :=
| ErrorObject (name message : JS.string)
| OtherThrown.

Definition Error (message : JS.string) : thrown :=
  ErrorObject (js"Error") message.

Definition error_name (e : thrown) : option JS.string :=
  match e with
  | ErrorObject n _ => Some n
  | OtherThrown => None
  end.

(** ** The environment of one send *)

(** What an awaited operation does: it resolves or rejects at a time
    (milliseconds since the send began), or never settles. *)
Inductive completion (A : Type) :=
| Resolves (time : N) (a : A)
| Rejects (time : N) (e : thrown)
| Hangs.
Arguments Resolves {A}.
Arguments Rejects {A}.
Arguments Hangs {A}.

(** The body of a response: none, or the chunks the reader yields with
    their arrival times and the way the stream ends. *)
Inductive Body :=
| NoBody
| Stream (reads : list (N * list byte)) (finish : completion unit).

Record Response := {
  ok : bool;
  status : N;
  content_type : option JS.string;
  body : Body
}.

(** [Math.random()]: a binary64 in [0, 1) is the dyadic
    [numerator / 2^scale]. *)
Record Random := { numerator : N; scale : N }.

(** The parts of the platform that the source does not determine. *)
Record Platform := {
  Number_toString : number -> JS.string;
  SyntaxError_message : JS.string -> JS.string;
  TypeError_message : value -> JS.string -> JS.string;
  ConversionError_message : value -> JS.string
}.

Record Env := {
  platform : Platform;
  generated : JS.string * JS.string;   (* the two results of generateId *)
  random : Random;
  network : completion Response;       (* what fetch does *)
  rendering : nat -> bool    (* whether React renders during the n-th read *)
}.

(** The request body, before [JSON.stringify]. *)
Record Envelope := {
  envelope_messages : list (Role * value);
  envelope_model : JS.string
}.

Inductive Event :=
| SetMessages (now : list Message)
| SetInput (now : JS.string)
| SetIsLoading (now : bool)
| SetError (now : option JS.string)
| Fetch (url : JS.string) (body : Envelope)
| ClearTimeout
| Abort
| ConsoleError
| Focus.

(** The state, the timer of [setTimeout] (its deadline while armed),
    the abort signal, and what has happened so far, oldest first. *)
Record World := {
  state : State;
  timer : option N;
  aborted : bool;
  events : list Event
}.

(** ** Asynchronous code with exceptions *)

Inductive outcome (A : Type) :=
| Return (a : A)
| Throw (e : thrown)
| Pending.                     (* suspended on an await for ever *)
Arguments Return {A}.
Arguments Throw {A}.
Arguments Pending {A}.

Definition M (A : Type) := World -> outcome A * World.

Definition ret {A} (a : A) : M A := fun w => (Return a, w).

Definition bind {A B} (m : M A) (k : A -> M B) : M B :=
  fun w =>
    match m w with
    | (Return a, w') => k a w'
    | (Throw e, w') => (Throw e, w')
    | (Pending, w') => (Pending, w')
    end.

Definition throw {A} (e : thrown) : M A := fun w => (Throw e, w).

(** [try { m } catch (e) { h e }] *)
Definition try_catch {A} (m : M A) (h : thrown -> M A) : M A :=
  fun w =>
    match m w with
    | (Throw e, w') => h e w'
    | r => r
    end.

(** [try { m } finally { f }]: the block [f] runs when [m] returns or
    throws; it does not while [m] is suspended. *)
Definition try_finally {A} (m : M A) (f : M unit) : M A :=
  fun w =>
    match m w with
    | (Pending, w') => (Pending, w')
    | (r, w') =>
        match f w' with
        | (Return _, w'') => (r, w'')
        | (Throw e, w'') => (Throw e, w'')
        | (Pending, w'') => (Pending, w'')
        end
    end.

Declare Scope async_scope.
Delimit Scope async_scope with async.
Notation "x <- m ;; k" := (bind m (fun x => k))
  (at level 61, m at next level, right associativity) : async_scope.
Notation "m ;; k" := (bind m (fun _ => k))
  (at level 61, right associativity) : async_scope.
Local Open Scope async_scope.

Definition emit (e : Event) : M unit :=
  fun w => (Return tt, {| state := state w; timer := timer w;
                          aborted := aborted w;
                          events := events w ++ [e] |}).

Definition put (s : State) : M unit :=
  fun w => (Return tt, {| state := s; timer := timer w;
                          aborted := aborted w; events := events w |}).

Definition get_state : M State := fun w => (Return (state w), w).

(** The state setters of React.  A setter queues its update, and React
    runs the queue, in the order of the calls, when it renders next.  An
    updater that reads no variable which changes before that render
    gives there what it gives at the call: [setMessages] below is for
    these updaters, applies them at the call and records the value they
    give.  One updater of [handleSendMessage] is not of this kind, that
    of a text frame (page.tsx:165-172), which reads [accumulatedContent]
    when it runs; its calls are queued, see [Reading] and [render].
    A message is an object shared by the old list and the copy that an
    updater returns; no two entries of a list are the same object, so a
    list of records stands for the list of objects. *)
Definition setMessages (f : list Message -> list Message) : M unit :=
  s <- get_state ;;
  let now := f (messages s) in
  put {| messages := now; input := input s;
         isLoading := isLoading s; error := error s |} ;;
  emit (SetMessages now).

Definition setInput (v : JS.string) : M unit :=
  s <- get_state ;;
  put {| messages := messages s; input := v;
         isLoading := isLoading s; error := error s |} ;;
  emit (SetInput v).

Definition setIsLoading (v : bool) : M unit :=
  s <- get_state ;;
  put {| messages := messages s; input := input s;
         isLoading := v; error := error s |} ;;
  emit (SetIsLoading v).

Definition setError (v : option JS.string) : M unit :=
  s <- get_state ;;
  put {| messages := messages s; input := input s;
         isLoading := isLoading s; error := v |} ;;
  emit (SetError v).

(** [setTimeout(() => controller.abort(), ms)] and [clearTimeout]. *)
Definition setTimeout (ms : N) : M unit :=
  fun w => (Return tt, {| state := state w; timer := Some ms;
                          aborted := aborted w; events := events w |}).

Definition clearTimeout : M unit :=
  fun w => (Return tt, {| state := state w; timer := None;
                          aborted := aborted w;
                          events := events w ++ [ClearTimeout] |}).

(** The rejection of an aborted operation.  Its message is the
    browser's; the handlers read the name only. *)
Definition AbortError : thrown :=
  ErrorObject (js"AbortError") (js"The operation was aborted.").

(** The timer fires: [controller.abort()]. *)
Definition fire {A} : M A :=
  fun w => (Throw AbortError,
            {| state := state w; timer := None; aborted := true;
               events := events w ++ [Abort] |}).

(** [await] of an operation bound to the abort signal.  While the timer
    is armed, an operation that has not settled before the deadline is
    aborted and rejects with an AbortError. *)
Definition await {A} (c : completion A) : M A :=
  fun w =>
    match timer w with
    | Some deadline =>
        match c with
        | Resolves t a => if (t <? deadline)%N then (Return a, w) else fire w
        | Rejects t e => if (t <? deadline)%N then (Throw e, w) else fire w
        | Hangs => fire w
        end
    | None =>
        match c with
        | Resolves _ a => (Return a, w)
        | Rejects _ e => (Throw e, w)
        | Hangs => (Pending, w)
        end
    end.

(** ** The handlers *)

Definition set_content (m : Message) (c : value) : Message :=
  {| role := role m; content := c; id := id m |}.

(** [const m = newMessages.find(p); if (m) { m.content = c }]: the first
    message that satisfies [p] gets the content, in a copy of the list. *)
Fixpoint find_and_assign (p : Message -> bool) (c : value)
    (prev : list Message) : list Message :=
  match prev with
  | [] => []
  | m :: rest =>
      if p m then set_content m c :: rest
      else m :: find_and_assign p c rest
  end.

(** [const m = newMessages[newMessages.length - 1];
     if (m && m.role === "assistant") { m.content = c }] *)
Fixpoint assign_last_assistant (c : value) (prev : list Message)
  : list Message :=
  match prev with
  | [] => []
  | [m] =>
      match role m with
      | assistant => [set_content m c]
      | user => [m]
      end
  | m :: rest => m :: assign_last_assistant c rest
  end.

Definition handleClearChat : M unit :=
  setMessages (fun _ => []) ;;
  setError None ;;
  emit Focus.

Definition handlePromptClick (promptText : JS.string) : M unit :=
  setInput promptText ;;
  emit Focus.

Definition NO_RESPONSE : JS.string :=
  js"Не удалось получить ответ от модели.".

Definition TIMEOUT_MESSAGE : JS.string :=
  js"Время ожидания истекло. Пожалуйста, попробуйте снова.".

Definition UNEXPECTED_ERROR : JS.string :=
  js"Произошла непредвиденная ошибка".

Definition DEADLINE : N := 60000.

Section Send.

Variable env : Env.

(** [getFallbackResponse]: [Math.floor(Math.random() * length)] is exact,
    the length being a power of two; an index outside the array gives
    [undefined]. *)
Definition getFallbackResponse : value :=
  let r := random env in
  let index :=
    (numerator r * N.of_nat (length FALLBACK_RESPONSES) / 2 ^ scale r)%N in
  match nth_error FALLBACK_RESPONSES (N.to_nat index) with
  | Some s => Str s
  | None => Undefined
  end.

(** ToString of a value, in a template, a concatenation or [new Error]. *)
Definition to_string (v : value) : M JS.string :=
  match ToString (Number_toString (platform env)) v with
  | Some text => ret text
  | None =>
      throw (ErrorObject (js"TypeError")
               (ConversionError_message (platform env) v))
  end.

(** [new Error(v)]: no message for [undefined], ToString otherwise. *)
Definition new_Error (v : value) : M thrown :=
  match v with
  | Undefined => ret (Error [])
  | _ => message <- to_string v ;; ret (Error message)
  end.

Definition JSON_parse (text : JS.string) : M value :=
  match parse text with
  | Some v => ret v
  | None =>
      throw (ErrorObject (js"SyntaxError")
               (SyntaxError_message (platform env) text))
  end.

Definition property (v : value) (key : JS.string) : M value :=
  match get v key with
  | Some x => ret x
  | None =>
      throw (ErrorObject (js"TypeError")
               (TypeError_message (platform env) v key))
  end.

(** [await response.text()] *)
Definition response_text (r : Response) : M JS.string :=
  match body r with
  | NoBody => ret []
  | Stream reads finish =>
      await finish ;;
      ret (TextDecoder.utf8_decode (concat (map snd reads)))
  end.

(** [await response.json()] *)
Definition response_json (r : Response) : M value :=
  text <- response_text r ;;
  JSON_parse text.

Definition is_placeholder (assistantMessageId : JS.string) (msg : Message)
  : bool :=
  JS.eqb (id msg) assistantMessageId.

(** The stream branch and React.  [accumulatedContent] is the variable
    of that name.  The updater of a text frame gives the placeholder the
    value that [accumulatedContent] has when React runs it, so the
    updaters still in React's queue are all alike, and [queued] is their
    number. *)
Record Reading := { accumulatedContent : JS.string; queued : nat }.

(** The body of the [try] of one frame.  A text frame adds to
    [accumulatedContent] and calls [setMessages]; the call queues the
    updater. *)
Definition frame_body (now : Reading) (line : JS.string) : M Reading :=
  let trimmedLine := JS.trim (JS.strip_data_marker line) in
  if JS.eqb trimmedLine [] then ret now
  else
    parsedChunk <- JSON_parse trimmedLine ;;
    type <- property parsedChunk (js"type") ;;
    match type with
    | Str t =>
        if JS.eqb t (js"text") then
          v <- property parsedChunk (js"value") ;;
          text <- to_string v ;;
          ret {| accumulatedContent := accumulatedContent now ++ text;
                 queued := S (queued now) |}
        else if JS.eqb t (js"error") then
          v <- property parsedChunk (js"value") ;;
          e <- new_Error v ;;
          throw e
        else ret now
    | _ => ret now
    end.

(** [for (const line of lines) { try { ... } catch (e) { console.error } }].
    Whatever is thrown in the body is thrown before the assignment to
    [accumulatedContent], so the handler goes on with the old values. *)
Fixpoint for_lines (now : Reading) (lines : list JS.string) : M Reading :=
  match lines with
  | [] => ret now
  | line :: rest =>
      next <- try_catch (frame_body now line)
                (fun e => emit ConsoleError ;; ret now) ;;
      for_lines next rest
  end.

Definition lines_of (chunk : JS.string) : list JS.string :=
  filter (fun line => negb (JS.eqb (JS.trim line) []))
    (JS.split JS.blank_line chunk).

(** React runs the queued updaters of the stream branch:
    [(prev) => { const newMessages = [...prev];
       const lastMessage = newMessages.find((msg) => msg.id === assistantMessageId);
       if (lastMessage) { lastMessage.content = accumulatedContent }
       return newMessages }],
    each with the value that [accumulatedContent] has now. *)
Fixpoint run_queued (assistantMessageId accumulatedContent : JS.string)
    (queued : nat) : M unit :=
  match queued with
  | O => ret tt
  | S more =>
      setMessages (find_and_assign (is_placeholder assistantMessageId)
                     (Str accumulatedContent)) ;;
      run_queued assistantMessageId accumulatedContent more
  end.

Definition render (assistantMessageId : JS.string) (now : Reading)
  : M Reading :=
  run_queued assistantMessageId (accumulatedContent now) (queued now) ;;
  ret {| accumulatedContent := accumulatedContent now; queued := 0 |}.

(** [while (true) { const { done, value } = await reader.read(); ... }].
    While the handler waits for a read React may render, or leave the
    queue for later: the environment tells which, read by read.  What
    is queued when the reader is done or fails is run by then, before
    any update that the handler queues after the loop. *)
Fixpoint read_loop (assistantMessageId : JS.string)
    (decoder : TextDecoder.t) (now : Reading) (turn : nat)
    (reads : list (N * list byte)) (finish : completion unit) : M unit :=
  match reads with
  | [] =>
      render assistantMessageId now ;;
      await finish
  | (t, value) :: rest =>
      now <- (if rendering env turn then render assistantMessageId now
              else ret now) ;;
      await (Resolves t tt) ;;
      let (decoder, chunk) := TextDecoder.decode_stream decoder value in
      now <- for_lines now (lines_of chunk) ;;
      read_loop assistantMessageId decoder now (S turn) rest finish
  end.

Definition envelope_of (history : list Message) (userMessage : Message)
  : Envelope :=
  {| envelope_messages :=
       map (fun m => (role m, content m)) (history ++ [userMessage]);
     envelope_model := js"mistral" |}.

(** What follows the [fetch], inside the inner [try]. *)
Definition handle_response (assistantMessageId : JS.string)
    (response : Response) : M unit :=
  if negb (ok response) then
    errorText <- response_text response ;;
    throw (Error (js"Ошибка сервера: " ++ JS.decimal (status response)
                  ++ js". " ++ errorText))
  else
    let contentType :=
      match content_type response with
      | Some s => s
      | None => []
      end in
    if JS.includes (js"application/json") contentType then
      data <- response_json response ;;
      err <- property data (js"error") ;;
      if truthy err then e <- new_Error err ;; throw e
      else
        c <- property data (js"content") ;;
        setMessages (find_and_assign (is_placeholder assistantMessageId)
                       (if truthy c then c else Str NO_RESPONSE))
    else if JS.includes (js"text/event-stream") contentType then
      match body response with
      | NoBody => throw (Error (js"Тело ответа отсутствует"))
      | Stream reads finish =>
          read_loop assistantMessageId TextDecoder.new
            {| accumulatedContent := []; queued := 0 |} 0 reads finish
      end
    else throw (Error (js"Неожиданный формат ответа от сервера")).

(** [handleSendMessage].  [input], [isLoading] and [messages] are the
    values of the render the handler belongs to. *)
Definition handleSendMessage : M unit :=
  s <- get_state ;;
  if JS.eqb (JS.trim (input s)) [] || isLoading s then ret tt
  else
    let userMessage :=
      {| role := user; content := Str (input s);
         id := fst (generated env) |} in
    setMessages (fun prev => prev ++ [userMessage]) ;;
    setInput [] ;;
    setIsLoading true ;;
    setError None ;;
    try_finally
      (try_catch
         (let assistantMessageId := snd (generated env) in
          setMessages (fun prev =>
            prev ++ [{| role := assistant; content := Str [];
                        id := assistantMessageId |}]) ;;
          setTimeout DEADLINE ;;
          try_catch
            (emit (Fetch (js"/api/chat")
                     (envelope_of (messages s) userMessage)) ;;
             response <- await (network env) ;;
             clearTimeout ;;
             handle_response assistantMessageId response)
            (fun fetchError =>
               emit ConsoleError ;;
               match error_name fetchError with
               | Some n =>
                   if JS.eqb n (js"AbortError")
                   then throw (Error TIMEOUT_MESSAGE)
                   else throw fetchError
               | None => throw fetchError
               end))
         (fun err =>
            emit ConsoleError ;;
            setError (Some match err with
                           | ErrorObject _ message => message
                           | OtherThrown => UNEXPECTED_ERROR
                           end) ;;
            setMessages (assign_last_assistant getFallbackResponse)))
      (setIsLoading false ;; emit Focus).

End Send.

(** One send, from a state at rest. *)
Definition start (s : State) : World :=
  {| state := s; timer := None; aborted := false; events := [] |}.

Definition send (env : Env) (s : State) : outcome unit * World :=
  handleSendMessage env (start s).

End Controller.

(* ================================================================== *)
(** * The completion proxy, [src/app/api/chat/route.ts] *)

Module Proxy.

Import JSON.

Definition MODEL_MAP : list (JS.string * JS.string) :=
  [ (js"mistral", js"mistralai/mistral-7b-instruct");
    (js"base-free", js"01-ai/yi-34b-chat") ].

(** Declared and never read. *)
Definition FALLBACK_MODELS : list (JS.string * list JS.string) :=
  [ (js"mistral", [js"openai/gpt-3.5-turbo"; js"anthropic/claude-instant-v1"]);
    (js"base-free", [js"google/gemma-7b-it"; js"anthropic/claude-instant-v1"]) ].

(** [export const maxDuration = 60] *)
Definition maxDuration : N := 60.

(** The properties every object literal inherits from [Object.prototype]. *)
Definition Object_prototype : list JS.string :=
  [ js"constructor"; js"__defineGetter__"; js"__defineSetter__";
    js"hasOwnProperty"; js"__lookupGetter__"; js"__lookupSetter__";
    js"isPrototypeOf"; js"propertyIsEnumerable"; js"toString";
    js"valueOf"; js"__proto__"; js"toLocaleString" ].

(** What [MODEL_MAP[key]] evaluates to. *)
Inductive looked_up :=
| Own (modelId : JS.string)
| Inherited (name : JS.string)     (* a function or the prototype object *)
| Missing.                         (* undefined *)

Fixpoint assoc (key : JS.string) (table : list (JS.string * JS.string))
  : option JS.string :=
  match table with
  | [] => None
  | (k, v) :: rest => if JS.eqb k key then Some v else assoc key rest
  end.

Definition MODEL_MAP_get (key : JS.string) : looked_up :=
  match assoc key MODEL_MAP with
  | Some modelId => Own modelId
  | None =>
      if existsb (JS.eqb key) Object_prototype then Inherited key
      else Missing
  end.

Definition looked_up_truthy (m : looked_up) : bool :=
  match m with
  | Own modelId => negb (JS.eqb modelId [])
  | Inherited _ => true
  | Missing => false
  end.

(** [new Response(JSON.stringify(body), { status, headers })]: the body
    is the value that the text written denotes. *)
Record Response := { status : N; content_type : JS.string; body : value }.

Definition respond (status : N) (members : list (JS.string * value))
  : Response :=
  {| status := status;
     content_type := js"application/json";
     body := stringified (Obj members) |}.

(** The request sent upstream, before [JSON.stringify]. *)
Record Call := {
  call_model : looked_up;
  call_messages : list (value * value);      (* role, content *)
  call_temperature : number;
  call_max_tokens : N;
  call_stream : bool
}.

(** What the upstream does with a call: the fetch rejects, or a response
    arrives, [ok] or not, whose body can be read as text or not. *)
Inductive Upstream :=
| Unreachable
| Answer (ok : bool) (text : option JS.string).

Record Env := {
  API_KEY : option JS.string;                 (* process.env.API_KEY *)
  Number_toString : number -> JS.string
}.

Definition DEGRADED : JS.string :=
  js"Извините, в данный момент я не могу подключиться к API. Пожалуйста, проверьте ваш API ключ и попробуйте позже.".

Definition FAILED : JS.string :=
  js"Произошла ошибка при обработке запроса.".

(** The outer [catch]. *)
Definition internal_error : Response :=
  respond 200 [ (js"error", Str (js"Произошла непредвиденная ошибка"));
                (js"content", Str FAILED) ].

(** [messages.map((msg) => ({ role: msg.role, content: msg.content }))];
    [None] is the TypeError of an element that is [null]. *)
Fixpoint formatted (messages : list value) : option (list (value * value)) :=
  match messages with
  | [] => Some []
  | msg :: rest =>
      match get msg (js"role"), get msg (js"content") with
      | Some r, Some c =>
          match formatted rest with
          | Some l => Some ((r, c) :: l)
          | None => None
          end
      | _, _ => None
      end
  end.

(** [data.choices && data.choices[0] && data.choices[0].message], and
    then [data.choices[0].message.content].  The outer [None] is a
    TypeError, the inner one a guard that is falsy. *)
Definition completion_choice (data : value) : option (option value) :=
  match get data (js"choices") with
  | None => None
  | Some choices =>
      if negb (truthy choices) then Some None
      else
        match get choices (js"0") with
        | None => None
        | Some first =>
            if negb (truthy first) then Some None
            else
              match get first (js"message") with
              | None => None
              | Some message =>
                  if negb (truthy message) then Some None
                  else
                    match get message (js"content") with
                    | None => None
                    | Some c => Some (Some c)
                    end
              end
        end
  end.

(** The inner [try] and what follows it. *)
Definition complete_upstream (up : Upstream) : Response :=
  let degraded := respond 200 [ (js"content", Str DEGRADED) ] in
  match up with
  | Answer true (Some text) =>
      match parse text with
      | Some data =>
          match completion_choice data with
          | Some (Some c) => respond 200 [ (js"content", c) ]
          | _ => degraded
          end
      | None => degraded
      end
  | _ => degraded
  end.

(** [POST]: the response and the calls made upstream. *)
Definition POST (env : Env) (request_body : JS.string) (up : Upstream)
  : Response * list Call :=
  let apiKey := match API_KEY env with Some k => k | None => [] end in
  if JS.eqb apiKey [] || JS.eqb (JS.trim apiKey) [] then
    (respond 500 [ (js"error", Str (js"API ключ OpenRouter не настроен")) ], [])
  else
    match parse request_body with
    | None => (internal_error, [])
    | Some json =>
        match get json (js"messages"), get json (js"model") with
        | Some messages, Some model =>
            if negb (truthy messages) || negb (is_array messages)
               || negb (truthy model)
            then (respond 400 [ (js"error", Str (js"Неверный формат запроса")) ], [])
            else
              (* [MODEL_MAP[model]] makes a property key of [model];
                 when there is none, the TypeError goes to the outer
                 [catch] *)
              match ToString (Number_toString env) model with
              | None => (internal_error, [])
              | Some key =>
                  let modelId := MODEL_MAP_get key in
                  if negb (looked_up_truthy modelId) then
                    (respond 400
                       [ (js"error", Str (js"Указана неверная модель")) ], [])
                  else
                    match messages with
                    | Arr elements =>
                        match formatted elements with
                        | None => (internal_error, [])
                        | Some formattedMessages =>
                            (complete_upstream up,
                             [ {| call_model := modelId;
                                  call_messages := formattedMessages;
                                  call_temperature :=
                                    {| negative := false; mantissa := 7;
                                       exponent := -1 |};
                                  call_max_tokens := 1000;
                                  call_stream := false |} ])
                        end
                    | _ => (internal_error, [])
                    end
              end
        | _, _ => (internal_error, [])
        end
    end.

End Proxy.

(* ================================================================== *)
(** * What [ChatPage] renders, [src/app/page.tsx] *)

Module Page.

Import JSON Controller.
Local Open Scope async_scope.

(** [onChange={(e) => setInput(e.target.value)}] *)
Definition handleInputChange (value : JS.string) : M unit := setInput value.

(** The entry field: [disabled={isLoading}]. *)
Definition input_disabled (s : State) : bool := isLoading s.

(** The send button: [disabled={isLoading || !input.trim()}]. *)
Definition send_disabled (s : State) : bool :=
  isLoading s || JS.eqb (JS.trim (input s)) [].

(** The prompts are offered when [messages.length === 0]. *)
Definition prompts_shown (s : State) : bool :=
  match messages s with
  | [] => true
  | _ :: _ => false
  end.

Definition THINKING : JS.string := js"Думаю...".

(** The text of a bubble: the content of a user message, and
    [message.content || (isLoading ? "Думаю..." : "")] for an assistant
    message. *)
Definition bubble (s : State) (message : Message) : value :=
  match role message with
  | user => content message
  | assistant =>
      if truthy (content message) then content message
      else Str (if isLoading s then THINKING else [])
  end.

(** The animated indicator under the list:
    [isLoading && messages.length > 0 &&
     messages[messages.length - 1].role === "assistant" &&
     messages[messages.length - 1].content === ""]. *)
Definition indicator_shown (s : State) : bool :=
  isLoading s &&
  match rev (messages s) with
  | [] => false
  | lastMessage :: _ =>
      match role lastMessage, content lastMessage with
      | assistant, Str [] => true
      | _, _ => false
      end
  end.

(** The bubbles of the list: [messages.map((message) => ...)]. *)
Definition bubbles (s : State) : list value := map (bubble s) (messages s).

(** The banner, [{error && ( ... {error} ... )}], in the branch of
    [messages.length === 0 ? ... : ...] that shows the list. *)
Definition banner (s : State) : option JS.string :=
  match messages s, error s with
  | _ :: _, Some text => if JS.eqb text [] then None else Some text
  | _, _ => None
  end.

End Page.

(* ================================================================== *)
(** * [fetchFromOpenRouter], [src/app/api/chat/route.ts] *)

Module OpenRouter.

Import JSON.

(** [s.substring(start, end)] on integers: both ends are clamped to the
    string and put in order; without [end] the rest of the string is
    taken. *)
Definition substring (s : JS.string) (start : Z) (finish : option Z)
  : JS.string :=
  let len := Z.of_nat (length s) in
  let clamp x := Z.min (Z.max x 0) len in
  let a := clamp start in
  let b := match finish with Some e => clamp e | None => len end in
  let from := Z.min a b in
  let to := Z.max a b in
  firstn (Z.to_nat (to - from)) (skipn (Z.to_nat from) s).

(** The request given to [fetch]; [body] before [JSON.stringify]. *)
Record Request := {
  url : JS.string;
  method : JS.string;
  header_content_type : JS.string;
  header_authorization : JS.string;
  header_referer : JS.string;
  header_title : JS.string;
  body_model : JS.string;
  body_messages : list value;
  body_temperature : number;
  body_max_tokens : N;
  body_stream : bool
}.

(** The excerpt of the key that is written to the log. *)
Definition key_excerpt (apiKey : JS.string) : JS.string :=
  substring apiKey 0%Z (Some 10%Z) ++ js"..."
  ++ substring apiKey (Z.of_nat (length apiKey) - 5)%Z None.

(** [fetchFromOpenRouter(model, messages, apiKey)]: the two lines of
    [console.log], each a label and a text, and the request.
    [VERCEL_URL] is [process.env.VERCEL_URL]. *)
Definition fetchFromOpenRouter (VERCEL_URL : option JS.string)
    (model : JS.string) (messages : list value) (apiKey : JS.string)
  : list (JS.string * JS.string) * Request :=
  ([ (js"Используем API ключ:", key_excerpt apiKey);
     (js"Отправляем запрос к модели:", model) ],
   {| url := js"https://openrouter.ai/api/v1/chat/completions";
      method := js"POST";
      header_content_type := js"application/json";
      header_authorization := js"Bearer " ++ apiKey;
      header_referer :=
        match VERCEL_URL with
        | Some u => if JS.eqb u [] then js"http://localhost:3000" else u
        | None => js"http://localhost:3000"
        end;
      header_title := js"AI Assistant";
      body_model := model;
      body_messages := messages;
      body_temperature := {| negative := false; mantissa := 7;
                             exponent := -1 |};
      body_max_tokens := 1000;
      body_stream := true |}).

End OpenRouter.


(* ================================================================== *)
(** * The terms in which the controller is specified *)

Module ControllerSpec.

Import JSON Controller.
Local Open Scope async_scope.

(** ** One send, in pieces *)

(** A send is accepted when the input is not blank and no request is in
    flight. *)
Definition accepted (s : State) : Prop :=
  JS.trim (input s) <> [] /\ isLoading s = false.

Definition userMessage (env : Env) (s : State) : Message :=
  {| role := user; content := Str (input s); id := fst (generated env) |}.

Definition placeholder (env : Env) : Message :=
  {| role := assistant; content := Str []; id := snd (generated env) |}.

Definition with_content (env : Env) (c : value) : Message :=
  set_content (placeholder env) c.

(** The id of the placeholder is the id of no earlier message. *)
Definition fresh (env : Env) (s : State) : Prop :=
  Forall (fun x => id x <> snd (generated env))
    (messages s ++ [userMessage env s]).

(** What happens up to the [fetch]. *)
Definition prologue (env : Env) (s : State) : list Event :=
  [ SetMessages (messages s ++ [userMessage env s]);
    SetInput []; SetIsLoading true; SetError None;
    SetMessages (messages s ++ [userMessage env s; placeholder env]);
    Fetch (js"/api/chat") (envelope_of (messages s) (userMessage env s)) ].

Definition world_at_fetch (env : Env) (s : State) : World :=
  {| state := {| messages := messages s
                             ++ [userMessage env s; placeholder env];
                 input := []; isLoading := true; error := None |};
     timer := Some DEADLINE;
     aborted := false;
     events := prologue env s |}.

(** The inner [try] from the [await] on. *)
Definition exchange (env : Env) : M unit :=
  response <- await (network env) ;;
  clearTimeout ;;
  handle_response env (snd (generated env)) response.

(** The two [catch] blocks and the [finally] block. *)
Definition fetch_handler (fetchError : thrown) : M unit :=
  emit ConsoleError ;;
  match error_name fetchError with
  | Some n =>
      if JS.eqb n (js"AbortError")
      then throw (Error TIMEOUT_MESSAGE)
      else throw fetchError
  | None => throw fetchError
  end.

Definition failure_handler (env : Env) (err : thrown) : M unit :=
  emit ConsoleError ;;
  setError (Some match err with
                 | ErrorObject _ message => message
                 | OtherThrown => UNEXPECTED_ERROR
                 end) ;;
  setMessages (assign_last_assistant (getFallbackResponse env)).

Definition finalizer : M unit := setIsLoading false ;; emit Focus.

(** The text that the outer handler records for what the exchange threw. *)
Definition error_text (e : thrown) : JS.string :=
  match e with
  | ErrorObject n message =>
      if JS.eqb n (js"AbortError") then TIMEOUT_MESSAGE else message
  | OtherThrown => UNEXPECTED_ERROR
  end.

(** The world after the failure path, and after the [finally] block. *)
Definition failed (env : Env) (text : JS.string) (w : World) : World :=
  let now := assign_last_assistant (getFallbackResponse env)
               (messages (state w)) in
  {| state := {| messages := now; input := input (state w);
                 isLoading := isLoading (state w); error := Some text |};
     timer := timer w; aborted := aborted w;
     events := events w ++ [ConsoleError; ConsoleError;
                            SetError (Some text); SetMessages now] |}.

Definition finished (w : World) : World :=
  {| state := {| messages := messages (state w); input := input (state w);
                 isLoading := false; error := error (state w) |};
     timer := timer w; aborted := aborted w;
     events := events w ++ [SetIsLoading false; Focus] |}.

Definition conclude (env : Env) (r : outcome unit * World)
  : outcome unit * World :=
  match r with
  | (Return _, w) => (Return tt, finished w)
  | (Throw e, w) => (Return tt, finished (failed env (error_text e) w))
  | (Pending, w) => (Pending, w)
  end.

(** The world when the response has arrived in time, and when the timer
    has fired. *)
Definition world_at_response (env : Env) (s : State) : World :=
  {| state := state (world_at_fetch env s);
     timer := None; aborted := false;
     events := prologue env s ++ [ClearTimeout] |}.

Definition world_at_abort (env : Env) (s : State) : World :=
  {| state := state (world_at_fetch env s);
     timer := None; aborted := true;
     events := prologue env s ++ [Abort] |}.

(** The world while the body is read: the timer is disarmed, and the
    placeholder shows [c]. *)
Definition world_reading (env : Env) (s : State) (c : JS.string)
    (es : list Event) : World :=
  {| state := {| messages := messages s
                             ++ [userMessage env s; with_content env (Str c)];
                 input := []; isLoading := true; error := None |};
     timer := None; aborted := false; events := es |}.

(** ** Time *)

(** The operation has not settled within the deadline. *)
Definition late {A} (c : completion A) : Prop :=
  match c with
  | Resolves t _ | Rejects t _ => (DEADLINE < t)%N
  | Hangs => True
  end.

(** The time at which a response is complete, headers and body. *)
Definition completion_time (c : completion Response) : option N :=
  match c with
  | Resolves t r =>
      match body r with
      | NoBody => Some t
      | Stream _ (Resolves t' _) | Stream _ (Rejects t' _) => Some t'
      | Stream _ Hangs => None
      end
  | Rejects t _ => Some t
  | Hangs => None
  end.

(** ** Responses *)

Definition declared_kind (r : Response) : JS.string :=
  match content_type r with Some h => h | None => [] end.

Definition structured_document (r : Response) : Prop :=
  ok r = true /\
  JS.includes (js"application/json") (declared_kind r) = true.

Definition event_stream (r : Response) : Prop :=
  ok r = true /\
  JS.includes (js"application/json") (declared_kind r) = false /\
  JS.includes (js"text/event-stream") (declared_kind r) = true.

Definition body_text (reads : list (N * list byte)) : JS.string :=
  TextDecoder.utf8_decode (concat (map snd reads)).

(** The texts that the decoder yields, chunk after chunk. *)
Fixpoint decoded (d : TextDecoder.t) (chunks : list (list byte))
  : list JS.string :=
  match chunks with
  | [] => []
  | c :: rest =>
      let (d', text) := TextDecoder.decode_stream d c in
      text :: decoded d' rest
  end.

(** ** Frames *)

(** Frames, each followed by the delimiter. *)
Definition frames_text (frames : list JS.string) : JS.string :=
  concat (map (fun f => f ++ JS.blank_line) frames).

(** The delimiter does not begin inside the frame. *)
Definition delimited (line : JS.string) : bool :=
  negb (JS.includes JS.blank_line (line ++ [JS.LF])).

(** The value of a well-formed text frame: the frame is delimited and,
    marker and blanks removed, parses to a document of type "text" with
    a string value. *)
Definition text_frame (line : JS.string) : option JS.string :=
  if delimited line then
    match parse (JS.trim (JS.strip_data_marker line)) with
    | Some doc =>
        match get doc (js"type"), get doc (js"value") with
        | Some (Str t), Some (Str v) =>
            if JS.eqb t (js"text") then Some v else None
        | _, _ => None
        end
    | None => None
    end
  else None.

Definition text_frames (frames values : list JS.string) : Prop :=
  Forall2 (fun f v => text_frame f = Some v) frames values.

(** The value of a frame that parses to a document of type "error". *)
Definition error_frame (line : JS.string) : option value :=
  match parse (JS.trim (JS.strip_data_marker line)) with
  | Some doc =>
      match get doc (js"type"), get doc (js"value") with
      | Some (Str t), Some v => if JS.eqb t (js"error") then Some v else None
      | _, _ => None
      end
  | None => None
  end.

(** A piece of a body: a frame, or the delimiter. *)
Inductive piece :=
| Frame (line : JS.string)
| Delimiter.

Definition piece_text (p : piece) : JS.string :=
  match p with
  | Frame line => line
  | Delimiter => JS.blank_line
  end.

Definition pieces_text (ps : list piece) : JS.string :=
  concat (map piece_text ps).

Definition frames_of (ps : list piece) : list JS.string :=
  flat_map (fun p => match p with
                     | Frame line => [line]
                     | Delimiter => []
                     end) ps.

(** The frames are separated by the delimiter: no frame is followed by
    a frame at once. *)
Fixpoint apart (ps : list piece) : bool :=
  match ps with
  | [] => true
  | Delimiter :: rest => apart rest
  | Frame _ :: rest =>
      match rest with
      | Frame _ :: _ => false
      | _ => apart rest
      end
  end.

Fixpoint nondecreasing (ks : list nat) : Prop :=
  match ks with
  | a :: rest =>
      match rest with
      | b :: _ => a <= b /\ nondecreasing rest
      | [] => True
      end
  | [] => True
  end.

(** What the updates of the frames can show, one update per frame: the
    update of the frame number [i] shows the values of the first [k]
    frames for some [k] from [i] on, and the [k] never decrease. *)
Definition late_prefixes (values shown : list JS.string) : Prop :=
  exists ks,
    shown = map (fun k => concat (firstn k values)) ks
    /\ Forall2 (fun i k => i <= k <= length values)
         (seq 1 (length values)) ks
    /\ nondecreasing ks.


(** ** Traces *)

(** A computation adds to the events, and only events in [P]. *)
Definition emits (P : Event -> Prop) {A} (m : M A) : Prop :=
  forall w, exists es, events (snd (m w)) = events w ++ es /\ Forall P es.

(** The events between the [fetch] and the handlers. *)
Definition exchange_event (e : Event) : Prop :=
  match e with
  | SetMessages _ | ConsoleError | Abort | ClearTimeout => True
  | _ => False
  end.

Definition fetches (es : list Event) : list (JS.string * Envelope) :=
  flat_map (fun e => match e with
                     | Fetch url b => [(url, b)]
                     | _ => []
                     end) es.

Definition loading_cleared (es : list Event) : nat :=
  length (filter (fun e => match e with
                           | SetIsLoading false => true
                           | _ => false
                           end) es).

Definition console_errors (es : list Event) : nat :=
  length (filter (fun e => match e with ConsoleError => true | _ => false end)
            es).

Definition aborts (es : list Event) : nat :=
  length (filter (fun e => match e with Abort => true | _ => false end) es).

(** The content of the in-progress assistant message after a send. *)
Definition final_content (env : Env) (s : State) : option value :=
  option_map content
    (find (is_placeholder (snd (generated env)))
       (messages (state (snd (send env s))))).

(** ** Scenarios *)

Module Scenario.

(** Bytes of a text in which the apostrophe stands for the quotation
    mark. *)
Definition quoted_bytes (s : String.string) : list byte :=
  map (fun b => match b with x27 => x22 | _ => b end) (list_byte_of_string s).

Definition blank : list byte := [x0a; x0a].

(** Number printing that is right on the naturals written without
    exponent; the scenarios hold no number. *)
Definition a_platform : Platform :=
  {| Number_toString := fun n => JS.decimal (mantissa n);
     SyntaxError_message := fun _ => js"Unexpected token";
     TypeError_message := fun _ _ => js"Cannot read properties";
     ConversionError_message :=
       fun _ => js"Cannot convert object to primitive value" |}.

Definition he : list byte := quoted_bytes "data: {'type':'text','value':'He'}".
Definition llo : list byte := quoted_bytes "data: {'type':'text','value':'llo'}".
Definition boom : list byte :=
  quoted_bytes "data: {'type':'error','value':'boom'}".
Definition garbage : list byte := quoted_bytes "data: {'type':".

Definition hello_body : list byte := he ++ blank ++ llo ++ blank.

Definition streamed (headers_at : N) (reads : list (N * list byte))
    (finish : completion unit) : completion Response :=
  Resolves headers_at
    {| ok := true; status := 200;
       content_type := Some (js"text/event-stream");
       body := Stream reads finish |}.

Definition structured (doc : String.string) : completion Response :=
  Resolves 250
    {| ok := true; status := 200;
       content_type := Some (js"application/json");
       body := Stream [(300%N, quoted_bytes doc)] (Resolves 310 tt) |}.

Definition an_env (net : completion Response) : Env :=
  {| platform := a_platform;
     generated := (js"m1", js"m2");
     random := {| numerator := 5; scale := 3 |};
     network := net;
     rendering := fun _ => true |}.

(** An idle conversation with one earlier exchange and a typed input. *)
Definition a_state : State :=
  {| messages := [ {| role := user; content := Str (js"Hi"); id := js"k1" |};
                   {| role := assistant; content := Str (js"Hello!");
                      id := js"k2" |} ];
     input := js" tell me more ";
     isLoading := false;
     error := Some (js"old") |}.

(** The whole body in one read. *)
Definition hello_whole : Env :=
  an_env (streamed 120 [(200%N, hello_body)] (Resolves 210 tt)).

(** The same bytes, the first read ending inside the first frame. *)
Definition hello_cut : Env :=
  an_env (streamed 120 [(200%N, firstn 10 hello_body);
                        (205%N, skipn 10 hello_body)] (Resolves 210 tt)).

(** A frame that does not parse between two that do. *)
Definition hello_with_garbage : Env :=
  an_env (streamed 120
            [(200%N, he ++ blank ++ garbage ++ blank ++ llo ++ blank)]
            (Resolves 210 tt)).

(** An error frame alone, and an error frame before a text frame. *)
Definition boom_alone : Env :=
  an_env (streamed 120 [(200%N, boom ++ blank)] (Resolves 210 tt)).

Definition boom_then_text : Env :=
  an_env (streamed 120 [(200%N, boom ++ blank ++ he ++ blank)]
            (Resolves 210 tt)).

(** Headers after one second, the body after ninety. *)
Definition slow_body : Env :=
  an_env (streamed 1000 [(90000%N, hello_body)] (Resolves 90001 tt)).

Definition never_answered : Env := an_env Hangs.

Definition content_x : Env := an_env (structured "{'content':'X'}").
Definition empty_content : Env := an_env (structured "{'content':''}").
Definition error_boom : Env := an_env (structured "{'error':'boom'}").


(** The two frames with no delimiter after the last, read in three
    chunks that end after a frame and before its delimiter. *)
Definition hello_unterminated : Env :=
  an_env (streamed 120 [(200%N, he); (205%N, blank); (206%N, llo)]
            (Resolves 210 tt)).

(** The body of two frames in two reads, and React rendering after the
    second only. *)
Definition hello_in_two : Env :=
  {| platform := a_platform;
     generated := (js"m1", js"m2");
     random := {| numerator := 5; scale := 3 |};
     network := streamed 120 [(200%N, he ++ blank); (205%N, llo ++ blank)]
                  (Resolves 210 tt);
     rendering := fun _ => false |}.

End Scenario.

End ControllerSpec.

(* ================================================================== *)
(** * The terms in which the proxy is specified *)

Module ProxySpec.

Import JSON Proxy.

(** The credential check fails: no key, or a key of blanks. *)
Definition key_blank (env : Env) : bool :=
  match API_KEY env with
  | Some k => JS.eqb k [] || JS.eqb (JS.trim k) []
  | None => true
  end.

(** What the validation rejects in a parsed body: [messages] missing or
    falsy or not an array, [model] missing or falsy, or a [model] that
    makes a property key which names nothing in [MODEL_MAP], own or
    inherited. *)
Definition rejected (env : Env) (json : value) : Prop :=
  exists messages model,
    get json (js"messages") = Some messages
    /\ get json (js"model") = Some model
    /\ (truthy messages = false
        \/ is_array messages = false
        \/ truthy model = false
        \/ exists key,
             ToString (Number_toString env) model = Some key
             /\ MODEL_MAP_get key = Missing).

(** The request passes the credential check and the validation. *)
Definition passes (env : Env) (request : JS.string) : Prop :=
  key_blank env = false
  /\ exists json messages model key,
       parse request = Some json
       /\ get json (js"messages") = Some messages
       /\ get json (js"model") = Some model
       /\ truthy messages = true
       /\ is_array messages = true
       /\ truthy model = true
       /\ ToString (Number_toString env) model = Some key
       /\ looked_up_truthy (MODEL_MAP_get key) = true.

(** [choices[0].message] of a document, read member by member: there
    is none when the document, [choices] or [choices[0]] is [null] or
    [undefined]. *)
Definition choice_message (data : value) : option value :=
  match get data (js"choices") with
  | Some choices =>
      match get choices (js"0") with
      | Some first => get first (js"message")
      | None => None
      end
  | None => None
  end.

(** The upstream call fails: no response, a response that is not [ok],
    a body that cannot be read or parsed, or a document in which
    [choices[0].message] is missing or falsy. *)
Definition upstream_failed (up : Upstream) : Prop :=
  match up with
  | Unreachable => True
  | Answer false _ => True
  | Answer true None => True
  | Answer true (Some text) =>
      match parse text with
      | None => True
      | Some data =>
          match choice_message data with
          | Some message => truthy message = false
          | None => True
          end
      end
  end.

(** A well-formed completion choice: [choices] is an array, its first
    element an object, the [message] of that an object, and the
    [content] of that a string. *)
Definition well_formed_choice (data : value) : bool :=
  match data with
  | Obj _ =>
      match get data (js"choices") with
      | Some (Arr (Obj choice :: _)) =>
          match member (js"message") choice with
          | Obj message =>
              match member (js"content") message with
              | Str _ => true
              | _ => false
              end
          | _ => false
          end
      | _ => false
      end
  | _ => false
  end.

Definition error_of (r : Response) : option value := get (body r) (js"error").

Definition content_of (r : Response) : option value :=
  get (body r) (js"content").

Module Scenario.

Definition configured : Env :=
  {| API_KEY := Some (js"sk-or-v1-0123456789");
     Number_toString := fun n => JS.decimal (mantissa n) |}.

Definition unconfigured : Env :=
  {| API_KEY := None; Number_toString := fun n => JS.decimal (mantissa n) |}.

Definition good_request : JS.string :=
  JS.quoted "{'messages':[{'role':'user','content':'Hi'}],'model':'mistral'}".

Definition no_messages : JS.string := JS.quoted "{'model':'mistral'}".

Definition unknown_model : JS.string :=
  JS.quoted "{'messages':[],'model':'gpt-4'}".

Definition unconvertible_model : JS.string :=
  JS.quoted "{'messages':[],'model':{'toString':1}}".

Definition inherited_model : JS.string :=
  JS.quoted "{'messages':[],'model':'constructor'}".

Definition overloaded : Upstream :=
  Answer false (Some (JS.quoted "{'error':{'code':429}}")).

Definition message_seven : Upstream :=
  Answer true (Some (JS.quoted "{'choices':[{'message':7}]}")).

Definition no_content : Upstream :=
  Answer true (Some (JS.quoted "{'choices':[{'message':{'role':'assistant'}}]}")).

Definition answered : Upstream :=
  Answer true
    (Some (JS.quoted
       "{'choices':[{'message':{'role':'assistant','content':'Hello'}}]}")).

End Scenario.

End ProxySpec.


(* ================================================================== *)
(** * More terms for the controller *)

Module ControllerTerms.

Import JSON Controller ControllerSpec.
Local Open Scope async_scope.

(** The roles and ids of a conversation, in order. *)
Definition shape (ms : list Message) : list (Role * JS.string) :=
  map (fun m => (role m, id m)) ms.

(** From [w] to [w'] the messages keep their roles, ids and order, and
    [input], [isLoading] and [error] are as they were. *)
Definition kept (w w' : World) : Prop :=
  shape (messages (state w')) = shape (messages (state w))
  /\ input (state w') = input (state w)
  /\ isLoading (state w') = isLoading (state w)
  /\ error (state w') = error (state w).

(** Every run of [m] relates the world before to the world after. *)
Definition respects (R : World -> World -> Prop) {A} (m : M A) : Prop :=
  forall w, R w (snd (m w)).

(** From a world whose timer is disarmed, the timer stays disarmed and
    nothing aborts. *)
Definition disarmed (w w' : World) : Prop :=
  timer w = None -> timer w' = None /\ aborted w' = aborted w.


(** What an await gives once the timer is disarmed. *)
Definition settled {A} (c : completion A) : outcome A :=
  match c with
  | Resolves _ a => Return a
  | Rejects _ e => Throw e
  | Hangs => Pending
  end.

(** The text of a body that can be read to its end. *)
Definition readable (b : Body) : option JS.string :=
  match b with
  | NoBody => Some []
  | Stream reads (Resolves _ _) => Some (body_text reads)
  | Stream _ _ => None
  end.

(** What one frame adds to [accumulatedContent]: the value of a frame of
    type "text", as a string, and nothing for any other frame, nor for a
    value that has no string. *)
Definition frame_delta (env : Env) (line : JS.string) : JS.string :=
  match parse (JS.trim (JS.strip_data_marker line)) with
  | Some doc =>
      match get doc (js"type") with
      | Some (Str t) =>
          if JS.eqb t (js"text") then
            match get doc (js"value") with
            | Some v =>
                match ToString (Number_toString (platform env)) v with
                | Some text => text
                | None => []
                end
            | None => []
            end
          else []
      | _ => []
      end
  | None => []
  end.

(** The text that a stream leaves, read chunk by chunk. *)
Definition stream_text (env : Env) (chunks : list (list byte)) : JS.string :=
  concat (map (frame_delta env)
            (flat_map lines_of (decoded TextDecoder.new chunks))).

(** The placeholder once the failure path has run. *)
Definition fallback_message (env : Env) : Message :=
  {| role := assistant; content := getFallbackResponse env;
     id := snd (generated env) |}.

(** The state in which a send that failed on its response ends. *)
Definition failed_state (env : Env) (s : State) (text : JS.string) : State :=
  {| messages := messages s ++ [userMessage env s; fallback_message env];
     input := [];
     isLoading := false;
     error := Some text |}.

(** The send is reading the stream: the placeholder holds [acc], the
    timer is disarmed and nothing else has changed since the [fetch]. *)
Definition streaming (env : Env) (s : State) (acc : JS.string) (w : World)
  : Prop :=
  state w = {| messages := messages s
                           ++ [userMessage env s; with_content env (Str acc)];
               input := []; isLoading := true; error := None |}
  /\ timer w = None /\ aborted w = false.

(** The state after [handleClearChat]. *)
Definition cleared (s : State) : State :=
  state (snd (handleClearChat (start s))).

(** The response kinds whose body is read. *)
Definition body_is_read (r : Response) : Prop :=
  ok r = false \/ structured_document r \/ event_stream r.

Module Cases.

Import Scenario.

Definition a_response (is_ok : bool) (code : N) (kind : String.string)
    (b : Body) : completion Response :=
  Resolves 100 {| ok := is_ok; status := code;
                  content_type := Some (JS.lit kind); body := b |}.

Definition a_body (text : String.string) : Body :=
  Stream [(150%N, quoted_bytes text)] (Resolves 160 tt).

(** A 502 with a text body. *)
Definition bad_gateway : Env :=
  an_env (a_response false 502 "text/plain" (a_body "Bad Gateway")).

(** A page of HTML whose body never ends. *)
Definition a_page : Env :=
  an_env (a_response true 200 "text/html"
            (Stream [(150%N, quoted_bytes "<html>")] Hangs)).

Definition connection_lost : thrown :=
  ErrorObject (js"TypeError") (js"Failed to fetch").

Definition offline : Env := an_env (Rejects 30 connection_lost).

(** A stream that breaks after its first frame. *)
Definition broken_stream : Env :=
  an_env (a_response true 200 "text/event-stream"
            (Stream [(150%N, he ++ blank)] (Rejects 170 connection_lost))).

(** A stream that never ends. *)
Definition endless_stream : Env :=
  an_env (a_response true 200 "text/event-stream"
            (Stream [(150%N, he ++ blank)] Hangs)).

(** A text frame, a frame that does not parse, an error frame, a frame
    of another type, and a text frame, in two reads. *)
Definition mixed_stream : Env :=
  an_env (a_response true 200 "text/event-stream"
            (Stream [ (150%N, he ++ blank ++ garbage ++ blank ++ boom ++ blank);
                      (155%N, quoted_bytes "data: {'type':'ping'}" ++ blank
                              ++ llo ++ blank) ]
               (Resolves 160 tt))).

(** A text frame whose value has no string, before a text frame. *)
Definition unconvertible_frame : Env :=
  an_env (a_response true 200 "text/event-stream"
            (Stream [ (150%N,
                       quoted_bytes
                         "data: {'type':'text','value':{'toString':1}}"
                       ++ blank ++ llo ++ blank) ]
               (Resolves 160 tt))).

(** A structured response whose error has no string. *)
Definition unconvertible_error : Env :=
  an_env (structured "{'error':{'toString':1}}").

Definition blank_state : State :=
  {| messages := messages a_state; input := js"  "; isLoading := false;
     error := None |}.

End Cases.

End ControllerTerms.

(* ================================================================== *)
(** * More terms for the proxy *)

Module ProxyTerms.

Import JSON Proxy ProxySpec.

(** The pairs that [formattedMessages] holds for the elements. *)
Definition reduced (elements : list value) (pairs : list (value * value))
  : Prop :=
  Forall2 (fun msg rc => get msg (js"role") = Some (fst rc)
                         /\ get msg (js"content") = Some (snd rc))
    elements pairs.

(** The one call that [POST] makes. *)
Definition the_call (modelId : looked_up)
    (formattedMessages : list (value * value)) : Call :=
  {| call_model := modelId;
     call_messages := formattedMessages;
     call_temperature := {| negative := false; mantissa := 7;
                            exponent := -1 |};
     call_max_tokens := 1000;
     call_stream := false |}.

(** The ways through [POST]. *)
Inductive way (env : Env) (request : JS.string) (up : Upstream)
  : Response * list Call -> Prop :=
| NoKey :
    key_blank env = true ->
    way env request up
      (respond 500 [ (js"error", Str (js"API ключ OpenRouter не настроен")) ],
       [])
| Caught :
    key_blank env = false ->
    way env request up (internal_error, [])
| BadRequest :
    key_blank env = false ->
    way env request up
      (respond 400 [ (js"error", Str (js"Неверный формат запроса")) ], [])
| BadModel :
    key_blank env = false ->
    way env request up
      (respond 400 [ (js"error", Str (js"Указана неверная модель")) ], [])
| Called json elements model key pairs :
    passes env request ->
    parse request = Some json ->
    get json (js"messages") = Some (Arr elements) ->
    get json (js"model") = Some model ->
    ToString (Number_toString env) model = Some key ->
    formatted elements = Some pairs ->
    way env request up
      (complete_upstream up, [the_call (MODEL_MAP_get key) pairs]).

(** An answer of the proxy as [fetch] hands it to the page: [ok] is the
    status being in the range 200-299. *)
Definition delivered (answer : Proxy.Response) (b : Controller.Body)
  : Controller.Response :=
  {| Controller.ok := (200 <=? Proxy.status answer)%N
                      && (Proxy.status answer <=? 299)%N;
     Controller.status := Proxy.status answer;
     Controller.content_type := Some (Proxy.content_type answer);
     Controller.body := b |}.

Module Cases.

Import Scenario.

Definition null_element : JS.string :=
  JS.quoted "{'messages':[{'role':'user','content':'Hi'},null],'model':'mistral'}".

(** A completion whose content is a number too large for a binary64. *)
Definition huge_content : Upstream :=
  Answer true (Some (JS.quoted "{'choices':[{'message':{'content':1e400}}]}")).

Definition two_messages : JS.string :=
  JS.quoted "{'messages':[{'role':'user','content':'Hi','id':'k1'},{'role':'assistant','content':'Hello!'}],'model':'base-free'}".

End Cases.

End ProxyTerms.


(* ================================================================== *)
(** * The platform functions on small inputs *)

Example lit_ascii : js"data: " = JS.data_marker.
Proof. reflexivity. Qed.

Example lit_cyrillic : js"Из" = [0x418; 0x437]%N.
Proof. reflexivity. Qed.

Example split_blank_line :
  JS.split JS.blank_line
    (js"ab" ++ JS.blank_line ++ js"cd" ++ JS.blank_line)
  = [js"ab"; js"cd"; []].
Proof. reflexivity. Qed.

Example decimal_status : JS.decimal 500 = js"500".
Proof. reflexivity. Qed.

Example trim_spaces : JS.trim (js"  a b ") = js"a b".
Proof. reflexivity. Qed.

Example parse_text_frame :
  JSON.parse (JS.quoted "{'type':'text','value':'He'}")
  = Some (JSON.Obj [(js"type", JSON.Str (js"text"));
                    (js"value", JSON.Str (js"He"))]).
Proof. reflexivity. Qed.

Example parse_nested :
  JSON.parse (JS.quoted " {'a':[1,true,null,{'b':'x\u0041'}],'a':-2.50e1} ")
  = Some (JSON.Obj
      [(js"a", JSON.Arr [JSON.Num {| JSON.negative := false;
                                     JSON.mantissa := 1;
                                     JSON.exponent := 0 |};
                         JSON.Bool true; JSON.Null;
                         JSON.Obj [(js"b", JSON.Str (js"xA"))]]);
       (js"a", JSON.Num {| JSON.negative := true;
                           JSON.mantissa := 250;
                           JSON.exponent := -1 |})]).
Proof. reflexivity. Qed.

Example parse_rejects :
  map JSON.parse
    [js"{"; js"[1,]"; js"01"; js"1."; js"tru"; js""; js"1 2";
     JS.quoted "{'a'}"; JS.quoted "'ab"; js"data: {}"]
  = repeat None 10.
Proof. reflexivity. Qed.

Example parse_numbers :
  map JSON.parse [js"-0"; js"10"; js"1e-400"; js"0.0e7"]
  = map (fun n => Some (JSON.Num n))
      [ {| JSON.negative := true; JSON.mantissa := 0; JSON.exponent := 0 |};
        {| JSON.negative := false; JSON.mantissa := 10; JSON.exponent := 0 |};
        {| JSON.negative := false; JSON.mantissa := 1;
           JSON.exponent := -400 |};
        {| JSON.negative := false; JSON.mantissa := 0; JSON.exponent := 6 |} ].
Proof. reflexivity. Qed.

Example truthy_values :
  map (fun t => option_map JSON.truthy (JSON.parse t))
    [js"-0"; js"10"; js"1e-400"; js"5e-324"; js"[]"; js"{}"; js"null";
     JS.quoted "''"; JS.quoted "'0'"; js"false"]
  = map Some [false; true; false; true; true; true; false;
              false; true; false].
Proof. vm_compute. reflexivity. Qed.

Example get_examples :
  option_map (fun v => (JSON.get v (js"a"), JSON.get v (js"b")))
    (JSON.parse (JS.quoted "{'a':1,'a':'x'}"))
  = Some (Some (JSON.Str (js"x")), Some JSON.Undefined)
  /\ JSON.get (JSON.Arr [JSON.Null; JSON.Bool true]) (js"1")
     = Some (JSON.Bool true)
  /\ JSON.get (JSON.Str (js"abc")) (js"0") = Some (JSON.Str (js"a"))
  /\ JSON.get JSON.Null (js"a") = None.
Proof. repeat split. Qed.

Example to_string_values :
  map (fun t => match JSON.parse t with
                | Some v => JSON.ToString (fun n => JS.decimal (JSON.mantissa n)) v
                | None => None
                end)
    [JS.quoted "'ab'"; js"7"; js"null"; js"[1,null,[2,3]]"; js"{}";
     JS.quoted "{'valueOf':1}"; JS.quoted "{'toString':1}";
     JS.quoted "[1,{'toString':null}]"]
  = [Some (js"ab"); Some (js"7"); Some (js"null"); Some (js"1,,2,3");
     Some (js"[object Object]"); Some (js"[object Object]"); None; None].
Proof. vm_compute. reflexivity. Qed.

Example stringified_numbers :
  map (fun t => option_map JSON.stringified (JSON.parse t))
    [js"1e400"; js"-1e309"; js"[1e400,2]"; JS.quoted "{'a':1e999}"]
  = [Some JSON.Null; Some JSON.Null;
     Some (JSON.Arr [JSON.Null;
                     JSON.Num {| JSON.negative := false; JSON.mantissa := 2;
                                 JSON.exponent := 0 |}]);
     Some (JSON.Obj [(js"a", JSON.Null)])]
  /\ option_map JSON.stringified (JSON.parse (js"1e308"))
     = JSON.parse (js"1e308")
  /\ map (fun t => option_map JSON.stringified (JSON.parse t))
       [js"-0"; js"-1e-400"; js"0.0e7"]
     = repeat (JSON.parse (js"0")) 3.
Proof. vm_compute. repeat split. Qed.

(* ================================================================== *)
(** * The controller: lemmas *)

Module ControllerFacts.

Import JSON Controller ControllerSpec ControllerTerms.
Local Open Scope async_scope.

Ltac differ := let H := fresh in intros H; vm_compute in H; discriminate H.

(** ** Strings *)

Lemma eqb_false_iff a b : JS.eqb a b = false <-> a <> b.
Proof. unfold JS.eqb. destruct (list_eq_dec N.eq_dec a b); split; congruence. Qed.

Lemma eqb_true_iff a b : JS.eqb a b = true <-> a = b.
Proof. unfold JS.eqb. destruct (list_eq_dec N.eq_dec a b); split; congruence. Qed.

Lemma is_prefix_blank_line_cons c f rest :
  JS.is_prefix JS.blank_line (c :: f ++ JS.LF :: rest)
  = JS.is_prefix JS.blank_line (c :: f ++ [JS.LF]).
Proof. destruct f; reflexivity. Qed.

(** The first delimiter after a delimited frame is the one that ends it. *)
Lemma split_go_frame rest :
  forall line cur,
  delimited line = true ->
  JS.split_go JS.blank_line 0 cur (line ++ JS.blank_line ++ rest)
  = (rev cur ++ line) :: JS.split_go JS.blank_line 0 [] rest.
Proof.
  change (JS.blank_line ++ rest) with (JS.LF :: JS.LF :: rest).
  induction line as [|c f IH]; intros cur H.
  - cbn. now rewrite app_nil_r.
  - unfold delimited in H. apply negb_true_iff in H.
    cbn [app JS.includes] in H. apply orb_false_iff in H as [Hp Hi].
    cbn [app JS.split_go]. rewrite is_prefix_blank_line_cons, Hp.
    rewrite (IH (c :: cur)) by (unfold delimited; now rewrite Hi).
    cbn [rev]. now rewrite <- app_assoc.
Qed.

Lemma split_frames_text frames :
  Forall (fun f => delimited f = true) frames ->
  JS.split JS.blank_line (frames_text frames) = frames ++ [[]].
Proof.
  unfold JS.split, frames_text.
  induction 1 as [|f fs Hf _ IH]; [reflexivity|].
  cbn [map concat]. rewrite <- app_assoc, split_go_frame by assumption.
  now rewrite IH.
Qed.

Lemma dropWhile_nil p s : JS.dropWhile p s = [] -> forallb p s = true.
Proof.
  induction s as [|c s IH]; [reflexivity|]. cbn.
  destruct (p c); [auto | discriminate].
Qed.

Lemma dropWhile_head p s c r : JS.dropWhile p s = c :: r -> p c = false.
Proof.
  induction s as [|x s IH]; [discriminate|]. cbn.
  destruct (p x) eqn:Ex; [auto | congruence].
Qed.

Lemma trim_nil_spaces s : JS.trim s = [] -> forallb JS.is_space s = true.
Proof.
  unfold JS.trim, JS.trimEnd, JS.trimStart. intros H.
  assert (H1 : JS.dropWhile JS.is_space (rev (JS.dropWhile JS.is_space s)) = []).
  { apply (f_equal (@rev N)) in H. now rewrite rev_involutive in H. }
  apply dropWhile_nil in H1.
  destruct (JS.dropWhile JS.is_space s) as [|c r] eqn:E.
  - now apply dropWhile_nil.
  - exfalso. apply dropWhile_head in E.
    rewrite forallb_forall in H1. specialize (H1 c).
    rewrite H1 in E; [discriminate|].
    apply in_rev. rewrite rev_involutive. now left.
Qed.

(** A blank line carries no marker. *)
Lemma trim_nil_no_marker s : JS.trim s = [] -> JS.strip_data_marker s = s.
Proof.
  intros H. apply trim_nil_spaces in H. unfold JS.strip_data_marker.
  destruct s as [|c s]; [reflexivity|]. cbn in H.
  apply andb_true_iff in H as [Hc _].
  unfold JS.data_marker. cbn [JS.is_prefix].
  destruct (N.eqb_spec 100 c) as [<-|_]; [discriminate | reflexivity].
Qed.

(** ** The decoder *)

Lemma run_app d a b :
  TextDecoder.run d (a ++ b)
  = let (d1, o1) := TextDecoder.run d a in
    let (d2, o2) := TextDecoder.run d1 b in
    (d2, o1 ++ o2).
Proof.
  revert d. induction a as [|x a IH]; intros d; cbn [app TextDecoder.run].
  - now destruct (TextDecoder.run d b).
  - destruct (TextDecoder.handler d (to_N x)) as [d1 o1]. rewrite IH.
    destruct (TextDecoder.run d1 a) as [d2 o2].
    destruct (TextDecoder.run d2 b) as [d3 o3]. now rewrite app_assoc.
Qed.

Lemma serialize_app seen x y :
  TextDecoder.serialize seen (x ++ y)
  = let (s1, x') := TextDecoder.serialize seen x in
    let (s2, y') := TextDecoder.serialize s1 y in
    (s2, x' ++ y').
Proof.
  destruct x as [|c x]; cbn [app TextDecoder.serialize].
  - now destruct (TextDecoder.serialize seen y).
  - destruct seen; [|destruct (c =? 65279)%N]; destruct y; reflexivity.
Qed.

(** A sequence cut by the end of a chunk is carried to the next call:
    two chunks decode to the text of their concatenation. *)
Lemma decode_stream_app d a b :
  TextDecoder.decode_stream d (a ++ b)
  = let (d1, t1) := TextDecoder.decode_stream d a in
    let (d2, t2) := TextDecoder.decode_stream d1 b in
    (d2, t1 ++ t2).
Proof.
  unfold TextDecoder.decode_stream. rewrite run_app.
  destruct (TextDecoder.run (TextDecoder.dec d) a) as [u1 c1].
  destruct (TextDecoder.serialize (TextDecoder.bom_seen d) c1)
    as [s1 c1'] eqn:E1.
  cbn [TextDecoder.dec TextDecoder.bom_seen].
  destruct (TextDecoder.run u1 b) as [u2 c2].
  rewrite serialize_app, E1.
  destruct (TextDecoder.serialize s1 c2) as [s2 c2'].
  now rewrite flat_map_app.
Qed.

(** However the bytes of a body are cut into reads, the decoded chunks
    make up the same text. *)
Lemma decoded_concat chunks :
  forall d, concat (decoded d chunks)
            = snd (TextDecoder.decode_stream d (concat chunks)).
Proof.
  induction chunks as [|c chunks IH]; intros d; cbn [decoded concat].
  - reflexivity.
  - rewrite decode_stream_app.
    destruct (TextDecoder.decode_stream d c) as [d1 t1]. cbn [concat].
    rewrite IH. now destruct (TextDecoder.decode_stream d1 (concat chunks)).
Qed.

(** ** The two ways to locate a message *)

Lemma find_and_assign_fresh aid c pre m post :
  Forall (fun x => id x <> aid) pre -> id m = aid ->
  find_and_assign (is_placeholder aid) c (pre ++ m :: post)
  = pre ++ set_content m c :: post.
Proof.
  intros Hpre Hm. induction Hpre as [|x pre Hx _ IH]; cbn.
  - unfold is_placeholder. apply eqb_true_iff in Hm. now rewrite Hm.
  - unfold is_placeholder at 1. apply eqb_false_iff in Hx. rewrite Hx.
    now rewrite IH.
Qed.

Lemma find_and_assign_none aid c prev :
  Forall (fun x => id x <> aid) prev ->
  find_and_assign (is_placeholder aid) c prev = prev.
Proof.
  induction 1 as [|x prev Hx _ IH]; [reflexivity|].
  cbn. unfold is_placeholder at 1. apply eqb_false_iff in Hx.
  now rewrite Hx, IH.
Qed.

Lemma assign_last_assistant_last c pre m :
  assign_last_assistant c (pre ++ [m])
  = pre ++ [match role m with
            | assistant => set_content m c
            | user => m
            end].
Proof.
  induction pre as [|x pre IH].
  - cbn. destruct (role m); reflexivity.
  - cbn [app assign_last_assistant]. rewrite IH.
    destruct (pre ++ [m]) eqn:E; [|reflexivity].
    now destruct pre.
Qed.

(** ** Equations of the asynchronous code *)

Lemma bind_ret A B (a : A) (k : A -> M B) : bind (ret a) k = k a.
Proof. reflexivity. Qed.

Lemma bind_returns A B (m : M A) (k : A -> M B) w a w' :
  m w = (Return a, w') -> bind m k w = k a w'.
Proof. intros E. unfold bind. now rewrite E. Qed.

Lemma await_disarmed A (c : completion A) w :
  timer w = None ->
  await c w = match c with
              | Resolves _ a => (Return a, w)
              | Rejects _ e => (Throw e, w)
              | Hangs => (Pending, w)
              end.
Proof. intros E. unfold await. now rewrite E. Qed.

Lemma JSON_parse_some env text v :
  parse text = Some v -> JSON_parse env text = ret v.
Proof. intros E. unfold JSON_parse. now rewrite E. Qed.

Lemma property_some env v key x :
  get v key = Some x -> property env v key = ret x.
Proof. intros E. unfold property. now rewrite E. Qed.

Lemma response_text_read r reads t w :
  body r = Stream reads (Resolves t tt) -> timer w = None ->
  response_text r w = (Return (body_text reads), w).
Proof.
  intros Hb Ht. unfold response_text. rewrite Hb.
  erewrite bind_returns by (rewrite await_disarmed by assumption; reflexivity).
  reflexivity.
Qed.

Lemma response_json_read env r reads t w data :
  body r = Stream reads (Resolves t tt) -> timer w = None ->
  parse (body_text reads) = Some data ->
  response_json env r w = (Return data, w).
Proof.
  intros Hb Ht Hp. unfold response_json.
  erewrite bind_returns by (eapply response_text_read; eassumption).
  now rewrite (JSON_parse_some _ _ Hp).
Qed.

(** ** One send, in pieces *)

Lemma send_rejected env s :
  ~ accepted s -> send env s = (Return tt, start s).
Proof.
  intros H. unfold send, handleSendMessage, start, bind, get_state. cbn [state].
  destruct (JS.eqb (JS.trim (input s)) []) eqn:Et; [reflexivity|].
  destruct (isLoading s) eqn:El; [reflexivity|].
  exfalso. apply H. split; [now apply eqb_false_iff | assumption].
Qed.

Lemma send_accepted env s :
  accepted s ->
  send env s =
  try_finally
    (try_catch (try_catch (exchange env) fetch_handler) (failure_handler env))
    finalizer (world_at_fetch env s).
Proof.
  intros [Ht Hl]. unfold send, handleSendMessage, start.
  unfold bind at 1. unfold get_state at 1. cbn [state].
  apply eqb_false_iff in Ht. rewrite Ht, Hl. cbn [orb].
  unfold world_at_fetch, prologue.
  change (messages s ++ [userMessage env s; placeholder env])
    with (messages s ++ [userMessage env s] ++ [placeholder env]).
  rewrite app_assoc. reflexivity.
Qed.

Lemma send_concludes env s :
  accepted s ->
  send env s = conclude env (exchange env (world_at_fetch env s)).
Proof.
  intros H. rewrite send_accepted by assumption.
  unfold try_finally, try_catch, conclude.
  destruct (exchange env (world_at_fetch env s)) as [[[]|e|] w]; cbn.
  - unfold finished. rewrite <- !app_assoc. reflexivity.
  - destruct e as [n m|]; cbn.
    + destruct (JS.eqb n _); cbn; unfold failed, finished; cbn;
        rewrite <- !app_assoc; reflexivity.
    + unfold failed, finished; cbn; rewrite <- !app_assoc; reflexivity.
  - reflexivity.
Qed.

Lemma exchange_in_time env s t r :
  network env = Resolves t r -> (t < DEADLINE)%N ->
  exchange env (world_at_fetch env s)
  = handle_response env (snd (generated env)) r (world_at_response env s).
Proof.
  intros Hnet Ht. apply N.ltb_lt in Ht.
  unfold exchange, bind, await. cbn [timer world_at_fetch].
  rewrite Hnet, Ht. reflexivity.
Qed.

Lemma exchange_late env s :
  late (network env) ->
  exchange env (world_at_fetch env s) = (Throw AbortError, world_at_abort env s).
Proof.
  intros H. unfold exchange, bind, await. cbn [timer world_at_fetch].
  destruct (network env) as [t r|t e|]; cbn in H;
    try (assert (E : (t <? DEADLINE)%N = false) by (apply N.ltb_ge; lia);
         rewrite E); reflexivity.
Qed.

(** ** What a computation adds to the events *)

Section Emits.

Variable P : Event -> Prop.

Lemma emits_ret A (a : A) : emits P (ret a).
Proof. intros w. exists []. cbn. now rewrite app_nil_r. Qed.

Lemma emits_throw A e : emits P (@throw A e).
Proof. intros w. exists []. cbn. now rewrite app_nil_r. Qed.

Lemma emits_emit e : P e -> emits P (emit e).
Proof. intros H w. exists [e]. cbn. auto. Qed.

Lemma emits_bind A B (m : M A) (k : A -> M B) :
  emits P m -> (forall a, emits P (k a)) -> emits P (bind m k).
Proof.
  intros Hm Hk w. unfold bind. destruct (Hm w) as (es & E & F).
  destruct (m w) as [[a|e|] w']; cbn in E.
  - destruct (Hk a w') as (es' & E' & F'). exists (es ++ es').
    rewrite E', E, app_assoc. split; [reflexivity | now apply Forall_app].
  - exists es. auto.
  - exists es. auto.
Qed.

Lemma emits_try_catch A (m : M A) h :
  emits P m -> (forall e, emits P (h e)) -> emits P (try_catch m h).
Proof.
  intros Hm Hh w. unfold try_catch. destruct (Hm w) as (es & E & F).
  destruct (m w) as [[a|e|] w']; cbn in E.
  - exists es. auto.
  - destruct (Hh e w') as (es' & E' & F'). exists (es ++ es').
    rewrite E', E, app_assoc. split; [reflexivity | now apply Forall_app].
  - exists es. auto.
Qed.

Lemma emits_await A (c : completion A) : P Abort -> emits P (await c).
Proof.
  intros H w. unfold await, fire.
  destruct (timer w), c; try destruct (_ <? _)%N; cbn;
    solve [ exists []; now rewrite app_nil_r | exists [Abort]; auto ].
Qed.

Lemma emits_clearTimeout : P ClearTimeout -> emits P clearTimeout.
Proof. intros H w. exists [ClearTimeout]. cbn. auto. Qed.

Lemma emits_setMessages f :
  (forall ms, P (SetMessages ms)) -> emits P (setMessages f).
Proof. intros H w. exists [SetMessages (f (messages (state w)))]. cbn. auto. Qed.

End Emits.

Create HintDb emits.
#[local] Hint Resolve emits_ret emits_throw emits_emit emits_bind
  emits_try_catch emits_await emits_clearTimeout emits_setMessages : emits.

Section Exchange.

Variable env : Env.
Variable P : Event -> Prop.
Hypothesis P_exchange : forall e, exchange_event e -> P e.

Lemma P_messages ms : P (SetMessages ms).
Proof. now apply P_exchange. Qed.

Lemma P_console : P ConsoleError.
Proof. now apply P_exchange. Qed.

Lemma P_abort : P Abort.
Proof. now apply P_exchange. Qed.

Lemma P_clear : P ClearTimeout.
Proof. now apply P_exchange. Qed.

Hint Resolve P_messages P_console P_abort P_clear : emits.

Lemma emits_JSON_parse text : emits P (JSON_parse env text).
Proof. unfold JSON_parse. destruct (parse text); auto with emits. Qed.

Lemma emits_property v key : emits P (property env v key).
Proof. unfold property. destruct (get v key); auto with emits. Qed.

Lemma emits_to_string v : emits P (to_string env v).
Proof. unfold to_string. destruct (ToString _ v); auto with emits. Qed.

Lemma emits_new_Error v : emits P (new_Error env v).
Proof.
  unfold new_Error.
  destruct v; auto with emits;
    (apply emits_bind; [apply emits_to_string | auto with emits]).
Qed.

Lemma emits_frame_body now line : emits P (frame_body env now line).
Proof.
  unfold frame_body.
  destruct (JS.eqb _ []); [auto with emits|].
  apply emits_bind; [apply emits_JSON_parse|]. intros doc.
  apply emits_bind; [apply emits_property|]. intros [| | | |t| |]; auto with emits.
  destruct (JS.eqb t _).
  - apply emits_bind; [apply emits_property|]. intros v.
    apply emits_bind; [apply emits_to_string | auto with emits].
  - destruct (JS.eqb t _); auto with emits.
    apply emits_bind; [apply emits_property|]. intros v.
    apply emits_bind; [apply emits_new_Error | auto with emits].
Qed.

Lemma emits_for_lines lines :
  forall now, emits P (for_lines env now lines).
Proof.
  induction lines as [|line rest IH]; intros now; cbn [for_lines].
  - auto with emits.
  - apply emits_bind; [|auto].
    apply emits_try_catch; [apply emits_frame_body | auto 6 with emits].
Qed.

Lemma emits_run_queued aid acc queued : emits P (run_queued aid acc queued).
Proof.
  induction queued as [|n IH]; cbn [run_queued]; auto with emits.
Qed.

Lemma emits_render aid now : emits P (render aid now).
Proof.
  unfold render. apply emits_bind; [apply emits_run_queued | auto with emits].
Qed.

Lemma emits_read_loop aid reads finish :
  forall decoder now turn,
  emits P (read_loop env aid decoder now turn reads finish).
Proof.
  induction reads as [|[t value] rest IH]; intros decoder now turn;
    cbn [read_loop].
  - apply emits_bind; [apply emits_render | auto with emits].
  - apply emits_bind.
    { destruct (rendering env turn); [apply emits_render | auto with emits]. }
    intros now1. apply emits_bind; [auto with emits|]. intros _.
    destruct (TextDecoder.decode_stream decoder value) as [d chunk].
    apply emits_bind; [apply emits_for_lines | auto].
Qed.

Lemma emits_response_text r : emits P (response_text r).
Proof. unfold response_text. destruct (body r); auto 6 with emits. Qed.

Lemma emits_handle_response aid r : emits P (handle_response env aid r).
Proof.
  unfold handle_response. destruct (negb (ok r)).
  - apply emits_bind; [apply emits_response_text | auto with emits].
  - destruct (JS.includes _ _).
    + apply emits_bind.
      { unfold response_json. apply emits_bind;
          [apply emits_response_text | intros; apply emits_JSON_parse]. }
      intros data. apply emits_bind; [apply emits_property|]. intros err.
      destruct (truthy err).
      { apply emits_bind; [apply emits_new_Error | auto with emits]. }
      apply emits_bind; [apply emits_property | auto with emits].
    + destruct (JS.includes _ _); [|auto with emits].
      destruct (body r); [auto with emits | apply emits_read_loop].
Qed.

Lemma emits_exchange : emits P (exchange env).
Proof.
  unfold exchange. apply emits_bind; [auto with emits|]. intros r.
  apply emits_bind; [auto with emits|]. intros _. apply emits_handle_response.
Qed.

End Exchange.

(** Every trace of an accepted send: the prologue, the exchange, and
    the events of the handlers. *)
Lemma send_trace env s :
  accepted s ->
  exists es tail,
    events (snd (send env s)) = prologue env s ++ es ++ tail
    /\ Forall exchange_event es
    /\ match fst (send env s) with
       | Pending => tail = []
       | _ => tail = [SetIsLoading false; Focus]
              \/ exists text now,
                   tail = [ConsoleError; ConsoleError; SetError (Some text);
                           SetMessages now; SetIsLoading false; Focus]
       end.
Proof.
  intros H. rewrite send_concludes by assumption.
  destruct (@emits_exchange env exchange_event (fun e H => H)
              (world_at_fetch env s)) as (es & E & F).
  destruct (exchange env (world_at_fetch env s)) as [[[]|e|] w];
    cbn [snd fst conclude] in *; cbn [events world_at_fetch] in E.
  - exists es, [SetIsLoading false; Focus]. cbn. rewrite E, <- app_assoc. auto.
  - eexists es, _. cbn. rewrite E, <- !app_assoc. cbn [app].
    split; [reflexivity|]. split; [assumption|]. right. eauto.
  - exists es, []. rewrite app_nil_r. auto.
Qed.

Lemma fetches_app a b : fetches (a ++ b) = fetches a ++ fetches b.
Proof. apply flat_map_app. Qed.

Lemma fetches_exchange es : Forall exchange_event es -> fetches es = [].
Proof.
  induction 1 as [|e es He _ IH]; [reflexivity|].
  destruct e; cbn in *; tauto.
Qed.

Lemma loading_cleared_app a b :
  loading_cleared (a ++ b) = (loading_cleared a + loading_cleared b)%nat.
Proof. unfold loading_cleared. now rewrite filter_app, length_app. Qed.

Lemma loading_cleared_exchange es :
  Forall exchange_event es -> loading_cleared es = 0%nat.
Proof.
  induction 1 as [|e es He _ IH]; [reflexivity|].
  destruct e; cbn in *; tauto.
Qed.

(** One request is made, after the prologue. *)
Lemma send_prologue env s :
  accepted s ->
  exists rest,
    events (snd (send env s)) = prologue env s ++ rest /\ fetches rest = [].
Proof.
  intros H. destruct (send_trace env H) as (es & tail & E & F & T).
  exists (es ++ tail). split; [assumption|].
  rewrite fetches_app, (fetches_exchange F).
  destruct (fst (send env s));
    [destruct T as [->|(? & ? & ->)] | destruct T as [->|(? & ? & ->)]
    | rewrite T]; reflexivity.
Qed.

(** The [finally] block runs once when the send settles, and not while
    it is suspended. *)
Lemma loading_cleared_once env s :
  accepted s ->
  loading_cleared (events (snd (send env s)))
  = match fst (send env s) with
    | Pending => 0%nat
    | _ => 1%nat
    end.
Proof.
  intros H. destruct (send_trace env H) as (es & tail & E & F & T).
  rewrite E, !loading_cleared_app, (loading_cleared_exchange F).
  destruct (fst (send env s));
    [destruct T as [->|(? & ? & ->)] | destruct T as [->|(? & ? & ->)]
    | rewrite T]; reflexivity.
Qed.

(** ** Streams *)

Lemma text_frame_delimited line v :
  text_frame line = Some v -> delimited line = true.
Proof. unfold text_frame. destruct (delimited line); [reflexivity | discriminate]. Qed.

(** The filter keeps a text frame. *)
Lemma text_frame_not_blank line v :
  text_frame line = Some v -> JS.eqb (JS.trim line) [] = false.
Proof.
  intros H. apply eqb_false_iff. intros E.
  unfold text_frame in H. rewrite (trim_nil_no_marker _ E), E in H.
  destruct (delimited line); discriminate.
Qed.

(** A chunk of whole text frames splits into these frames; the empty
    piece after the last delimiter is discarded. *)
Lemma lines_of_frames_text frames values :
  text_frames frames values -> lines_of (frames_text frames) = frames.
Proof.
  intros H. unfold lines_of. rewrite split_frames_text.
  - rewrite filter_app. cbn [filter]. change (JS.trim []) with (@nil N).
    cbn. rewrite app_nil_r.
    induction H as [|f v fs vs Hf _ IH]; [reflexivity|].
    cbn [filter]. rewrite (text_frame_not_blank _ Hf). cbn. now rewrite IH.
  - induction H; constructor; eauto using text_frame_delimited.
Qed.

Lemma split_go_delimiter rest :
  JS.split_go JS.blank_line 0 [] (JS.blank_line ++ rest)
  = [] :: JS.split_go JS.blank_line 0 [] rest.
Proof. reflexivity. Qed.

Lemma is_prefix_blank_line_end c f :
  JS.is_prefix JS.blank_line (c :: f ++ [JS.LF]) = false ->
  JS.is_prefix JS.blank_line (c :: f) = false.
Proof.
  destruct f as [|d f]; cbn.
  - intros _. apply andb_false_r.
  - auto.
Qed.

(** A delimited frame at the end of a chunk is a piece of its own. *)
Lemma split_go_last line :
  forall cur,
  delimited line = true ->
  JS.split_go JS.blank_line 0 cur line = [rev cur ++ line].
Proof.
  induction line as [|c f IH]; intros cur H.
  - cbn. now rewrite app_nil_r.
  - unfold delimited in H. apply negb_true_iff in H.
    cbn [app JS.includes] in H. apply orb_false_iff in H as [Hp Hi].
    cbn [JS.split_go]. rewrite (is_prefix_blank_line_end _ _ Hp).
    rewrite (IH (c :: cur)) by (unfold delimited; now rewrite Hi).
    cbn [rev]. now rewrite <- app_assoc.
Qed.

Lemma apart_app a :
  forall b, apart (a ++ b) = true -> apart a = true /\ apart b = true.
Proof.
  induction a as [|p a IH]; intros b H; [auto|].
  destruct p as [line|].
  - cbn [app apart] in H.
    destruct a as [|[line'|] a'].
    + cbn [app] in *. destruct b as [|[|] b']; try discriminate; auto.
    + discriminate H.
    + cbn [apart]. apply (IH b H).
  - cbn [app apart] in *. auto.
Qed.

Lemma apart_concat pss :
  apart (concat pss) = true -> Forall (fun ps => apart ps = true) pss.
Proof.
  induction pss as [|ps pss IH]; intros H; [constructor|].
  cbn [concat] in H. apply apart_app in H as [Ha Hs]. auto.
Qed.

(** A chunk of frames and delimiters, no two frames together, splits
    into its frames. *)
Lemma lines_of_pieces ps :
  forall values,
  apart ps = true -> text_frames (frames_of ps) values ->
  lines_of (pieces_text ps) = frames_of ps.
Proof.
  unfold lines_of, JS.split.
  induction ps as [|p ps IH]; intros values Ha Hf; [reflexivity|].
  destruct p as [line|].
  - cbn [frames_of flat_map app] in Hf |- *.
    inversion Hf as [|? v ? vs Hline Hrest]; subst.
    destruct ps as [|[line'|] ps'].
    + cbn [pieces_text map concat piece_text]. rewrite app_nil_r.
      rewrite split_go_last by (eapply text_frame_delimited; eassumption).
      cbn [rev app filter]. now rewrite (text_frame_not_blank _ Hline).
    + discriminate Ha.
    + change (pieces_text (Frame line :: Delimiter :: ps'))
        with (line ++ JS.blank_line ++ pieces_text ps').
      rewrite split_go_frame by (eapply text_frame_delimited; eassumption).
      cbn [rev app filter]. rewrite (text_frame_not_blank _ Hline).
      cbn [negb]. f_equal.
      specialize (IH vs Ha Hrest).
      change (pieces_text (Delimiter :: ps'))
        with (JS.blank_line ++ pieces_text ps') in IH.
      rewrite split_go_delimiter in IH. exact IH.
  - change (pieces_text (Delimiter :: ps))
      with (JS.blank_line ++ pieces_text ps).
    rewrite split_go_delimiter. exact (IH values Ha Hf).
Qed.

Lemma to_string_Str env x : to_string env (Str x) = ret x.
Proof. reflexivity. Qed.

Lemma frame_body_text env now line v w :
  text_frame line = Some v ->
  frame_body env now line w
  = (Return {| accumulatedContent := accumulatedContent now ++ v;
               queued := S (queued now) |}, w).
Proof.
  intros H. unfold text_frame in H. unfold frame_body.
  destruct (delimited line); [|discriminate].
  destruct (JS.eqb (JS.trim (JS.strip_data_marker line)) []) eqn:E.
  { apply eqb_true_iff in E. rewrite E in H. discriminate. }
  destruct (parse _) as [doc|] eqn:Ep; [|discriminate].
  rewrite (JSON_parse_some _ _ Ep), bind_ret.
  destruct (get doc (js"type")) as [[| | | |t| |]|] eqn:Et; try discriminate.
  destruct (get doc (js"value")) as [[| | | |x| |]|] eqn:Ev; try discriminate.
  destruct (JS.eqb t (js"text")) eqn:Ett; [|discriminate].
  injection H as <-.
  rewrite (property_some _ _ _ Et), bind_ret, Ett.
  rewrite (property_some _ _ _ Ev), bind_ret.
  reflexivity.
Qed.

Lemma for_lines_text env :
  forall frames values, text_frames frames values ->
  forall now w,
  for_lines env now frames w
  = (Return {| accumulatedContent := accumulatedContent now ++ concat values;
               queued := queued now + length values |}, w).
Proof.
  induction 1 as [|f v fs vs Hf _ IH]; intros now w.
  - cbn. rewrite app_nil_r, Nat.add_0_r. now destruct now.
  - cbn [for_lines]. unfold bind at 1, try_catch.
    erewrite frame_body_text by eassumption. rewrite IH.
    cbn [concat length accumulatedContent queued].
    now rewrite app_assoc, Nat.add_succ_r.
Qed.

(** React runs an updater of the stream branch: with a fresh id it
    writes the placeholder. *)
Lemma setMessages_reading env s acc c es :
  fresh env s ->
  setMessages (find_and_assign (is_placeholder (snd (generated env)))
                 (Str acc)) (world_reading env s c es)
  = (Return tt,
     world_reading env s acc
       (es ++ [SetMessages (messages s ++ [userMessage env s;
                                           with_content env (Str acc)])])).
Proof.
  intros F. unfold world_reading, setMessages, bind, get_state, put, emit.
  cbn [state messages input isLoading error timer aborted events].
  change (messages s ++ [userMessage env s; with_content env (Str c)])
    with (messages s ++ [userMessage env s] ++ [with_content env (Str c)]).
  rewrite app_assoc.
  rewrite (@find_and_assign_fresh _ _ _ _ []) by (exact F || reflexivity).
  rewrite <- app_assoc. reflexivity.
Qed.

Lemma run_queued_fresh env s acc :
  fresh env s ->
  forall q c es,
  run_queued (snd (generated env)) acc q (world_reading env s c es)
  = (Return tt,
     world_reading env s
       match q with
       | O => c
       | S _ => acc
       end
       (es ++ repeat (SetMessages (messages s ++ [userMessage env s;
                                                  with_content env (Str acc)]))
                q)).
Proof.
  intros F. induction q as [|q IH]; intros c es.
  - cbn. now rewrite app_nil_r.
  - cbn [run_queued]. unfold bind at 1.
    rewrite setMessages_reading by assumption. rewrite IH.
    cbn [repeat]. rewrite <- app_assoc. cbn [app]. now destruct q.
Qed.

Lemma render_fresh env s now c es :
  fresh env s ->
  (queued now = 0 -> c = accumulatedContent now) ->
  render (snd (generated env)) now (world_reading env s c es)
  = (Return {| accumulatedContent := accumulatedContent now; queued := 0 |},
     world_reading env s (accumulatedContent now)
       (es ++ repeat (SetMessages
                        (messages s
                         ++ [userMessage env s;
                             with_content env (Str (accumulatedContent now))]))
               (queued now))).
Proof.
  intros F I. unfold render, bind. rewrite run_queued_fresh by assumption.
  cbn [ret]. destruct (queued now); [now rewrite I|reflexivity].
Qed.

(** ** The updates of a stream of text frames *)

Lemma nondecreasing_zeros q ks :
  nondecreasing ks -> nondecreasing (repeat 0 q ++ ks).
Proof.
  intros H. induction q as [|q IH]; [exact H|].
  cbn [repeat app nondecreasing].
  destruct (repeat 0 q ++ ks); [exact I | split; [lia | exact IH]].
Qed.

Lemma nondecreasing_shift m ks :
  nondecreasing ks -> nondecreasing (map (Nat.add m) ks).
Proof.
  induction ks as [|a ks IH]; intros H; [exact I|].
  cbn [map nondecreasing] in *. destruct ks as [|b ks]; [exact I|].
  cbn [map] in *. destruct H as [H1 H2]. split; [lia | auto].
Qed.

Lemma bounds_shift m n los ks :
  Forall2 (fun lo k => lo <= k <= n) los ks ->
  forall los',
  Forall2 (fun lo' lo => lo' <= m + lo) los' los ->
  Forall2 (fun lo' k => lo' <= k <= m + n) los' (map (Nat.add m) ks).
Proof.
  induction 1 as [|lo k los ks H _ IH]; intros los' H'; inversion H'; subst.
  - constructor.
  - cbn [map]. constructor; [lia | auto].
Qed.

Lemma below_zeros m a : forall n,
  a + n <= S m -> Forall2 (fun lo' lo => lo' <= m + lo) (seq a n) (repeat 0 n).
Proof.
  intros n. revert a. induction n as [|n IH]; intros a H; cbn; constructor.
  - lia.
  - apply IH. lia.
Qed.

Lemma below_shifted m n : forall a,
  Forall2 (fun lo' lo => lo' <= m + lo) (seq (m + a) n) (seq a n).
Proof.
  induction n as [|n IH]; intros a; cbn; constructor.
  - lia.
  - rewrite <- Nat.add_succ_r. apply IH.
Qed.

Lemma zeros_zeros m q :
  Forall2 (fun lo' lo => lo' <= m + lo) (repeat 0 q) (repeat 0 q).
Proof. induction q; cbn; constructor; [lia | assumption]. Qed.

(** The frames of one read are after those queued before ... *)
Lemma bounds_step m n q :
  Forall2 (fun lo' lo => lo' <= m + lo)
    (repeat 0 q ++ seq 1 (m + n)) (repeat 0 (q + m) ++ seq 1 n).
Proof.
  rewrite repeat_app, <- app_assoc, seq_app.
  apply Forall2_app; [apply zeros_zeros|].
  apply Forall2_app; [apply below_zeros; lia|].
  rewrite Nat.add_comm. apply below_shifted.
Qed.

(** Reading a body of text frames, from any point of the loop on: the
    updates still queued and those of the frames to come are run, each
    with the text of the frames up to some later frame. *)
Lemma read_loop_text env s tf :
  fresh env s ->
  forall reads d now turn c es piecess valuess,
  decoded d (map snd reads) = map pieces_text piecess ->
  Forall (fun ps => apart ps = true) piecess ->
  Forall2 (fun ps vs => text_frames (frames_of ps) vs) piecess valuess ->
  (queued now = 0 -> c = accumulatedContent now) ->
  exists ks,
    Forall2 (fun lo k => lo <= k <= length (concat valuess))
      (repeat 0 (queued now) ++ seq 1 (length (concat valuess))) ks
    /\ nondecreasing ks
    /\ read_loop env (snd (generated env)) d now turn reads (Resolves tf tt)
         (world_reading env s c es)
       = (Return tt,
          world_reading env s
            (accumulatedContent now ++ concat (concat valuess))
            (es ++ map (fun k =>
                          SetMessages
                            (messages s
                             ++ [userMessage env s;
                                 with_content env
                                   (Str (accumulatedContent now
                                         ++ concat (firstn k (concat valuess))))]))
                     ks)).
Proof.
  intros F. induction reads as [|[t value] reads IH];
    intros d now turn c es piecess valuess Hd Ha Hf I.
  - destruct piecess; [|discriminate]. inversion Hf; subst.
    exists (repeat 0 (queued now)). cbn [concat length seq].
    rewrite app_nil_r. split; [|split].
    + clear. induction (queued now); cbn; constructor; [lia | assumption].
    + clear. rewrite <- (app_nil_r (repeat _ _)).
      now apply nondecreasing_zeros.
    + cbn [read_loop]. unfold bind.
      rewrite render_fresh by assumption. cbn [await world_reading timer].
      rewrite map_repeat. cbn [firstn concat]. now rewrite !app_nil_r.
  - cbn [map snd decoded] in Hd.
    destruct (TextDecoder.decode_stream d value) as [d' text] eqn:Ed.
    destruct piecess as [|ps piecess]; [discriminate|].
    cbn [map] in Hd. injection Hd as -> Hd.
    inversion Hf as [|? vs ? valuess' Hvs Hrest]; subst.
    inversion Ha as [|? ? Hps Ha']; subst.
    cbn [read_loop]. rewrite Ed.
    erewrite (lines_of_pieces _ Hps) by eassumption.
    cbn [concat]. rewrite length_app.
    destruct (rendering env turn).
    + erewrite bind_returns by (apply render_fresh; assumption).
      erewrite bind_returns by reflexivity.
      erewrite bind_returns by (eapply for_lines_text; eassumption).
      cbn [accumulatedContent queued Nat.add].
      edestruct (IH d' {| accumulatedContent := accumulatedContent now ++ concat vs;
                          queued := length vs |} (S turn)
                   (accumulatedContent now)
                   (es ++ repeat (SetMessages
                                    (messages s
                                     ++ [userMessage env s;
                                         with_content env
                                           (Str (accumulatedContent now))]))
                           (queued now))
                   piecess valuess' Hd Ha' Hrest) as (ks & B & N & E).
      { cbn [queued accumulatedContent]. intros Z.
        apply length_zero_iff_nil in Z. subst vs. cbn. now rewrite app_nil_r. }
      cbn [queued accumulatedContent] in B, E.
      exists (repeat 0 (queued now) ++ map (Nat.add (length vs)) ks).
      split; [|split].
      * apply Forall2_app.
        { clear. induction (queued now); cbn; constructor; [lia | assumption]. }
        apply (bounds_shift (length vs) B).
        apply (@bounds_step (length vs) (length (concat valuess')) 0).
      * apply nondecreasing_zeros. now apply nondecreasing_shift.
      * rewrite E. f_equal. f_equal; [now rewrite concat_app, app_assoc|].
        rewrite map_app, map_repeat, map_map. cbn [firstn concat].
        rewrite app_nil_r, <- app_assoc. do 2 f_equal. apply map_ext. intros k.
        rewrite firstn_app_2, concat_app, app_assoc. reflexivity.
    + erewrite bind_returns by reflexivity.
      erewrite bind_returns by reflexivity.
      erewrite bind_returns by (eapply for_lines_text; eassumption).
      edestruct (IH d' {| accumulatedContent := accumulatedContent now ++ concat vs;
                          queued := queued now + length vs |} (S turn)
                   c es piecess valuess' Hd Ha' Hrest) as (ks & B & N & E).
      { cbn [queued accumulatedContent]. intros Z.
        assert (Q : queued now = 0) by lia.
        assert (L : length vs = 0) by lia.
        apply length_zero_iff_nil in L. subst vs. cbn.
        rewrite app_nil_r. auto. }
      cbn [queued accumulatedContent] in B, E.
      exists (map (Nat.add (length vs)) ks).
      split; [|split].
      * apply (bounds_shift (length vs) B). apply bounds_step.
      * now apply nondecreasing_shift.
      * rewrite E. f_equal. f_equal; [now rewrite concat_app, app_assoc|].
        rewrite map_map. f_equal. apply map_ext. intros k.
        rewrite firstn_app_2, concat_app, app_assoc. reflexivity.
Qed.

(** ** What no frame can do *)

(** Whatever a frame holds, its [try] block returns or throws, and
    leaves the world as it is. *)
Lemma to_string_settles env v w :
  exists o, to_string env v w = (o, w) /\ o <> Pending.
Proof.
  unfold to_string. destruct (ToString _ v); eexists; split;
    try reflexivity; discriminate.
Qed.

Lemma frame_body_settles env now line w :
  exists o, frame_body env now line w = (o, w) /\ o <> Pending.
Proof.
  unfold frame_body.
  destruct (JS.eqb _ []); [eexists; split; [reflexivity | discriminate]|].
  unfold JSON_parse, property, new_Error, to_string, bind, ret, throw.
  destruct (parse _) as [doc|];
    [|eexists; split; [reflexivity | discriminate]].
  destruct (get doc (js"type")) as [[| | | |t| |]|];
    try (eexists; split; [reflexivity | discriminate]).
  destruct (JS.eqb t (js"text")).
  - destruct (get doc (js"value")) as [v|];
      [destruct (ToString _ v)|];
      eexists; split; try reflexivity; discriminate.
  - destruct (JS.eqb t (js"error"));
      [|eexists; split; [reflexivity | discriminate]].
    destruct (get doc (js"value")) as [v|];
      [|eexists; split; [reflexivity | discriminate]].
    destruct v; try destruct (ToString _ _);
      eexists; split; try reflexivity; discriminate.
Qed.

Lemma for_lines_returns env lines :
  forall now w,
  exists now' w', for_lines env now lines w = (Return now', w')
    /\ state w' = state w
    /\ timer w' = timer w /\ aborted w' = aborted w.
Proof.
  induction lines as [|line rest IH]; intros now w; cbn [for_lines].
  - eexists _, _. repeat split.
  - destruct (frame_body_settles env now line w) as (o & E & Ho).
    unfold bind at 1, try_catch. rewrite E.
    destruct o as [now1|e|]; [| |congruence].
    + destruct (IH now1 w) as (now' & w' & E' & Hs & Ht & Ha).
      exists now', w'. rewrite E'. repeat split; congruence.
    + cbn. match goal with |- context [for_lines _ _ _ ?w2] =>
        destruct (IH now w2) as (now' & w' & E' & Hs & Ht & Ha) end.
      exists now', w'. rewrite E'. repeat split; cbn in *; congruence.
Qed.

Lemma run_queued_returns aid acc queued :
  forall w,
  exists w', run_queued aid acc queued w = (Return tt, w')
    /\ error (state w') = error (state w)
    /\ timer w' = timer w /\ aborted w' = aborted w.
Proof.
  induction queued as [|n IH]; intros w; cbn [run_queued].
  - eexists. repeat split.
  - unfold bind at 1.
    match goal with |- context [setMessages ?f w] =>
      destruct (IH (snd (setMessages f w))) as (w' & E & He & Ht & Ha) end.
    exists w'. cbn in *. rewrite E. repeat split; assumption.
Qed.

Lemma render_returns aid now w :
  exists now' w', render aid now w = (Return now', w')
    /\ error (state w') = error (state w)
    /\ timer w' = timer w /\ aborted w' = aborted w.
Proof.
  destruct (run_queued_returns aid (accumulatedContent now) (queued now) w)
    as (w' & E & H).
  unfold render, bind. rewrite E. eexists _, _. split; [reflexivity | exact H].
Qed.

Lemma read_loop_returns env aid tf reads :
  forall d now turn w, timer w = None ->
  exists w',
    read_loop env aid d now turn reads (Resolves tf tt) w = (Return tt, w')
    /\ error (state w') = error (state w)
    /\ timer w' = None /\ aborted w' = aborted w.
Proof.
  induction reads as [|[t value] reads IH]; intros d now turn w Hw;
    cbn [read_loop].
  - destruct (render_returns aid now w) as (now' & w' & E & He & Ht & Ha).
    erewrite bind_returns by eassumption.
    exists w'. rewrite await_disarmed by congruence.
    repeat split; congruence.
  - assert (R : exists now1 w1,
               (if rendering env turn then render aid now else ret now) w
               = (Return now1, w1)
               /\ error (state w1) = error (state w)
               /\ timer w1 = timer w /\ aborted w1 = aborted w).
    { destruct (rendering env turn); [apply render_returns|].
      eexists _, _. repeat split. }
    destruct R as (now1 & w1 & E1 & He1 & Ht1 & Ha1).
    erewrite bind_returns by eassumption.
    destruct (TextDecoder.decode_stream d value) as [d' chunk].
    erewrite bind_returns by (rewrite await_disarmed by congruence; reflexivity).
    destruct (for_lines_returns env (lines_of chunk) now1 w1)
      as (now2 & w2 & E & Hs & Ht & Ha).
    erewrite bind_returns by eassumption.
    destruct (IH d' now2 (S turn) w2) as (w' & E' & He' & Ht' & Ha');
      [congruence|].
    exists w'. rewrite E'. repeat split; congruence.
Qed.

(** Whatever its frames are, error frames among them, a stream that is
    read to its end does not fail the send. *)
Lemma stream_never_fails env s t r reads tf :
  accepted s ->
  network env = Resolves t r -> (t < DEADLINE)%N ->
  event_stream r ->
  body r = Stream reads (Resolves tf tt) ->
  exists w, send env s = (Return tt, w)
    /\ error (state w) = None /\ aborted w = false.
Proof.
  intros Hacc Hnet Ht (Hok & Hjson & Hstream) Hbody.
  rewrite send_concludes by assumption.
  erewrite exchange_in_time by eassumption.
  unfold handle_response. fold (declared_kind r).
  rewrite Hok, Hjson, Hstream, Hbody. cbn [negb].
  destruct (read_loop_returns env (snd (generated env)) tf reads
              TextDecoder.new {| accumulatedContent := []; queued := 0 |} 0
              (world_at_response env s) eq_refl)
    as (w' & E & He & Htm & Ha).
  rewrite E. eexists. split; [reflexivity|]. cbn. split; assumption.
Qed.

(** ** What every step of the exchange respects *)

Section Respects.

Variable R : World -> World -> Prop.
Variable env : Env.
Variable aid : JS.string.
Hypothesis R_refl : forall w, R w w.
Hypothesis R_trans : forall a b c, R a b -> R b c -> R a c.
Hypothesis R_console : forall w, R w (snd (emit ConsoleError w)).
Hypothesis R_assign :
  forall c w,
  R w (snd (setMessages (find_and_assign (is_placeholder aid) c) w)).
Hypothesis R_fire :
  forall A w d, timer w = Some d -> R w (snd (@fire A w)).
Hypothesis R_clear : forall w, R w (snd (clearTimeout w)).

Lemma respects_ret A (a : A) : respects R (ret a).
Proof. intros w. apply R_refl. Qed.

Lemma respects_throw A e : respects R (@throw A e).
Proof. intros w. apply R_refl. Qed.

Lemma respects_bind A B (m : M A) (k : A -> M B) :
  respects R m -> (forall a, respects R (k a)) -> respects R (bind m k).
Proof.
  intros Hm Hk w. unfold bind. specialize (Hm w).
  destruct (m w) as [[a|e|] w']; cbn in *; auto.
  eapply R_trans; [eassumption | apply Hk].
Qed.

Lemma respects_try_catch A (m : M A) h :
  respects R m -> (forall e, respects R (h e)) -> respects R (try_catch m h).
Proof.
  intros Hm Hh w. unfold try_catch. specialize (Hm w).
  destruct (m w) as [[a|e|] w']; cbn in *; auto.
  eapply R_trans; [eassumption | apply Hh].
Qed.

Lemma respects_await A (c : completion A) : respects R (await c).
Proof.
  intros w. unfold await.
  destruct (timer w) as [d|] eqn:E; destruct c; try destruct (_ <? _)%N;
    solve [apply R_refl | eapply R_fire; eassumption].
Qed.

Lemma respects_JSON_parse text : respects R (JSON_parse env text).
Proof.
  unfold JSON_parse.
  destruct (parse text); [apply respects_ret | apply respects_throw].
Qed.

Lemma respects_property v key : respects R (property env v key).
Proof.
  unfold property.
  destruct (get v key); [apply respects_ret | apply respects_throw].
Qed.

Lemma respects_to_string v : respects R (to_string env v).
Proof.
  unfold to_string.
  destruct (ToString _ v); [apply respects_ret | apply respects_throw].
Qed.

Lemma respects_new_Error v : respects R (new_Error env v).
Proof.
  unfold new_Error. destruct v; try apply respects_ret;
    (apply respects_bind; [apply respects_to_string|]);
    intros; apply respects_ret.
Qed.

Lemma respects_frame_body now line : respects R (frame_body env now line).
Proof.
  unfold frame_body.
  destruct (JS.eqb _ []); [apply respects_ret|].
  apply respects_bind; [apply respects_JSON_parse|]. intros doc.
  apply respects_bind; [apply respects_property|].
  intros [| | | |t| |]; try apply respects_ret.
  destruct (JS.eqb t _).
  - apply respects_bind; [apply respects_property|]. intros v.
    apply respects_bind; [apply respects_to_string|].
    intros text. apply respects_ret.
  - destruct (JS.eqb t _); [|apply respects_ret].
    apply respects_bind; [apply respects_property|]. intros v.
    apply respects_bind; [apply respects_new_Error|]. intros e.
    apply respects_throw.
Qed.

Lemma respects_for_lines lines :
  forall now, respects R (for_lines env now lines).
Proof.
  induction lines as [|line rest IH]; intros now; cbn [for_lines].
  - apply respects_ret.
  - apply respects_bind; [|auto].
    apply respects_try_catch; [apply respects_frame_body|]. intros e.
    apply respects_bind; [intros w; apply R_console|].
    intros _. apply respects_ret.
Qed.

Lemma respects_run_queued acc queued : respects R (run_queued aid acc queued).
Proof.
  induction queued as [|n IH]; cbn [run_queued]; [apply respects_ret|].
  apply respects_bind; [intros w; apply R_assign | auto].
Qed.

Lemma respects_render now : respects R (render aid now).
Proof.
  unfold render. apply respects_bind; [apply respects_run_queued|].
  intros _. apply respects_ret.
Qed.

Lemma respects_read_loop reads finish :
  forall decoder now turn,
  respects R (read_loop env aid decoder now turn reads finish).
Proof.
  induction reads as [|[t value] rest IH]; intros decoder now turn;
    cbn [read_loop].
  - apply respects_bind; [apply respects_render|]. intros _.
    apply respects_await.
  - apply respects_bind.
    { destruct (rendering env turn);
        [apply respects_render | apply respects_ret]. }
    intros now1. apply respects_bind; [apply respects_await|]. intros _.
    destruct (TextDecoder.decode_stream decoder value) as [d chunk].
    apply respects_bind; [apply respects_for_lines | auto].
Qed.

Lemma respects_response_text r : respects R (response_text r).
Proof.
  unfold response_text. destruct (body r); [apply respects_ret|].
  apply respects_bind; [apply respects_await|]. intros _. apply respects_ret.
Qed.

Lemma respects_handle_response r :
  respects R (handle_response env aid r).
Proof.
  unfold handle_response. destruct (negb (ok r)).
  - apply respects_bind; [apply respects_response_text|].
    intros. apply respects_throw.
  - destruct (JS.includes _ _).
    + apply respects_bind.
      { unfold response_json. apply respects_bind;
          [apply respects_response_text | intros; apply respects_JSON_parse]. }
      intros data. apply respects_bind; [apply respects_property|]. intros err.
      destruct (truthy err).
      { apply respects_bind; [apply respects_new_Error|].
        intros e. apply respects_throw. }
      apply respects_bind; [apply respects_property|]. intros c w.
      apply R_assign.
    + destruct (JS.includes _ _); [|apply respects_throw].
      destruct (body r); [apply respects_throw | apply respects_read_loop].
Qed.

End Respects.

Lemma respects_exchange R env :
  (forall w, R w w) ->
  (forall a b c, R a b -> R b c -> R a c) ->
  (forall w, R w (snd (emit ConsoleError w))) ->
  (forall c w,
     R w (snd (setMessages
                 (find_and_assign (is_placeholder (snd (generated env))) c) w))) ->
  (forall A w d, timer w = Some d -> R w (snd (@fire A w))) ->
  (forall w, R w (snd (clearTimeout w))) ->
  respects R (exchange env).
Proof.
  intros R_refl R_trans R_console R_assign R_fire R_clear.
  unfold exchange.
  apply respects_bind; [assumption | now apply respects_await |]. intros r.
  apply respects_bind; [assumption | intros w; apply R_clear |]. intros _.
  now apply respects_handle_response.
Qed.

Lemma find_and_assign_shape p c ms : shape (find_and_assign p c ms) = shape ms.
Proof.
  unfold shape. induction ms as [|m ms IH]; [reflexivity|]. cbn.
  destruct (p m); cbn; [reflexivity | now rewrite IH].
Qed.

Lemma assign_last_assistant_shape c ms :
  shape (assign_last_assistant c ms) = shape ms.
Proof.
  unfold shape. induction ms as [|m ms IH]; [reflexivity|].
  cbn [assign_last_assistant]. destruct ms as [|m' ms].
  - destruct (role m) eqn:E; cbn; now rewrite ?E.
  - change (map (fun x => (role x, id x))
              (m :: assign_last_assistant c (m' :: ms))
            = map (fun x => (role x, id x)) (m :: m' :: ms)).
    cbn [map]. now rewrite IH.
Qed.

Lemma kept_refl w : kept w w.
Proof. repeat split. Qed.

Lemma kept_trans a b c : kept a b -> kept b c -> kept a c.
Proof.
  intros (H1 & H2 & H3 & H4) (K1 & K2 & K3 & K4).
  repeat split; congruence.
Qed.

Lemma handle_response_kept env aid r :
  respects kept (handle_response env aid r).
Proof.
  apply respects_handle_response.
  - apply kept_refl.
  - apply kept_trans.
  - intros w. repeat split.
  - intros c w. repeat split. cbn. apply find_and_assign_shape.
  - intros A w d _. repeat split.
Qed.

Lemma exchange_kept env : respects kept (exchange env).
Proof.
  apply respects_exchange.
  - apply kept_refl.
  - apply kept_trans.
  - intros w. repeat split.
  - intros c w. repeat split. cbn. apply find_and_assign_shape.
  - intros A w d _. repeat split.
  - intros w. repeat split.
Qed.

(** Once the timer is disarmed nothing arms it and nothing aborts. *)
Lemma exchange_disarmed env aid r :
  respects disarmed (handle_response env aid r).
Proof.
  apply respects_handle_response.
  - intros w H. auto.
  - intros a b c H1 H2 H. destruct (H1 H) as [T A].
    destruct (H2 T) as [T' A']. split; congruence.
  - intros w H. auto.
  - intros c w H. auto.
  - intros A w d E H. congruence.
Qed.





(** ** The fallback *)

Lemma fallback_responses_nonempty s : In s FALLBACK_RESPONSES -> s <> [].
Proof.
  assert (H : forallb (fun s => negb (JS.eqb s [])) FALLBACK_RESPONSES = true)
    by (vm_compute; reflexivity).
  rewrite forallb_forall in H. intros Hin ->. apply H in Hin. discriminate.
Qed.

Lemma fallback_index_in_bounds (r : Random) :
  (numerator r < 2 ^ scale r)%N ->
  (numerator r * N.of_nat (length FALLBACK_RESPONSES) / 2 ^ scale r < 4)%N.
Proof.
  intros H. change (N.of_nat (length FALLBACK_RESPONSES)) with 4%N.
  apply N.Div0.div_lt_upper_bound. lia.
Qed.

(** ** The scenarios *)

Lemma a_state_accepted : accepted Scenario.a_state.
Proof. split; [differ | reflexivity]. Defined.

Lemma an_env_fresh net : fresh (Scenario.an_env net) Scenario.a_state.
Proof. unfold fresh. cbn. repeat constructor; differ. Defined.

(* ================================================================== *)
(** * The controller: the claims *)

(** ** The testable properties of the specification, on the scenarios *)

(** A blank input, and a send while a request is in flight, do nothing. *)
Example blank_input_is_ignored :
  let blank := {| messages := []; input := js"   "; isLoading := false;
                  error := None |} in
  let busy := {| messages := []; input := js"hi"; isLoading := true;
                 error := None |} in
  send Scenario.hello_whole blank = (Return tt, start blank)
  /\ send Scenario.hello_whole busy = (Return tt, start busy).
Proof. split; apply send_rejected; intros [H1 H2]; [now apply H1 | discriminate]. Qed.

(** A frame that does not parse, between two that do, is logged and
    skipped. *)
Example unparsable_frame_is_skipped :
  let r := send Scenario.hello_with_garbage Scenario.a_state in
  final_content Scenario.hello_with_garbage Scenario.a_state
  = Some (Str (js"Hello"))
  /\ console_errors (events (snd r)) = 1%nat
  /\ error (state (snd r)) = None.
Proof. vm_compute. repeat split. Qed.

(** A structured response with an error fails the send. *)
Example structured_error_fails :
  let r := send Scenario.error_boom Scenario.a_state in
  fst r = Return tt
  /\ error (state (snd r)) = Some (js"boom")
  /\ final_content Scenario.error_boom Scenario.a_state
     = option_map Str (nth_error FALLBACK_RESPONSES 2)
  /\ isLoading (state (snd r)) = false.
Proof. vm_compute. repeat split. Qed.

(** A response that never arrives, once the timer is disarmed, would
    suspend the send for ever; a body that never ends does. *)
Example endless_body_suspends :
  let env := Scenario.an_env (Scenario.streamed 120 [] Hangs) in
  fst (send env Scenario.a_state) = Pending
  /\ isLoading (state (snd (send env Scenario.a_state))) = true
  /\ loading_cleared (events (snd (send env Scenario.a_state))) = 0%nat.
Proof. vm_compute. repeat split. Qed.

(** Clearing empties the conversation and the error. *)
Example clear_resets :
  let w := snd (handleClearChat (start Scenario.a_state)) in
  messages (state w) = [] /\ error (state w) = None
  /\ isLoading (state w) = isLoading Scenario.a_state.
Proof. repeat split. Qed.

(** ** C1: error frames and structured errors *)

(** C1.  An error frame in a stream should fail the send: reading stops,
    [error] takes a message made from the value of the frame, and the
    content of the in-progress message becomes a fallback text.  The
    [throw] of the error frame sits in the [try] block whose [catch]
    logs and goes on, so nothing of this happens.  With the frame
    [data: {"type":"error","value":"boom"}] alone, the send returns,
    [error] stays [null], one line is logged and the content is left
    empty; with a text frame after it, the text frame is still read. *)
Theorem error_frame_is_swallowed :
  let boom := TextDecoder.utf8_decode Scenario.boom in
  error_frame boom = Some (Str (js"boom"))
  /\ (let r := send Scenario.boom_alone Scenario.a_state in
      fst r = Return tt
      /\ error (state (snd r)) = None
      /\ final_content Scenario.boom_alone Scenario.a_state = Some (Str [])
      /\ console_errors (events (snd r)) = 1%nat)
  /\ (let r := send Scenario.boom_then_text Scenario.a_state in
      fst r = Return tt
      /\ error (state (snd r)) = None
      /\ final_content Scenario.boom_then_text Scenario.a_state
         = Some (Str (js"He"))).
Proof. vm_compute. repeat split. Qed.

(** ** C2: streams of text frames *)

(** C2, as stated, fails: a read that ends inside a frame loses the
    frame.  The body holds the text frames "He" and "llo"; read in two
    chunks, the first of ten bytes, it leaves the content "llo". *)
Lemma cut_frame_is_lost :
  let frames := map TextDecoder.utf8_decode [Scenario.he; Scenario.llo] in
  let reads := [firstn 10 Scenario.hello_body; skipn 10 Scenario.hello_body] in
  text_frames frames [js"He"; js"llo"]
  /\ TextDecoder.utf8_decode Scenario.hello_body = frames_text frames
  /\ concat reads = Scenario.hello_body
  /\ concat (decoded TextDecoder.new reads) = frames_text frames
  /\ network Scenario.hello_cut
     = Scenario.streamed 120 [(200%N, nth 0 reads []); (205%N, nth 1 reads [])]
         (Resolves 210 tt)
  /\ final_content Scenario.hello_cut Scenario.a_state = Some (Str (js"llo"))
  /\ final_content Scenario.hello_cut Scenario.a_state
     <> Some (Str (concat [js"He"; js"llo"])).
Proof.
  cbv zeta. split; [|split; [|split; [|split; [|split; [|split]]]]].
  - repeat constructor.
  - vm_compute. reflexivity.
  - apply firstn_skipn.
  - vm_compute. reflexivity.
  - reflexivity.
  - vm_compute. reflexivity.
  - differ.
Qed.

(** Nor does the content pass through every prefix.  The updater of a
    frame reads [accumulatedContent] when React runs it: with the two
    frames in one read, and with one frame in each of two reads and no
    render between them, both updates show "Hello" and none shows
    "He". *)
Example queued_updates_read_the_variable_late :
  let updates env :=
    flat_map (fun e => match e with
                       | SetMessages now =>
                           match find (is_placeholder (snd (generated env)))
                                   now with
                           | Some m => [content m]
                           | None => []
                           end
                       | _ => []
                       end)
      (skipn (length (prologue env Scenario.a_state))
         (events (snd (send env Scenario.a_state)))) in
  updates Scenario.hello_whole = [Str (js"Hello"); Str (js"Hello")]
  /\ updates Scenario.hello_in_two = [Str (js"Hello"); Str (js"Hello")].
Proof. vm_compute. split; reflexivity. Qed.

(** C2, amended.  For every streamed response that arrives in time, in
    which every read decodes to whole frames and delimiters (no read
    ends inside a frame or inside a delimiter), the frames are
    well-formed text frames separated by the delimiter, and for a
    placeholder whose id is the id of no earlier message: each decoded
    chunk is split into its frames, the empty pieces discarded; the
    state updates after the request are exactly one per frame; the
    update of a frame sets the content of the placeholder to the values
    of the first [k] frames, for some [k] that counts this frame, and
    the [k] never decrease; the send returns with the concatenation of
    all values as the content, no error, and [isLoading] false.  This
    holds whichever the reads are during which React renders. *)
Theorem whole_frames_accumulate env s t r reads t' piecess valuess :
  accepted s -> fresh env s ->
  network env = Resolves t r -> (t < DEADLINE)%N ->
  event_stream r ->
  body r = Stream reads (Resolves t' tt) ->
  decoded TextDecoder.new (map snd reads) = map pieces_text piecess ->
  apart (concat piecess) = true ->
  Forall2 (fun ps vs => text_frames (frames_of ps) vs) piecess valuess ->
  let values := concat valuess in
  let shown p := messages s ++ [userMessage env s; with_content env (Str p)] in
  map lines_of (decoded TextDecoder.new (map snd reads))
  = map frames_of piecess
  /\ exists updates,
       late_prefixes values updates
       /\ send env s =
          (Return tt,
           {| state := {| messages := shown (concat values); input := [];
                          isLoading := false; error := None |};
              timer := None; aborted := false;
              events := prologue env s ++ [ClearTimeout]
                        ++ map (fun p => SetMessages (shown p)) updates
                        ++ [SetIsLoading false; Focus] |}).
Proof.
  intros Hacc Hfresh Hnet Ht (Hok & Hjson & Hstream) Hbody Hdec Hsep Hframes
    values shown.
  apply apart_concat in Hsep.
  split.
  { rewrite Hdec. clear - Hframes Hsep.
    induction Hframes as [|ps vs ? ? H _ IH]; [reflexivity|].
    inversion Hsep; subst. cbn [map].
    erewrite lines_of_pieces by eassumption. now rewrite IH. }
  destruct (@read_loop_text env s t' Hfresh reads TextDecoder.new
              {| accumulatedContent := []; queued := 0 |} 0 []
              (prologue env s ++ [ClearTimeout]) piecess valuess
              Hdec Hsep Hframes (fun _ => eq_refl))
    as (ks & B & N & E).
  cbn [accumulatedContent queued repeat app] in B, E.
  exists (map (fun k => concat (firstn k values)) ks). split.
  { exists ks. auto. }
  rewrite send_concludes by assumption.
  erewrite exchange_in_time by eassumption.
  unfold handle_response. fold (declared_kind r).
  rewrite Hok, Hjson, Hstream, Hbody. cbn [negb].
  change (world_at_response env s)
    with (world_reading env s [] (prologue env s ++ [ClearTimeout])).
  rewrite E. unfold conclude, finished, world_reading.
  cbn [state messages input isLoading error timer aborted events].
  fold values. unfold shown. rewrite map_map, <- !app_assoc. reflexivity.
Qed.

Lemma whole_frames_accumulate_witness :
  final_content Scenario.hello_whole Scenario.a_state = Some (Str (js"Hello")).
Proof.
  destruct (proj2 (@whole_frames_accumulate
             Scenario.hello_whole Scenario.a_state 120 _
             [(200%N, Scenario.hello_body)] 210
             [[Frame (TextDecoder.utf8_decode Scenario.he); Delimiter;
               Frame (TextDecoder.utf8_decode Scenario.llo); Delimiter]]
             [[js"He"; js"llo"]]
             a_state_accepted (an_env_fresh _) eq_refl eq_refl
             (conj eq_refl (conj eq_refl eq_refl)) eq_refl eq_refl eq_refl
             ltac:(repeat constructor))) as (updates & _ & E).
  unfold final_content. rewrite E. vm_compute. reflexivity.
Defined.

(** A read may end between a frame and its delimiter, and the last
    frame need not be followed by one. *)
Example unterminated_frames_accumulate :
  final_content Scenario.hello_unterminated Scenario.a_state
  = Some (Str (js"Hello"))
  /\ apart [Frame (TextDecoder.utf8_decode Scenario.he); Delimiter;
            Frame (TextDecoder.utf8_decode Scenario.llo)] = true.
Proof. vm_compute. split; reflexivity. Qed.

(** ** C3: which message an update writes *)




(** ** C4: the deadline *)

(** C4, as stated, fails: the timer is cleared as soon as the [fetch]
    resolves, so a body that arrives after the deadline is read to its
    end.  Headers after one second and the body after ninety: the
    response is complete at 90001 ms, nothing is aborted, no error is
    recorded and the content is the streamed text. *)
Lemma slow_body_is_not_cancelled :
  completion_time (network Scenario.slow_body) = Some 90001%N
  /\ (DEADLINE < 90001)%N
  /\ (let r := send Scenario.slow_body Scenario.a_state in
      fst r = Return tt
      /\ aborted (snd r) = false
      /\ aborts (events (snd r)) = 0%nat
      /\ error (state (snd r)) = None
      /\ error (state (snd r)) <> Some TIMEOUT_MESSAGE
      /\ final_content Scenario.slow_body Scenario.a_state
         = Some (Str (js"Hello"))).
Proof. vm_compute. repeat split; discriminate. Qed.

(** C4, amended.  For every accepted send whose [fetch] has not settled
    within the 60-second deadline (the response headers have not
    arrived), the request is aborted and the send fails with the timeout
    message: [error] holds that message, the placeholder holds the
    fallback, and after that [isLoading] is set to false, once in the
    whole send. *)
Theorem late_response_times_out env s :
  accepted s -> late (network env) ->
  let now := messages s ++ [userMessage env s;
                            with_content env (getFallbackResponse env)] in
  send env s =
  (Return tt,
   {| state := {| messages := now; input := []; isLoading := false;
                  error := Some TIMEOUT_MESSAGE |};
      timer := None; aborted := true;
      events := prologue env s
                ++ [Abort; ConsoleError; ConsoleError;
                    SetError (Some TIMEOUT_MESSAGE); SetMessages now;
                    SetIsLoading false; Focus] |})
  /\ loading_cleared (events (snd (send env s))) = 1%nat.
Proof.
  intros Hacc Hlate now.
  assert (E : send env s =
    (Return tt,
     {| state := {| messages := now; input := []; isLoading := false;
                    error := Some TIMEOUT_MESSAGE |};
        timer := None; aborted := true;
        events := prologue env s
                  ++ [Abort; ConsoleError; ConsoleError;
                      SetError (Some TIMEOUT_MESSAGE); SetMessages now;
                      SetIsLoading false; Focus] |})).
  { rewrite send_concludes, exchange_late by assumption.
    unfold conclude, finished, failed, world_at_abort, world_at_fetch.
    cbn [state messages input isLoading error timer aborted events].
    change (messages s ++ [userMessage env s; placeholder env])
      with (messages s ++ [userMessage env s] ++ [placeholder env]).
    rewrite app_assoc, assign_last_assistant_last. cbn [role placeholder].
    change (error_text AbortError) with TIMEOUT_MESSAGE.
    subst now. unfold with_content.
    rewrite <- !app_assoc. reflexivity. }
  split; [assumption|]. rewrite E. cbn [snd events].
  rewrite loading_cleared_app. reflexivity.
Qed.

Lemma late_response_times_out_witness :
  aborted (snd (send Scenario.never_answered Scenario.a_state)) = true
  /\ error (state (snd (send Scenario.never_answered Scenario.a_state)))
     = Some TIMEOUT_MESSAGE
  /\ loading_cleared
       (events (snd (send Scenario.never_answered Scenario.a_state))) = 1%nat.
Proof.
  destruct (@late_response_times_out Scenario.never_answered Scenario.a_state
              a_state_accepted I) as [E C].
  rewrite E. repeat split.
Defined.

(** ** C5: structured responses *)

(** C5, as stated, fails: a content that is present and empty is
    replaced by the "no response" text. *)
Lemma empty_content_is_replaced :
  let data := parse (body_text [(300%N, Scenario.quoted_bytes "{'content':''}")]) in
  option_map (fun d => (get d (js"error"), get d (js"content"))) data
  = Some (Some Undefined, Some (Str []))
  /\ final_content Scenario.empty_content Scenario.a_state
     = Some (Str NO_RESPONSE)
  /\ Str NO_RESPONSE <> Str [].
Proof.
  cbv zeta. split; [|split].
  - vm_compute. reflexivity.
  - vm_compute. reflexivity.
  - differ.
Qed.

(** C5, amended.  For every structured JSON response that arrives in
    time and whose [error] is absent or falsy, and for a placeholder
    whose id is fresh: one state update is made after the request; it
    sets the content of the placeholder to the value of [content] when
    that value is truthy, and to the "no response" text when [content]
    is absent or falsy (the empty string among others); the send returns
    with [error] null and [isLoading] false. *)
Theorem structured_content_is_set_once env s t r reads t' data e c :
  accepted s -> fresh env s ->
  network env = Resolves t r -> (t < DEADLINE)%N ->
  structured_document r ->
  body r = Stream reads (Resolves t' tt) ->
  parse (body_text reads) = Some data ->
  get data (js"error") = Some e -> truthy e = false ->
  get data (js"content") = Some c ->
  let shown := if truthy c then c else Str NO_RESPONSE in
  let final := messages s ++ [userMessage env s; with_content env shown] in
  send env s =
  (Return tt,
   {| state := {| messages := final; input := []; isLoading := false;
                  error := None |};
      timer := None; aborted := false;
      events := prologue env s
                ++ [ClearTimeout; SetMessages final;
                    SetIsLoading false; Focus] |}).
Proof.
  intros Hacc Hfresh Hnet Ht (Hok & Hct) Hbody Hparse Herr Hfalsy Hcontent
    shown final.
  rewrite send_concludes by assumption.
  erewrite exchange_in_time by eassumption.
  unfold handle_response. fold (declared_kind r).
  rewrite Hok. cbn [negb]. rewrite Hct.
  erewrite bind_returns
    by (eapply response_json_read; [eassumption | reflexivity | eassumption]).
  rewrite (property_some _ _ _ Herr), bind_ret, Hfalsy.
  rewrite (property_some _ _ _ Hcontent), bind_ret.
  unfold setMessages, bind, get_state, put, emit, conclude, finished.
  cbn [state messages input isLoading error timer aborted events
       world_at_fetch world_at_response ret].
  change (messages s ++ [userMessage env s; placeholder env])
    with (messages s ++ [userMessage env s] ++ [placeholder env]).
  rewrite app_assoc.
  rewrite (@find_and_assign_fresh _ _ _ _ []) by (assumption || reflexivity).
  rewrite <- !app_assoc. reflexivity.
Qed.

Lemma structured_content_is_set_once_witness :
  final_content Scenario.content_x Scenario.a_state = Some (Str (js"X")).
Proof.
  unfold final_content.
  rewrite (@structured_content_is_set_once
             Scenario.content_x Scenario.a_state 250 _
             [(300%N, Scenario.quoted_bytes "{'content':'X'}")] 310
             (Obj [(js"content", Str (js"X"))]) Undefined (Str (js"X"))
             a_state_accepted (an_env_fresh _) eq_refl eq_refl
             (conj eq_refl eq_refl) eq_refl eq_refl eq_refl eq_refl eq_refl).
  vm_compute. reflexivity.
Defined.

(** ** C8 and C10: what is sent *)

(** C8.  For every accepted send, one request is made; it is a POST of
    the messages of the conversation followed by the new user message,
    each as its role and content, with the model "mistral".  The
    placeholder, appended to the state before the request, is not in the
    envelope, which has one entry more than the history. *)
Theorem envelope_is_history_and_user_message env s :
  accepted s ->
  let u := {| role := user; content := Str (input s);
              id := fst (generated env) |} in
  let p := {| role := assistant; content := Str [];
              id := snd (generated env) |} in
  let envelope :=
    {| envelope_messages :=
         map (fun m => (role m, content m)) (messages s)
         ++ [(user, Str (input s))];
       envelope_model := js"mistral" |} in
  (exists rest,
     events (snd (send env s))
     = [ SetMessages (messages s ++ [u]); SetInput []; SetIsLoading true;
         SetError None; SetMessages (messages s ++ [u; p]);
         Fetch (js"/api/chat") envelope ] ++ rest)
  /\ fetches (events (snd (send env s))) = [(js"/api/chat", envelope)]
  /\ length (envelope_messages envelope) = S (length (messages s)).
Proof.
  intros H u p envelope.
  destruct (send_prologue env H) as (rest & E & F).
  assert (Hp : prologue env s
               = [ SetMessages (messages s ++ [u]); SetInput [];
                   SetIsLoading true; SetError None;
                   SetMessages (messages s ++ [u; p]);
                   Fetch (js"/api/chat") envelope ]).
  { unfold prologue, envelope_of, envelope. now rewrite map_app. }
  split; [|split].
  - exists rest. now rewrite E, Hp.
  - rewrite E, fetches_app, F, Hp. reflexivity.
  - unfold envelope. cbn. rewrite length_app, length_map. cbn. lia.
Qed.

Lemma envelope_is_history_and_user_message_witness :
  fetches (events (snd (send Scenario.content_x Scenario.a_state)))
  = [(js"/api/chat",
      {| envelope_messages := [ (user, Str (js"Hi"));
                                (assistant, Str (js"Hello!"));
                                (user, Str (js" tell me more ")) ];
         envelope_model := js"mistral" |})].
Proof.
  exact (proj1 (proj2 (@envelope_is_history_and_user_message
                         Scenario.content_x Scenario.a_state
                         a_state_accepted))).
Defined.

(** C10.  For every accepted send, the user message appended to the
    conversation has the input as its content, as typed, and the last
    entry of the envelope carries the same text: the trimmed input only
    decides whether the send happens. *)
Theorem user_content_is_raw_input env s :
  accepted s ->
  (exists rest,
     events (snd (send env s))
     = SetMessages (messages s ++ [ {| role := user; content := Str (input s);
                                      id := fst (generated env) |} ]) :: rest)
  /\ (exists url history model,
        fetches (events (snd (send env s)))
        = [(url, {| envelope_messages := history ++ [(user, Str (input s))];
                    envelope_model := model |})]).
Proof.
  intros H. destruct (send_prologue env H) as (rest & E & F). split.
  - rewrite E. eexists. reflexivity.
  - rewrite E, fetches_app, F. unfold prologue, envelope_of.
    rewrite map_app. cbn. eexists _, _, _. reflexivity.
Qed.

Lemma user_content_is_raw_input_witness :
  exists rest,
    events (snd (send Scenario.hello_whole Scenario.a_state))
    = SetMessages (messages Scenario.a_state
                   ++ [ {| role := user; content := Str (js" tell me more ");
                           id := js"m1" |} ]) :: rest.
Proof.
  exact (proj1 (@user_content_is_raw_input Scenario.hello_whole Scenario.a_state
                  a_state_accepted)).
Defined.

(** ** C9: the fallback selector *)

(** C9.  For every value of [Math.random], a binary64 in [0, 1), the
    selector returns a string, one of the four fallback texts, none of
    which is empty: the index is below four. *)
Theorem fallback_is_defined (env : Env) :
  (numerator (random env) < 2 ^ scale (random env))%N ->
  length FALLBACK_RESPONSES = 4%nat /\
  exists s,
    getFallbackResponse env = Str s /\ In s FALLBACK_RESPONSES /\ s <> [].
Proof.
  intros H. split; [reflexivity|].
  unfold getFallbackResponse.
  pose proof (fallback_index_in_bounds _ H) as Hi.
  set (index := (_ / _)%N) in *.
  destruct (nth_error FALLBACK_RESPONSES (N.to_nat index)) as [s|] eqn:E.
  - exists s. apply nth_error_In in E. auto using fallback_responses_nonempty.
  - apply nth_error_None in E.
    change (length FALLBACK_RESPONSES) with 4%nat in E. lia.
Qed.

Lemma fallback_is_defined_witness :
  (5 < 2 ^ 3)%N /\
  exists s,
    getFallbackResponse Scenario.never_answered = Str s
    /\ In s FALLBACK_RESPONSES /\ s <> [].
Proof.
  split; [reflexivity|].
  exact (proj2 (@fallback_is_defined Scenario.never_answered eq_refl)).
Defined.

End ControllerFacts.

(* ================================================================== *)
(** * The proxy: lemmas and claims *)

Module ProxyFacts.

Import JSON Proxy ProxySpec.

Lemma key_blank_spec env :
  key_blank env
  = (let apiKey := match API_KEY env with Some k => k | None => [] end in
     JS.eqb apiKey [] || JS.eqb (JS.trim apiKey) []).
Proof. unfold key_blank. destruct (API_KEY env); reflexivity. Qed.

Lemma degraded_not_empty : DEGRADED <> [].
Proof. vm_compute. discriminate. Qed.

(** A truthy value has every property read, and a falsy one has none. *)
Lemma truthy_get v key : truthy v = true -> exists x, get v key = Some x.
Proof.
  destruct v; cbn; try discriminate; intros _; eauto.
  - destruct (index_of_key key) as [i|]; [|eauto].
    destruct (nth_error s i); eauto.
  - destruct (index_of_key key); eauto.
Qed.

Lemma falsy_get v key :
  truthy v = false -> get v key = None \/ get v key = Some Undefined.
Proof.
  destruct v; cbn; try discriminate; auto.
  intros H. apply negb_false_iff, ControllerFacts.eqb_true_iff in H. subst s.
  destruct (index_of_key key) as [i|]; [|auto]. now destruct i; auto.
Qed.

(** The guard [data.choices && data.choices[0] && data.choices[0].message]
    holds exactly for a document with a truthy [choices[0].message]. *)
Lemma completion_choice_spec data c :
  completion_choice data = Some (Some c)
  <-> exists message,
        choice_message data = Some message
        /\ truthy message = true
        /\ get message (js"content") = Some c.
Proof.
  unfold completion_choice, choice_message.
  destruct (get data (js"choices")) as [choices|];
    [|split; [discriminate | intros (m & H & _); discriminate]].
  destruct (truthy choices) eqn:Tc; cbn [negb].
  - destruct (@truthy_get _ (js"0") Tc) as (first & ->).
    destruct (truthy first) eqn:Tf; cbn [negb].
    + destruct (@truthy_get _ (js"message") Tf) as (m & ->).
      destruct (truthy m) eqn:Tm; cbn [negb].
      * destruct (@truthy_get _ (js"content") Tm) as (c' & E). rewrite E.
        split.
        { intros [= <-]. eauto. }
        { intros (m' & [= <-] & _ & E'). congruence. }
      * split; [discriminate|]. intros (m' & [= <-] & T & _). congruence.
    + split; [discriminate|]. intros (m & E & T & _).
      destruct (@falsy_get _ (js"message") Tf) as [G|G]; rewrite G in E;
        [discriminate|]. injection E as <-. discriminate T.
  - split; [discriminate|]. intros (m & E & _).
    destruct (@falsy_get _ (js"0") Tc) as [G|G]; rewrite G in E; discriminate.
Qed.

(** A document that fails in this way lacks a well-formed completion
    choice. *)
Lemma failed_lacks_well_formed_choice text data :
  parse text = Some data ->
  upstream_failed (Answer true (Some text)) ->
  well_formed_choice data = false.
Proof.
  intros Hp. unfold upstream_failed. rewrite Hp.
  unfold choice_message, well_formed_choice.
  destruct data as [| | | | | |ms]; try reflexivity.
  destruct (get (Obj ms) (js"choices")) as [[| | | | |[|[| | | | | |choice] ?]|]|];
    try reflexivity.
  change (get (Arr (Obj choice :: l)) (js"0")) with (Some (Obj choice)).
  cbn [get].
  destruct (member (js"message") choice); try reflexivity.
  cbn [truthy]. discriminate.
Qed.

Lemma complete_upstream_failed up :
  upstream_failed up ->
  complete_upstream up = respond 200 [ (js"content", Str DEGRADED) ].
Proof.
  unfold upstream_failed, complete_upstream.
  destruct up as [|[] [text|]]; try reflexivity.
  destruct (parse text) as [data|]; [|reflexivity].
  destruct (completion_choice data) as [[c|]|] eqn:E;
    [|reflexivity|reflexivity].
  apply completion_choice_spec in E as (m & -> & T & _). congruence.
Qed.

(** An answer with a completion choice is passed on. *)
Example upstream_answer_is_passed_on :
  POST Scenario.configured Scenario.good_request Scenario.answered
  = (respond 200 [ (js"content", Str (js"Hello")) ],
     [ {| call_model := Own (js"mistralai/mistral-7b-instruct");
          call_messages := [ (Str (js"user"), Str (js"Hi")) ];
          call_temperature := {| negative := false; mantissa := 7;
                                 exponent := -1 |};
          call_max_tokens := 1000;
          call_stream := false |} ]).
Proof. vm_compute. reflexivity. Qed.

(** A message without content passes the guard: the answer has no
    [content]. *)
Example message_without_content_is_passed_on :
  fst (POST Scenario.configured Scenario.good_request Scenario.no_content)
  = respond 200 []
  /\ content_of (fst (POST Scenario.configured Scenario.good_request
                        Scenario.no_content)) = Some Undefined.
Proof. vm_compute. split; reflexivity. Qed.

(** A name that [MODEL_MAP] inherits passes the check of the model, and
    the call is made. *)
Example inherited_name_passes_the_check :
  status (fst (POST Scenario.configured Scenario.inherited_model
                 Scenario.overloaded)) = 200%N
  /\ map call_model (snd (POST Scenario.configured Scenario.inherited_model
                            Scenario.overloaded))
     = [Inherited (js"constructor")].
Proof. vm_compute. split; reflexivity. Qed.

(** ** C6: upstream failures *)

(** C6, as stated, fails: a 2xx body whose [choices[0].message] is
    truthy is passed on, well-formed or not.  For a message without
    [content], and for the message [7], the proxy answers 200 with the
    document [{}]: no [content], and no canned text. *)
Lemma malformed_choice_is_passed_on :
  let lacking up :=
    match up with
    | Answer true (Some text) => option_map well_formed_choice (parse text)
    | _ => None
    end in
  let answer up := fst (POST Scenario.configured Scenario.good_request up) in
  lacking Scenario.no_content = Some false
  /\ lacking Scenario.message_seven = Some false
  /\ status (answer Scenario.no_content) = 200%N
  /\ body (answer Scenario.no_content) = Obj []
  /\ content_of (answer Scenario.no_content) = Some Undefined
  /\ answer Scenario.message_seven = answer Scenario.no_content
  /\ lacking Scenario.answered = Some true.
Proof. vm_compute. repeat split. Qed.

(** C6, amended.  For every request that passes the credential check
    and the validation, when the upstream call fails (the fetch rejects,
    the response is not ok, its body cannot be read or parsed, or
    [choices[0].message] of the document is missing or falsy), the proxy
    answers with status 200 and a canned text that is not empty as
    [content]: the degraded-service text whenever the call was made, and
    the text of the outer handler when an element of [messages] is
    [null] and the call is not reached. *)
Theorem upstream_failure_is_absorbed env request up :
  passes env request ->
  upstream_failed up ->
  let r := fst (POST env request up) in
  status r = 200%N
  /\ (content_of r = Some (Str DEGRADED) \/ content_of r = Some (Str FAILED))
  /\ (snd (POST env request up) <> [] -> content_of r = Some (Str DEGRADED))
  /\ DEGRADED <> [] /\ FAILED <> [].
Proof.
  intros (Hk & json & messages & model & key & Hp & Hm & Hmo & Ht & Ha & Htm
          & Hkey & Hl)
    Hfail r.
  assert (E : POST env request up
              = match messages with
                | Arr elements =>
                    match formatted elements with
                    | None => (internal_error, [])
                    | Some formattedMessages =>
                        (respond 200 [ (js"content", Str DEGRADED) ],
                         [ {| call_model := MODEL_MAP_get key;
                              call_messages := formattedMessages;
                              call_temperature :=
                                {| negative := false; mantissa := 7;
                                   exponent := -1 |};
                              call_max_tokens := 1000;
                              call_stream := false |} ])
                    end
                | _ => (internal_error, [])
                end).
  { unfold POST.
    rewrite <- key_blank_spec, Hk, Hp, Hm, Hmo, Ht, Ha, Htm, Hkey, Hl.
    cbn [negb orb]. now rewrite (complete_upstream_failed _ Hfail). }
  subst r. rewrite E.
  assert (Hd : DEGRADED <> []) by (vm_compute; discriminate).
  assert (Hf : FAILED <> []) by (vm_compute; discriminate).
  destruct messages as [| | | | |elements|]; try discriminate.
  destruct (formatted elements); cbn [fst snd].
  - repeat split; auto.
  - repeat split; auto. intros H. now elim H.
Qed.

Lemma upstream_failure_is_absorbed_witness :
  let r := fst (POST Scenario.configured Scenario.good_request
                  Scenario.overloaded) in
  status r = 200%N /\ content_of r = Some (Str DEGRADED).
Proof.
  assert (P : passes Scenario.configured Scenario.good_request).
  { split; [reflexivity|].
    exists (Obj [ (js"messages",
                   Arr [Obj [ (js"role", Str (js"user"));
                              (js"content", Str (js"Hi")) ]]);
                  (js"model", Str (js"mistral")) ]),
           (Arr [Obj [ (js"role", Str (js"user"));
                       (js"content", Str (js"Hi")) ]]),
           (Str (js"mistral")), (js"mistral").
    repeat split. }
  destruct (@upstream_failure_is_absorbed Scenario.configured
              Scenario.good_request Scenario.overloaded P I)
    as (Hs & _ & Hc & _).
  split; [exact Hs|]. apply Hc. vm_compute. discriminate.
Defined.

(** ** C7: validation and credentials *)

(** C7, as stated, fails: the credential check comes before the
    validation, and a body that is [null] ends in the outer handler.
    Without a key, a body that lacks [messages] is answered with 500;
    with a key, the body [null] is answered with 200. *)
Lemma credential_check_comes_first :
  option_map (fun json => get json (js"messages"))
    (parse Scenario.no_messages) = Some (Some Undefined)
  /\ status (fst (POST Scenario.unconfigured Scenario.no_messages
                    Scenario.answered)) = 500%N
  /\ parse (js"null") = Some Null
  /\ status (fst (POST Scenario.configured (js"null") Scenario.answered))
     = 200%N.
Proof. vm_compute. repeat split. Qed.

(** A [model] that has no string cannot be made a property key:
    [MODEL_MAP[model]] throws, and the outer handler answers. *)
Example unconvertible_model_is_caught :
  POST Scenario.configured Scenario.unconvertible_model Scenario.answered
  = (internal_error, []).
Proof. vm_compute. reflexivity. Qed.

(** C7, amended.  For every request made while the API key is absent or
    blank, the proxy answers with status 500 and an error, and makes no
    upstream call.  For every request made while a key is configured and
    whose body parses to a value other than [null]: when [messages] is
    missing or falsy or not an array, or [model] is missing or falsy, or
    [model] makes a property key that names nothing which [MODEL_MAP]
    holds or inherits, the proxy answers with status 400 and an error,
    and makes no upstream call; and when [messages] is an array and
    [model] is truthy but makes no property key (an object with a member
    [toString] of its own, or an array that holds one), the outer
    handler answers with status 200, and no upstream call is made. *)
Theorem validation_and_credentials env request up :
  (key_blank env = true ->
     let r := fst (POST env request up) in
     status r = 500%N
     /\ (exists e, error_of r = Some (Str e) /\ e <> [])
     /\ snd (POST env request up) = [])
  /\ (key_blank env = false ->
      forall json, parse request = Some json -> rejected env json ->
      let r := fst (POST env request up) in
      status r = 400%N
      /\ (exists e, error_of r = Some (Str e) /\ e <> [])
      /\ snd (POST env request up) = [])
  /\ (key_blank env = false ->
      forall json messages model,
      parse request = Some json ->
      get json (js"messages") = Some messages ->
      get json (js"model") = Some model ->
      truthy messages = true -> is_array messages = true ->
      truthy model = true ->
      ToString (Number_toString env) model = None ->
      POST env request up = (internal_error, [])
      /\ status internal_error = 200%N).
Proof.
  split; [|split].
  - intros Hk r. subst r. unfold POST. rewrite <- key_blank_spec, Hk.
    split; [reflexivity|]. split; [|reflexivity].
    eexists. split; [reflexivity|]. vm_compute. discriminate.
  - intros Hk json Hp (messages & model & Hm & Hmo & Hbad) r. subst r.
    unfold POST. rewrite <- key_blank_spec, Hk, Hp, Hm, Hmo.
    destruct (negb (truthy messages) || negb (is_array messages)
              || negb (truthy model)) eqn:Eshape.
    + split; [reflexivity|]. split; [|reflexivity].
      eexists. split; [reflexivity|]. vm_compute. discriminate.
    + apply orb_false_iff in Eshape as [Eshape Emodel].
      apply orb_false_iff in Eshape as [Emsg Earr].
      apply negb_false_iff in Emodel, Emsg, Earr.
      destruct Hbad as [H|[H|[H|(key & Hkey & H)]]]; try congruence.
      rewrite Hkey, H. cbn [looked_up_truthy negb].
      split; [reflexivity|]. split; [|reflexivity].
      eexists. split; [reflexivity|]. vm_compute. discriminate.
  - intros Hk json messages model Hp Hm Hmo Ht Ha Htm Hkey.
    split; [|reflexivity].
    unfold POST. rewrite <- key_blank_spec, Hk, Hp, Hm, Hmo, Ht, Ha, Htm, Hkey.
    reflexivity.
Qed.

Lemma validation_and_credentials_witness :
  status (fst (POST Scenario.unconfigured Scenario.good_request
                 Scenario.answered)) = 500%N
  /\ status (fst (POST Scenario.configured Scenario.unknown_model
                    Scenario.answered)) = 400%N
  /\ status (fst (POST Scenario.configured Scenario.no_messages
                    Scenario.answered)) = 400%N
  /\ POST Scenario.configured Scenario.unconvertible_model Scenario.answered
     = (internal_error, []).
Proof.
  split; [|split; [|split]].
  - exact (proj1 (proj1 (validation_and_credentials Scenario.unconfigured
                           Scenario.good_request Scenario.answered) eq_refl)).
  - refine (proj1 (proj1 (proj2 (validation_and_credentials
                     Scenario.configured
                     Scenario.unknown_model Scenario.answered)) eq_refl
                     (Obj [(js"messages", Arr []);
                           (js"model", Str (js"gpt-4"))]) eq_refl _)).
    exists (Arr []), (Str (js"gpt-4")). repeat split. right. right. right.
    exists (js"gpt-4"). split; [reflexivity|]. vm_compute. reflexivity.
  - refine (proj1 (proj1 (proj2 (validation_and_credentials
                     Scenario.configured
                     Scenario.no_messages Scenario.answered)) eq_refl
                     (Obj [(js"model", Str (js"mistral"))]) eq_refl _)).
    exists Undefined, (Str (js"mistral")). repeat split. left. reflexivity.
  - exact (proj1 (proj2 (proj2 (validation_and_credentials
                     Scenario.configured Scenario.unconvertible_model
                     Scenario.answered)) eq_refl
                     (Obj [(js"messages", Arr []);
                           (js"model", Obj [(js"toString",
                                             Num {| negative := false;
                                                    mantissa := 1;
                                                    exponent := 0 |})])])
                     (Arr [])
                     (Obj [(js"toString",
                            Num {| negative := false; mantissa := 1;
                                   exponent := 0 |})])
                     eq_refl eq_refl eq_refl eq_refl eq_refl eq_refl
                     eq_refl)).
Defined.

End ProxyFacts.

(* ================================================================== *)
(** * The controller: more of its behaviour *)

Module ControllerMore.

Import JSON Controller ControllerSpec ControllerTerms ControllerFacts.
Local Open Scope async_scope.

(** ** Roles, ids and order *)

Lemma shape_snoc ms a r i :
  shape ms = shape a ++ [(r, i)] ->
  exists pre m, ms = pre ++ [m] /\ shape pre = shape a
                /\ role m = r /\ id m = i.
Proof.
  unfold shape. intros H. apply map_eq_app in H as (pre & l & -> & Hp & Hl).
  destruct l as [|m [|? ?]]; try discriminate.
  injection Hl as Hr Hi. exists pre, m. auto.
Qed.

Lemma shape_at_fetch env s :
  shape (messages (state (world_at_fetch env s)))
  = shape (messages s)
    ++ [(user, fst (generated env)); (assistant, snd (generated env))].
Proof. unfold shape. cbn. now rewrite map_app. Qed.

(** The fallback goes to the placeholder, whatever the exchange has
    written before. *)
Lemma failed_messages env s w text :
  kept (world_at_fetch env s) w ->
  exists pre,
    messages (state (failed env text w)) = pre ++ [fallback_message env]
    /\ shape pre = shape (messages s ++ [userMessage env s]).
Proof.
  intros (Hs & _). rewrite shape_at_fetch in Hs.
  change (shape (messages s) ++
          [(user, fst (generated env)); (assistant, snd (generated env))])
    with (shape (messages s) ++ [(user, fst (generated env))]
          ++ [(assistant, snd (generated env))]) in Hs.
  rewrite app_assoc in Hs.
  change (shape (messages s) ++ [(user, fst (generated env))])
    with (shape (messages s) ++ shape [userMessage env s]) in Hs.
  unfold shape at 2 3 in Hs. rewrite <- map_app in Hs.
  apply shape_snoc in Hs as (pre & m & E & Hp & Hr & Hi).
  exists pre. split; [|assumption].
  cbn [failed state messages]. rewrite E, assign_last_assistant_last, Hr.
  unfold set_content, fallback_message. now rewrite Hr, Hi.
Qed.

(** A send appends the user message and the placeholder and, whatever
    the response is and however the send ends, changes neither the role
    nor the id nor the order of any message; the entry field is
    emptied. *)
Theorem send_keeps_the_conversation env s :
  accepted s ->
  shape (messages (state (snd (send env s))))
  = shape (messages s)
    ++ [(user, fst (generated env)); (assistant, snd (generated env))]
  /\ input (state (snd (send env s))) = [].
Proof.
  intros H. rewrite send_concludes by assumption.
  pose proof (exchange_kept env (world_at_fetch env s)) as (Hs & Hi & _).
  rewrite shape_at_fetch in Hs.
  destruct (exchange env (world_at_fetch env s)) as [[[]|e|] w];
    cbn [snd conclude finished failed state messages input] in *.
  - auto.
  - rewrite assign_last_assistant_shape. auto.
  - auto.
Qed.

Lemma send_keeps_the_conversation_witness :
  shape (messages (state (snd (send Scenario.hello_cut Scenario.a_state))))
  = [(user, js"k1"); (assistant, js"k2"); (user, js"m1"); (assistant, js"m2")].
Proof.
  exact (proj1 (@send_keeps_the_conversation Scenario.hello_cut
                  Scenario.a_state a_state_accepted)).
Defined.

Lemma accepted_dec s : {accepted s} + {~ accepted s}.
Proof.
  unfold accepted.
  destruct (list_eq_dec N.eq_dec (JS.trim (input s)) []) as [E|E].
  - right. tauto.
  - destruct (isLoading s); [right | left]; intuition discriminate.
Qed.

(** [handleSendMessage] never rejects.  It returns, having run the
    [finally] block once when the send was accepted, or it stays
    suspended on an await with [isLoading] still true and the block not
    run. *)
Theorem send_settles_or_suspends env s :
  let w := snd (send env s) in
  match fst (send env s) with
  | Throw _ => False
  | Pending =>
      accepted s /\ isLoading (state w) = true
      /\ loading_cleared (events w) = 0%nat
  | Return _ =>
      (~ accepted s /\ w = start s)
      \/ (accepted s /\ isLoading (state w) = false
          /\ loading_cleared (events w) = 1%nat)
  end.
Proof.
  destruct (accepted_dec s) as [H|H].
  - pose proof (loading_cleared_once env H) as L.
    rewrite send_concludes in * by assumption.
    pose proof (exchange_kept env (world_at_fetch env s)) as (_ & _ & Hl & _).
    destruct (exchange env (world_at_fetch env s)) as [[[]|e|] w];
      cbn [fst snd conclude] in *; auto.
  - rewrite send_rejected by assumption. cbn. auto.
Qed.

(** Whenever an accepted send ends with an error recorded, it has
    returned, [isLoading] is false and the last message is the
    placeholder holding the fallback text; the messages before it have
    the roles and ids of the history and the user message. *)
Theorem failure_leaves_the_fallback env s :
  accepted s ->
  let w := snd (send env s) in
  error (state w) = None
  \/ exists text pre,
       error (state w) = Some text
       /\ fst (send env s) = Return tt
       /\ isLoading (state w) = false
       /\ messages (state w) = pre ++ [fallback_message env]
       /\ shape pre = shape (messages s ++ [userMessage env s]).
Proof.
  intros H. cbv zeta. rewrite send_concludes by assumption.
  pose proof (exchange_kept env (world_at_fetch env s)) as K.
  destruct (exchange env (world_at_fetch env s)) as [[[]|e|] w];
    cbn [fst snd conclude] in *.
  - left. destruct K as (_ & _ & _ & He). cbn in *. assumption.
  - right. destruct (failed_messages (error_text e) K) as (pre & E & P).
    exists (error_text e), pre. cbn [finished state messages error isLoading].
    repeat split; assumption.
  - left. destruct K as (_ & _ & _ & He). cbn in *. assumption.
Qed.

Lemma failure_leaves_the_fallback_witness :
  let w := snd (send Scenario.error_boom Scenario.a_state) in
  error (state w) = None
  \/ exists text pre,
       error (state w) = Some text
       /\ fst (send Scenario.error_boom Scenario.a_state) = Return tt
       /\ isLoading (state w) = false
       /\ messages (state w) = pre ++ [fallback_message Scenario.error_boom]
       /\ shape pre
          = shape (messages Scenario.a_state
                   ++ [userMessage Scenario.error_boom Scenario.a_state]).
Proof.
  exact (@failure_leaves_the_fallback Scenario.error_boom Scenario.a_state
           a_state_accepted).
Defined.

(** ** Failures, cause by cause *)

Lemma error_text_Error m : error_text (Error m) = m.
Proof. reflexivity. Qed.

Lemma failed_state_of env s w text :
  state w = state (world_at_fetch env s) ->
  state (finished (failed env text w)) = failed_state env s text.
Proof.
  intros E. unfold finished, failed, failed_state.
  cbn [state messages input isLoading error]. rewrite E.
  cbn [state world_at_fetch messages input isLoading error].
  change (messages s ++ [userMessage env s; placeholder env])
    with (messages s ++ [userMessage env s] ++ [placeholder env]).
  rewrite app_assoc, assign_last_assistant_last, <- app_assoc.
  reflexivity.
Qed.

Lemma response_text_readable r text w :
  readable (body r) = Some text -> timer w = None ->
  response_text r w = (Return text, w).
Proof.
  intros Hr Hw. unfold response_text, readable in *.
  destruct (body r) as [|reads [t' []|t' e|]]; try discriminate.
  - injection Hr as <-. reflexivity.
  - injection Hr as <-.
    erewrite bind_returns by (rewrite await_disarmed by assumption; reflexivity).
    reflexivity.
Qed.

(** A send whose response is thrown at before any state update. *)
Lemma send_fails_on_response env s t r e :
  accepted s ->
  network env = Resolves t r -> (t < DEADLINE)%N ->
  handle_response env (snd (generated env)) r (world_at_response env s)
  = (Throw e, world_at_response env s) ->
  fst (send env s) = Return tt
  /\ state (snd (send env s)) = failed_state env s (error_text e)
  /\ aborted (snd (send env s)) = false
  /\ timer (snd (send env s)) = None.
Proof.
  intros Hacc Hnet Ht He. rewrite send_concludes by assumption.
  erewrite exchange_in_time by eassumption. rewrite He.
  cbn [fst snd conclude]. split; [reflexivity|].
  split; [now apply failed_state_of|]. split; reflexivity.
Qed.

(** A response whose status is not a success fails the send with the
    status code and the text of the body in the error. *)
Theorem bad_status_is_reported env s t r text :
  accepted s ->
  network env = Resolves t r -> (t < DEADLINE)%N ->
  ok r = false ->
  readable (body r) = Some text ->
  fst (send env s) = Return tt
  /\ state (snd (send env s))
     = failed_state env s
         (js"Ошибка сервера: " ++ JS.decimal (status r) ++ js". " ++ text)
  /\ aborted (snd (send env s)) = false.
Proof.
  intros Hacc Hnet Ht Hok Hr.
  destruct (@send_fails_on_response env s t r
              (Error (js"Ошибка сервера: " ++ JS.decimal (status r)
                      ++ js". " ++ text)) Hacc Hnet Ht)
    as (H1 & H2 & H3 & _).
  - unfold handle_response. rewrite Hok. cbn [negb].
    erewrite bind_returns
      by (apply response_text_readable; [eassumption | reflexivity]).
    reflexivity.
  - rewrite error_text_Error in H2. auto.
Qed.

Lemma bad_status_is_reported_witness :
  error (state (snd (send Cases.bad_gateway Scenario.a_state)))
  = Some (js"Ошибка сервера: 502. Bad Gateway").
Proof.
  destruct (@bad_status_is_reported Cases.bad_gateway Scenario.a_state
              100 _ (js"Bad Gateway") a_state_accepted eq_refl eq_refl
              eq_refl eq_refl) as (_ & E & _).
  rewrite E. vm_compute. reflexivity.
Defined.

(** A successful response that declares neither JSON nor an event
    stream fails the send at once: its body is not read, so the send
    settles even when the body never ends.  An event stream without a
    body fails it as well. *)
Theorem other_kinds_fail_unread env s t r :
  accepted s ->
  network env = Resolves t r -> (t < DEADLINE)%N ->
  ok r = true ->
  JS.includes (js"application/json") (declared_kind r) = false ->
  (JS.includes (js"text/event-stream") (declared_kind r) = false ->
   fst (send env s) = Return tt
   /\ state (snd (send env s))
      = failed_state env s (js"Неожиданный формат ответа от сервера"))
  /\ (JS.includes (js"text/event-stream") (declared_kind r) = true ->
      body r = NoBody ->
      fst (send env s) = Return tt
      /\ state (snd (send env s))
         = failed_state env s (js"Тело ответа отсутствует")).
Proof.
  intros Hacc Hnet Ht Hok Hjson. split.
  - intros Hs.
    destruct (@send_fails_on_response env s t r
                (Error (js"Неожиданный формат ответа от сервера"))
                Hacc Hnet Ht)
      as (H1 & H2 & _).
    + unfold handle_response. fold (declared_kind r).
      now rewrite Hok, Hjson, Hs.
    + rewrite error_text_Error in H2. auto.
  - intros Hs Hb.
    destruct (@send_fails_on_response env s t r
                (Error (js"Тело ответа отсутствует")) Hacc Hnet Ht)
      as (H1 & H2 & _).
    + unfold handle_response. fold (declared_kind r).
      now rewrite Hok, Hjson, Hs, Hb.
    + rewrite error_text_Error in H2. auto.
Qed.

Lemma other_kinds_fail_unread_witness :
  completion_time (network Cases.a_page) = None
  /\ fst (send Cases.a_page Scenario.a_state) = Return tt
  /\ state (snd (send Cases.a_page Scenario.a_state))
     = failed_state Cases.a_page Scenario.a_state
         (js"Неожиданный формат ответа от сервера").
Proof.
  split; [reflexivity|].
  exact (proj1 (@other_kinds_fail_unread Cases.a_page Scenario.a_state 100 _
                  a_state_accepted eq_refl eq_refl eq_refl eq_refl) eq_refl).
Defined.

(** A structured response with a truthy [error] fails the send.  The
    error recorded is that value as a string, the message of
    [new Error(data.error)]; when the value has no string, an object
    with a [toString] member of its own, [new Error] throws a TypeError
    and its message is recorded. *)
Theorem structured_error_is_reported env s t r text data e :
  accepted s ->
  network env = Resolves t r -> (t < DEADLINE)%N ->
  structured_document r ->
  readable (body r) = Some text ->
  parse text = Some data ->
  get data (js"error") = Some e -> truthy e = true ->
  fst (send env s) = Return tt
  /\ state (snd (send env s))
     = failed_state env s
         match ToString (Number_toString (platform env)) e with
         | Some message => message
         | None => ConversionError_message (platform env) e
         end.
Proof.
  intros Hacc Hnet Ht (Hok & Hct) Hr Hp He Htr.
  destruct (@send_fails_on_response env s t r
              match ToString (Number_toString (platform env)) e with
              | Some message => Error message
              | None => ErrorObject (js"TypeError")
                          (ConversionError_message (platform env) e)
              end Hacc Hnet Ht)
    as (H1 & H2 & _).
  - unfold handle_response. fold (declared_kind r).
    rewrite Hok. cbn [negb]. rewrite Hct. unfold response_json.
    erewrite bind_returns
      by (erewrite bind_returns
            by (apply response_text_readable; [eassumption | reflexivity]);
          rewrite (JSON_parse_some _ _ Hp); reflexivity).
    rewrite (property_some _ _ _ He), bind_ret, Htr.
    unfold new_Error, to_string, bind, ret, throw.
    destruct e; try discriminate Htr;
      try destruct (ToString _ _); reflexivity.
  - split; [assumption|]. rewrite H2.
    destruct (ToString _ e); reflexivity.
Qed.

Lemma structured_error_is_reported_witness :
  error (state (snd (send Scenario.error_boom Scenario.a_state)))
  = Some (js"boom").
Proof.
  destruct (@structured_error_is_reported Scenario.error_boom Scenario.a_state
              250 _ _ (Obj [(js"error", Str (js"boom"))]) (Str (js"boom"))
              a_state_accepted eq_refl eq_refl (conj eq_refl eq_refl)
              eq_refl eq_refl eq_refl eq_refl) as (_ & E).
  rewrite E. reflexivity.
Defined.

(** A [fetch] that rejects within the deadline fails the send with the
    message of the rejection (the timeout message when it is named
    AbortError).  [clearTimeout] is not reached: the timer stays armed,
    and nothing is aborted during the send. *)
Theorem rejected_fetch_is_reported env s t e :
  accepted s ->
  network env = Rejects t e -> (t < DEADLINE)%N ->
  let w := snd (send env s) in
  fst (send env s) = Return tt
  /\ state w = failed_state env s (error_text e)
  /\ timer w = Some DEADLINE
  /\ aborted w = false
  /\ events w = prologue env s
                ++ [ConsoleError; ConsoleError;
                    SetError (Some (error_text e));
                    SetMessages (messages (failed_state env s (error_text e)));
                    SetIsLoading false; Focus].
Proof.
  intros Hacc Hnet Ht w. subst w. rewrite send_concludes by assumption.
  assert (E : exchange env (world_at_fetch env s)
              = (Throw e, world_at_fetch env s)).
  { apply N.ltb_lt in Ht. unfold exchange, bind, await.
    cbn [timer world_at_fetch]. now rewrite Hnet, Ht. }
  rewrite E. cbn [fst snd conclude]. split; [reflexivity|].
  split; [now apply failed_state_of|]. split; [reflexivity|].
  split; [reflexivity|].
  cbn [finished failed events world_at_fetch state messages].
  rewrite <- app_assoc. cbn [app]. do 5 f_equal.
  change (messages s ++ [userMessage env s; placeholder env])
    with (messages s ++ [userMessage env s] ++ [placeholder env]).
  rewrite app_assoc, assign_last_assistant_last, <- app_assoc.
  reflexivity.
Qed.

Lemma rejected_fetch_is_reported_witness :
  error (state (snd (send Cases.offline Scenario.a_state)))
  = Some (js"Failed to fetch")
  /\ timer (snd (send Cases.offline Scenario.a_state)) = Some 60000%N.
Proof.
  destruct (@rejected_fetch_is_reported Cases.offline Scenario.a_state 30 _
              a_state_accepted eq_refl eq_refl) as (_ & E & T & _).
  rewrite E. split; [reflexivity | exact T].
Defined.

(** ** A stream, frame by frame *)

Lemma frame_delta_blank env line :
  JS.trim (JS.strip_data_marker line) = [] -> frame_delta env line = [].
Proof. intros E. unfold frame_delta. now rewrite E. Qed.

(** One frame and the [catch] after it: the state is left as it is, the
    text of the frame is added to [accumulatedContent], and an update
    is queued whenever something was added. *)
Lemma frame_reading env now line w :
  exists now' w',
    try_catch (frame_body env now line)
      (fun _ => emit ConsoleError ;; ret now) w
    = (Return now', w')
    /\ state w' = state w /\ timer w' = timer w /\ aborted w' = aborted w
    /\ accumulatedContent now'
       = accumulatedContent now ++ frame_delta env line
    /\ (now' = now \/ queued now < queued now').
Proof.
  unfold frame_body.
  destruct (JS.eqb (JS.trim (JS.strip_data_marker line)) []) eqn:E.
  { apply eqb_true_iff in E. rewrite (frame_delta_blank env _ E), app_nil_r.
    exists now, w. cbn. auto 10. }
  unfold frame_delta, JSON_parse, property.
  destruct (parse _) as [doc|].
  2:{ rewrite app_nil_r. eexists now, _. split; [reflexivity|].
      cbn. auto 10. }
  rewrite bind_ret.
  destruct (get doc (js"type")) as [[| | | |t| |]|];
    try (rewrite app_nil_r; eexists now, _; split; [reflexivity|];
         cbn; auto 10).
  rewrite bind_ret. destruct (JS.eqb t (js"text")).
  - destruct (get doc (js"value")) as [v|].
    + rewrite bind_ret. unfold to_string.
      destruct (ToString _ v) as [text|].
      * rewrite bind_ret. eexists _, w. split; [reflexivity|].
        cbn. auto 10.
      * rewrite app_nil_r. eexists now, _. split; [reflexivity|].
        cbn. auto 10.
    + rewrite app_nil_r. eexists now, _. split; [reflexivity|].
      cbn. auto 10.
  - rewrite app_nil_r. destruct (JS.eqb t (js"error")).
    + exists now, (snd (emit ConsoleError w)). split; [|cbn; auto 10].
      unfold new_Error, to_string, bind, try_catch, ret, throw.
      destruct (get doc (js"value")) as [v|]; [|reflexivity].
      destruct v; try destruct (ToString _ _); reflexivity.
    + exists now, w. cbn. auto 10.
Qed.

Lemma for_lines_reading env lines :
  forall now w,
  exists now' w',
    for_lines env now lines w = (Return now', w')
    /\ state w' = state w /\ timer w' = timer w /\ aborted w' = aborted w
    /\ accumulatedContent now'
       = accumulatedContent now ++ concat (map (frame_delta env) lines)
    /\ (now' = now \/ queued now < queued now').
Proof.
  induction lines as [|line rest IH]; intros now w.
  - exists now, w. cbn. rewrite app_nil_r. auto 10.
  - destruct (frame_reading env now line w)
      as (now1 & w1 & E1 & Hs1 & Ht1 & Ha1 & Hc1 & Hq1).
    destruct (IH now1 w1) as (now2 & w2 & E2 & Hs2 & Ht2 & Ha2 & Hc2 & Hq2).
    exists now2, w2. cbn [for_lines map concat].
    erewrite bind_returns by eassumption.
    split; [assumption|]. repeat split; try congruence.
    + now rewrite Hc2, Hc1, app_assoc.
    + destruct Hq1 as [->|Hq1], Hq2 as [->|Hq2]; auto; right; lia.
Qed.

Lemma streaming_world env s c w :
  streaming env s c w -> w = world_reading env s c (events w).
Proof.
  destruct w as [st tm ab es]. unfold streaming, world_reading. cbn.
  intros (-> & -> & ->). reflexivity.
Qed.

Lemma streaming_reading env s c es : streaming env s c (world_reading env s c es).
Proof. repeat split. Qed.

Lemma render_reading env s now c w :
  fresh env s -> streaming env s c w ->
  (queued now = 0 -> c = accumulatedContent now) ->
  exists w',
    render (snd (generated env)) now w
    = (Return {| accumulatedContent := accumulatedContent now; queued := 0 |},
       w')
    /\ streaming env s (accumulatedContent now) w'.
Proof.
  intros F H I. rewrite (streaming_world H).
  rewrite render_fresh by assumption.
  eexists. split; [reflexivity | apply streaming_reading].
Qed.

(** The read loop gives what the end of the body gives, and the
    placeholder then holds the text of all frames. *)
Lemma read_loop_reading env s finish reads :
  fresh env s ->
  forall d now turn c w,
  streaming env s c w ->
  (queued now = 0 -> c = accumulatedContent now) ->
  let text :=
    accumulatedContent now
    ++ concat (map (frame_delta env)
                 (flat_map lines_of (decoded d (map snd reads)))) in
  exists w',
    read_loop env (snd (generated env)) d now turn reads finish w
    = (settled finish, w')
    /\ streaming env s text w'.
Proof.
  intros F. induction reads as [|[t value] reads IH];
    intros d now turn c w H I; cbv zeta.
  - cbn [map decoded flat_map concat]. rewrite app_nil_r.
    cbn [read_loop].
    destruct (render_reading now F H I) as (w1 & E1 & H1).
    erewrite bind_returns by eassumption.
    exists w1. split; [|assumption].
    rewrite await_disarmed by apply H1. now destruct finish.
  - cbn [read_loop map snd decoded].
    destruct (TextDecoder.decode_stream d value) as [d' chunk].
    assert (R : exists now1 c1 w1,
               (if rendering env turn
                then render (snd (generated env)) now else ret now) w
               = (Return now1, w1)
               /\ streaming env s c1 w1
               /\ (queued now1 = 0 -> c1 = accumulatedContent now1)
               /\ accumulatedContent now1 = accumulatedContent now).
    { destruct (rendering env turn).
      - destruct (render_reading now F H I) as (w1 & E1 & H1).
        exists {| accumulatedContent := accumulatedContent now; queued := 0 |},
               (accumulatedContent now), w1.
        split; [exact E1|]. split; [exact H1|].
        split; [intros _; reflexivity | reflexivity].
      - exists now, c, w. split; [reflexivity|]. split; [exact H|].
        split; [exact I | reflexivity]. }
    destruct R as (now1 & c1 & w1 & E1 & H1 & I1 & A1).
    erewrite bind_returns by eassumption.
    erewrite bind_returns by (rewrite await_disarmed by apply H1; reflexivity).
    destruct (for_lines_reading env (lines_of chunk) now1 w1)
      as (now2 & w2 & E2 & Hs2 & Ht2 & Ha2 & Hc2 & Hq2).
    erewrite bind_returns by eassumption.
    assert (H2 : streaming env s c1 w2).
    { destruct H1 as (S1 & T1 & B1). repeat split; congruence. }
    assert (I2 : queued now2 = 0 -> c1 = accumulatedContent now2).
    { destruct Hq2 as [->|Hq2]; [assumption | lia]. }
    destruct (IH d' now2 (S turn) c1 w2 H2 I2) as (w3 & E3 & H3).
    cbv zeta in H3. exists w3. split; [assumption|].
    cbn [flat_map]. rewrite map_app, concat_app, app_assoc.
    now rewrite <- A1, <- Hc2.
Qed.

Lemma handle_stream env s r reads finish :
  fresh env s -> event_stream r -> body r = Stream reads finish ->
  exists w,
    handle_response env (snd (generated env)) r (world_at_response env s)
    = (settled finish, w)
    /\ streaming env s (stream_text env (map snd reads)) w.
Proof.
  intros F (Hok & Hjson & Hstream) Hb.
  unfold handle_response. fold (declared_kind r).
  rewrite Hok, Hjson, Hstream, Hb. cbn [negb].
  exact (@read_loop_reading env s finish reads F TextDecoder.new
           {| accumulatedContent := []; queued := 0 |} 0 [] _
           (streaming_reading env s [] _) (fun _ => eq_refl)).
Qed.

(** Whatever its frames are, a stream that is read to its end does not
    fail the send, and the placeholder ends with the texts of the frames
    of type "text", in order; every other frame adds nothing. *)
Theorem stream_is_accumulated env s t r reads tf :
  accepted s -> fresh env s ->
  network env = Resolves t r -> (t < DEADLINE)%N ->
  event_stream r ->
  body r = Stream reads (Resolves tf tt) ->
  fst (send env s) = Return tt
  /\ state (snd (send env s))
     = {| messages :=
            messages s
            ++ [userMessage env s;
                with_content env (Str (stream_text env (map snd reads)))];
          input := []; isLoading := false; error := None |}.
Proof.
  intros Hacc F Hnet Ht Hes Hb. rewrite send_concludes by assumption.
  erewrite exchange_in_time by eassumption.
  destruct (handle_stream F Hes Hb) as (w & E & Hs & _). rewrite E.
  cbn [settled conclude fst snd finished state]. split; [reflexivity|].
  now rewrite Hs.
Qed.

Lemma stream_is_accumulated_witness :
  final_content Cases.mixed_stream Scenario.a_state = Some (Str (js"Hello")).
Proof.
  destruct (@stream_is_accumulated Cases.mixed_stream Scenario.a_state
              100 _ _ 160 a_state_accepted (an_env_fresh _) eq_refl eq_refl
              (conj eq_refl (conj eq_refl eq_refl)) eq_refl) as (_ & E).
  unfold final_content. rewrite E. vm_compute. reflexivity.
Defined.

(** When the body of a response breaks while it is read, and the id of
    the placeholder is the id of no earlier message, the send fails with
    the message of the break, and the fallback text replaces what the
    stream had written into the placeholder. *)
Theorem broken_body_fails_the_send env s t r reads tf e :
  accepted s -> fresh env s ->
  network env = Resolves t r -> (t < DEADLINE)%N ->
  body_is_read r ->
  body r = Stream reads (Rejects tf e) ->
  fst (send env s) = Return tt
  /\ state (snd (send env s)) = failed_state env s (error_text e).
Proof.
  intros Hacc F Hnet Ht Hr Hb.
  destruct Hr as [Hok|[(Hok & Hjson)|Hes]].
  - destruct (@send_fails_on_response env s t r e Hacc Hnet Ht)
      as (H1 & H2 & _); [|auto].
    unfold handle_response, response_text. rewrite Hok, Hb. reflexivity.
  - destruct (@send_fails_on_response env s t r e Hacc Hnet Ht)
      as (H1 & H2 & _); [|auto].
    unfold handle_response, response_json, response_text.
    fold (declared_kind r). rewrite Hok, Hjson, Hb. reflexivity.
  - rewrite send_concludes by assumption.
    erewrite exchange_in_time by eassumption.
    destruct (handle_stream F Hes Hb) as (w & E & Hs & _). rewrite E.
    cbn [settled conclude fst snd]. split; [reflexivity|].
    unfold finished, failed, failed_state.
    cbn [state messages input isLoading error]. rewrite Hs.
    cbn [messages input isLoading error].
    change (messages s ++ [userMessage env s; with_content env ?c])
      with (messages s ++ [userMessage env s] ++ [with_content env c]).
    rewrite app_assoc, assign_last_assistant_last, <- app_assoc.
    reflexivity.
Qed.

Lemma broken_body_fails_the_send_witness :
  stream_text Cases.broken_stream [Scenario.he ++ Scenario.blank] = js"He"
  /\ state (snd (send Cases.broken_stream Scenario.a_state))
     = failed_state Cases.broken_stream Scenario.a_state (js"Failed to fetch").
Proof.
  split; [vm_compute; reflexivity|].
  exact (proj2 (@broken_body_fails_the_send Cases.broken_stream
                  Scenario.a_state 100 _ _ 170 _ a_state_accepted
                  (an_env_fresh _) eq_refl eq_refl
                  (or_intror (or_intror
                     (conj eq_refl (conj eq_refl eq_refl)))) eq_refl)).
Defined.

Lemma read_loop_pending env aid reads :
  forall d now turn w, timer w = None ->
  fst (read_loop env aid d now turn reads Hangs w) = Pending.
Proof.
  induction reads as [|[t value] reads IH]; intros d now turn w Hw;
    cbn [read_loop].
  - destruct (render_returns aid now w) as (now' & w' & E & _ & Ht & _).
    erewrite bind_returns by eassumption.
    rewrite await_disarmed by congruence. reflexivity.
  - assert (R : exists now1 w1,
               (if rendering env turn then render aid now else ret now) w
               = (Return now1, w1) /\ timer w1 = timer w).
    { destruct (rendering env turn).
      - destruct (render_returns aid now w) as (now' & w' & E & _ & Ht & _).
        eauto.
      - eexists _, _. split; reflexivity. }
    destruct R as (now1 & w1 & E1 & Ht1).
    erewrite bind_returns by eassumption.
    destruct (TextDecoder.decode_stream d value) as [d' chunk].
    erewrite bind_returns by (rewrite await_disarmed by congruence; reflexivity).
    destruct (for_lines_returns env (lines_of chunk) now1 w1)
      as (now2 & w2 & E & _ & Ht & _).
    erewrite bind_returns by eassumption.
    apply IH. congruence.
Qed.

(** When the body of a response never ends, the send never ends: the
    timer was cleared when the headers came, so nothing aborts, the
    [finally] block is not reached and [isLoading] stays true. *)
Theorem endless_body_suspends_the_send env s t r reads :
  accepted s ->
  network env = Resolves t r -> (t < DEADLINE)%N ->
  body_is_read r ->
  body r = Stream reads Hangs ->
  let w := snd (send env s) in
  fst (send env s) = Pending
  /\ isLoading (state w) = true /\ error (state w) = None
  /\ timer w = None /\ aborted w = false
  /\ loading_cleared (events w) = 0%nat.
Proof.
  intros Hacc Hnet Ht Hr Hb. cbv zeta.
  pose proof (loading_cleared_once env Hacc) as L.
  rewrite send_concludes in * by assumption.
  erewrite exchange_in_time in * by eassumption.
  pose proof (handle_response_kept env (snd (generated env)) r
                (world_at_response env s)) as (_ & _ & Kl & Ke).
  destruct (exchange_disarmed env (snd (generated env)) r
              (world_at_response env s) eq_refl) as (Dt & Da).
  assert (P : fst (handle_response env (snd (generated env)) r
                     (world_at_response env s)) = Pending).
  { destruct Hr as [Hok|[(Hok & Hjson)|(Hok & Hjson & Hstream)]];
      unfold handle_response, response_json, response_text;
      fold (declared_kind r); rewrite Hok; cbn [negb];
        rewrite ?Hjson, ?Hstream, Hb.
    - reflexivity.
    - reflexivity.
    - apply read_loop_pending. reflexivity. }
  destruct (handle_response _ _ _ _) as [[[]|e'|] w]; try discriminate P.
  cbn [fst snd conclude] in *. repeat split; assumption.
Qed.

Lemma endless_body_suspends_the_send_witness :
  let w := snd (send Cases.endless_stream Scenario.a_state) in
  fst (send Cases.endless_stream Scenario.a_state) = Pending
  /\ isLoading (state w) = true /\ error (state w) = None
  /\ timer w = None /\ aborted w = false
  /\ loading_cleared (events w) = 0%nat.
Proof.
  exact (@endless_body_suspends_the_send Cases.endless_stream Scenario.a_state
           100 _ _ a_state_accepted eq_refl eq_refl
           (or_intror (or_intror (conj eq_refl (conj eq_refl eq_refl))))
           eq_refl).
Defined.

(** ** The form and the list *)

Lemma send_disabled_spec s : Page.send_disabled s = false <-> accepted s.
Proof.
  unfold Page.send_disabled, accepted. rewrite orb_false_iff, eqb_false_iff.
  tauto.
Qed.

Lemma send_fetches env s :
  accepted s ->
  fetches (events (snd (send env s)))
  = [(js"/api/chat", envelope_of (messages s) (userMessage env s))].
Proof.
  intros H. destruct (send_prologue env H) as (rest & E & F).
  rewrite E, fetches_app, F. reflexivity.
Qed.

(** The send button is disabled exactly when [handleSendMessage] would
    return at its guard, having done nothing. *)
Theorem button_and_guard_agree env s :
  Page.send_disabled s = true <-> send env s = (Return tt, start s).
Proof.
  split.
  - intros D. apply send_rejected. intros A.
    apply send_disabled_spec in A. congruence.
  - intros E. destruct (Page.send_disabled s) eqn:D; [reflexivity|].
    apply send_disabled_spec in D.
    pose proof (send_fetches env D) as F. rewrite E in F. discriminate F.
Qed.

Lemma suspended_is_loading env s :
  fst (send env s) = Pending ->
  isLoading (state (snd (send env s))) = true.
Proof.
  intros P. destruct (accepted_dec s) as [H|H].
  - rewrite send_concludes in * by assumption.
    pose proof (exchange_kept env (world_at_fetch env s)) as (_ & _ & Hl & _).
    destruct (exchange env (world_at_fetch env s)) as [[[]|e|] w];
      try discriminate P. exact Hl.
  - rewrite send_rejected in P by assumption. discriminate P.
Qed.

(** While a send is suspended the entry field and the button are
    disabled, and another call of the handler, whatever the network
    would answer, does nothing. *)
Theorem suspended_send_blocks_the_next env s :
  fst (send env s) = Pending ->
  let s' := state (snd (send env s)) in
  Page.input_disabled s' = true
  /\ Page.send_disabled s' = true
  /\ forall env', send env' s' = (Return tt, start s').
Proof.
  intros P. apply suspended_is_loading in P. cbv zeta.
  unfold Page.input_disabled, Page.send_disabled. rewrite P.
  repeat split. intros env'. apply send_rejected. intros [_ L]. congruence.
Qed.

Lemma suspended_send_blocks_the_next_witness :
  let s' := state (snd (send Cases.endless_stream Scenario.a_state)) in
  Page.input_disabled s' = true
  /\ Page.send_disabled s' = true
  /\ forall env', send env' s' = (Return tt, start s').
Proof.
  exact (@suspended_send_blocks_the_next Cases.endless_stream Scenario.a_state
           eq_refl).
Defined.

Lemma shape_nil ms : shape ms = [] -> ms = [].
Proof. destruct ms; [reflexivity | discriminate]. Qed.

Lemma sent_not_empty env s w :
  kept (world_at_fetch env s) w -> messages (state w) <> [].
Proof.
  intros (Hs & _) E. rewrite E, shape_at_fetch in Hs.
  destruct (shape (messages s)); discriminate Hs.
Qed.

(** After an accepted send the list is shown, not the prompts, and the
    button is disabled, the entry field being empty.  Once the send has
    returned the entry field is enabled again and the indicator is
    gone. *)
Theorem returned_send_frees_the_form env s :
  accepted s ->
  let s' := state (snd (send env s)) in
  Page.prompts_shown s' = false
  /\ Page.send_disabled s' = true
  /\ (fst (send env s) = Return tt ->
      Page.input_disabled s' = false /\ Page.indicator_shown s' = false).
Proof.
  intros H. cbv zeta. rewrite send_concludes by assumption.
  pose proof (exchange_kept env (world_at_fetch env s)) as K.
  pose proof (sent_not_empty K) as N.
  destruct K as (Ks & Ki & Kl & Ke).
  unfold Page.prompts_shown, Page.send_disabled, Page.input_disabled,
    Page.indicator_shown.
  destruct (exchange env (world_at_fetch env s)) as [[[]|e|] w];
    cbn [fst snd conclude finished failed state messages input isLoading]
      in *.
  - rewrite Ki. destruct (messages (state w)); [contradiction|].
    repeat split.
  - rewrite Ki.
    assert (N' : assign_last_assistant (getFallbackResponse env)
                   (messages (state w)) <> []).
    { intros E. apply N, shape_nil.
      rewrite <- (assign_last_assistant_shape (getFallbackResponse env)), E.
      reflexivity. }
    destruct (assign_last_assistant _ _); [contradiction|]. repeat split.
  - rewrite Ki, Kl. destruct (messages (state w)); [contradiction|].
    repeat split; discriminate.
Qed.

Lemma returned_send_frees_the_form_witness :
  let s' := state (snd (send Scenario.hello_whole Scenario.a_state)) in
  Page.prompts_shown s' = false
  /\ Page.send_disabled s' = true
  /\ (fst (send Scenario.hello_whole Scenario.a_state) = Return tt ->
      Page.input_disabled s' = false /\ Page.indicator_shown s' = false).
Proof.
  exact (@returned_send_frees_the_form Scenario.hello_whole Scenario.a_state
           a_state_accepted).
Defined.

Lemma fallback_in_range env :
  (numerator (random env) < 2 ^ scale (random env))%N ->
  exists t, getFallbackResponse env = Str t
            /\ In t FALLBACK_RESPONSES /\ truthy (Str t) = true.
Proof.
  intros H. unfold getFallbackResponse.
  pose proof (fallback_index_in_bounds _ H) as Hi.
  set (index := (_ / _)%N) in *.
  destruct (nth_error FALLBACK_RESPONSES (N.to_nat index)) as [t|] eqn:E.
  - exists t. apply nth_error_In in E. repeat split; [assumption|].
    cbn. apply negb_true_iff, eqb_false_iff.
    now apply fallback_responses_nonempty.
  - apply nth_error_None in E.
    change (length FALLBACK_RESPONSES) with 4%nat in E. lia.
Qed.

(** When a send has recorded an error, the last bubble shows one of the
    fallback texts, and the banner shows the error unless it is the
    empty string, for which no banner is rendered. *)
Theorem failure_is_rendered env s text :
  accepted s ->
  (numerator (random env) < 2 ^ scale (random env))%N ->
  let s' := state (snd (send env s)) in
  error s' = Some text ->
  Page.banner s' = (if JS.eqb text [] then None else Some text)
  /\ exists texts t,
       Page.bubbles s' = texts ++ [Str t] /\ In t FALLBACK_RESPONSES.
Proof.
  intros H Hr. cbv zeta. rewrite send_concludes by assumption.
  pose proof (exchange_kept env (world_at_fetch env s)) as K.
  destruct (exchange env (world_at_fetch env s)) as [[[]|e|] w];
    cbn [fst snd conclude] in *.
  - destruct K as (_ & _ & _ & Ke). cbn in *. congruence.
  - destruct (failed_messages (error_text e) K) as (pre & E & _).
    destruct (fallback_in_range env Hr) as (t & Et & Ht & Htr).
    cbn [finished state error]. intros [= <-].
    unfold Page.banner, Page.bubbles.
    cbn [finished state messages error] in *. rewrite E. split.
    + destruct pre; reflexivity.
    + exists (map (Page.bubble
                     (state (finished (failed env (error_text e) w)))) pre), t.
      rewrite map_app. cbn [map]. split; [|assumption]. f_equal.
      unfold Page.bubble, fallback_message. cbn [role content].
      now rewrite Et, Htr.
  - destruct K as (_ & _ & _ & Ke). cbn in *. congruence.
Qed.

Lemma failure_is_rendered_witness :
  Page.banner (state (snd (send Scenario.error_boom Scenario.a_state)))
  = Some (js"boom").
Proof.
  exact (proj1 (@failure_is_rendered Scenario.error_boom Scenario.a_state
                  (js"boom") a_state_accepted eq_refl eq_refl)).
Defined.

(** While a stream is being read and has not ended, the placeholder
    shows the text of the frames so far; until the first text has come,
    it shows the waiting text and the indicator is on. *)
Theorem progress_is_rendered env s t r reads :
  accepted s -> fresh env s ->
  network env = Resolves t r -> (t < DEADLINE)%N ->
  event_stream r ->
  body r = Stream reads Hangs ->
  let s' := state (snd (send env s)) in
  let text := stream_text env (map snd reads) in
  messages s'
  = messages s ++ [userMessage env s; with_content env (Str text)]
  /\ Page.bubble s' (with_content env (Str text))
     = Str (if JS.eqb text [] then Page.THINKING else text)
  /\ Page.indicator_shown s' = JS.eqb text [].
Proof.
  intros Hacc F Hnet Ht Hes Hb. cbv zeta. rewrite send_concludes by assumption.
  erewrite exchange_in_time by eassumption.
  destruct (handle_stream F Hes Hb) as (w & E & Hs & _). rewrite E.
  cbn [settled conclude fst snd]. rewrite Hs.
  unfold Page.bubble, Page.indicator_shown.
  cbn [messages isLoading with_content set_content placeholder role content
       truthy andb].
  split; [reflexivity|]. split.
  - now destruct (JS.eqb _ []).
  - change (messages s ++ [userMessage env s; ?p])
      with (messages s ++ [userMessage env s] ++ [p]).
    rewrite app_assoc, rev_app_distr. cbn [rev app role content].
    now destruct (stream_text env (map snd reads)).
Qed.

Lemma progress_is_rendered_witness :
  let s' := state (snd (send Cases.endless_stream Scenario.a_state)) in
  Page.bubble s' (with_content Cases.endless_stream (Str (js"He")))
  = Str (js"He")
  /\ Page.indicator_shown s' = false.
Proof.
  exact (proj2 (@progress_is_rendered Cases.endless_stream Scenario.a_state
                  100 _ _ a_state_accepted (an_env_fresh _) eq_refl eq_refl
                  (conj eq_refl (conj eq_refl eq_refl)) eq_refl)).
Defined.

(** ** Clearing and prompting, then sending *)

(** [handleClearChat] empties the list and the error and nothing else:
    the prompts are offered again, and the next request carries the new
    message alone. *)
Theorem clear_forgets_the_history env s :
  accepted s ->
  Page.prompts_shown (cleared s) = true
  /\ Page.banner (cleared s) = None
  /\ fetches (events (snd (send env (cleared s))))
     = [(js"/api/chat",
         {| envelope_messages := [(user, Str (input s))];
            envelope_model := js"mistral" |})].
Proof.
  intros [Hi Hl]. split; [reflexivity|]. split; [reflexivity|].
  rewrite send_fetches by (split; assumption). reflexivity.
Qed.

Lemma clear_forgets_the_history_witness :
  fetches (events (snd (send Scenario.hello_whole (cleared Scenario.a_state))))
  = [(js"/api/chat",
      {| envelope_messages := [(user, Str (input Scenario.a_state))];
         envelope_model := js"mistral" |})].
Proof.
  exact (proj2 (proj2 (@clear_forgets_the_history Scenario.hello_whole
                         Scenario.a_state a_state_accepted))).
Defined.

(** A click on a prompt sends nothing; it replaces the text of the
    entry field, and a send after it posts the history and the prompt as
    the user message. *)
Theorem prompt_is_what_is_sent env s promptText :
  JS.trim promptText <> [] -> isLoading s = false ->
  let w := snd (handlePromptClick promptText (start s)) in
  fetches (events w) = []
  /\ fetches (events (snd (send env (state w))))
     = [(js"/api/chat",
         {| envelope_messages :=
              map (fun m => (role m, content m)) (messages s)
              ++ [(user, Str promptText)];
            envelope_model := js"mistral" |})].
Proof.
  intros Hp Hl. cbv zeta. split; [reflexivity|].
  rewrite send_fetches by (split; assumption).
  unfold envelope_of. rewrite map_app. reflexivity.
Qed.

Lemma prompt_is_what_is_sent_witness :
  fetches (events (snd (send Scenario.hello_whole
     (state (snd (handlePromptClick (js"Hi") (start Cases.blank_state)))))))
  = [(js"/api/chat",
      {| envelope_messages :=
           map (fun m => (role m, content m)) (messages Cases.blank_state)
           ++ [(user, Str (js"Hi"))];
         envelope_model := js"mistral" |})].
Proof.
  refine (proj2 (@prompt_is_what_is_sent Scenario.hello_whole
                   Cases.blank_state (js"Hi") _ eq_refl)).
  differ.
Defined.

(** ** Values that have no string *)

(** In a stream, a text frame whose value is an object with a member
    [toString] of its own adds nothing: the concatenation throws, the
    [catch] of the frame logs, and the next frame is read. *)
Example unconvertible_value_adds_nothing :
  let r := send Cases.unconvertible_frame Scenario.a_state in
  final_content Cases.unconvertible_frame Scenario.a_state
  = Some (Str (js"llo"))
  /\ console_errors (events (snd r)) = 1%nat
  /\ error (state (snd r)) = None.
Proof. vm_compute. repeat split. Qed.

(** In a structured response, an error of that kind fails the send with
    the message of the TypeError. *)
Example unconvertible_error_is_reported :
  error (state (snd (send Cases.unconvertible_error Scenario.a_state)))
  = Some (js"Cannot convert object to primitive value").
Proof. vm_compute. reflexivity. Qed.

(** ** The scenarios of the lemmas above *)

Lemma stream_never_fails_witness :
  exists w,
    send Cases.mixed_stream Scenario.a_state = (Return tt, w)
    /\ error (state w) = None /\ aborted w = false.
Proof.
  exact (@stream_never_fails Cases.mixed_stream Scenario.a_state 100 _ _ 160
           a_state_accepted eq_refl eq_refl
           (conj eq_refl (conj eq_refl eq_refl)) eq_refl).
Defined.

End ControllerMore.

(* ================================================================== *)
(** * The proxy: more of its behaviour *)

Module ProxyMore.

Import JSON Proxy ProxySpec ProxyTerms ProxyFacts.

Lemma formatted_reduced elements :
  forall pairs, formatted elements = Some pairs -> reduced elements pairs.
Proof.
  unfold reduced.
  induction elements as [|msg rest IH]; intros pairs H;
    cbn [formatted] in H.
  - injection H as <-. constructor.
  - destruct (get msg (js"role")) as [r|] eqn:Er; [|discriminate].
    destruct (get msg (js"content")) as [c|] eqn:Ec; [|discriminate].
    destruct (formatted rest) as [l|]; [|discriminate].
    injection H as <-. constructor; auto.
Qed.

Lemma formatted_null elements :
  In Null elements -> formatted elements = None.
Proof.
  induction elements as [|msg rest IH]; intros H; [destruct H|].
  destruct H as [->|H]; [reflexivity|].
  cbn [formatted]. destruct (get msg _); [|reflexivity].
  destruct (get msg _); [|reflexivity]. now rewrite IH.
Qed.

Lemma POST_way env request up : way env request up (POST env request up).
Proof.
  unfold POST. rewrite <- key_blank_spec.
  destruct (key_blank env) eqn:Hk; [now constructor|].
  destruct (parse request) as [json|] eqn:Hp; [|now constructor].
  destruct (get json (js"messages")) as [messages|] eqn:Hm;
    [|now constructor].
  destruct (get json (js"model")) as [model|] eqn:Hmo; [|now constructor].
  destruct (negb (truthy messages) || negb (is_array messages)
            || negb (truthy model)) eqn:Eshape; [now constructor|].
  apply orb_false_iff in Eshape as [Eshape Emodel].
  apply orb_false_iff in Eshape as [Emsg Earr].
  apply negb_false_iff in Emodel, Emsg, Earr.
  destruct (ToString (Number_toString env) model) as [key|] eqn:Hkey;
    [|now constructor].
  destruct (negb (looked_up_truthy _)) eqn:El; [now constructor|].
  apply negb_false_iff in El.
  destruct messages as [| | | | |elements|]; try discriminate.
  destruct (formatted elements) as [pairs|] eqn:Ef; [|now constructor].
  eapply Called; eauto.
  split; [assumption|]. exists json, (Arr elements), model, key. auto 10.
Qed.

Lemma complete_upstream_status up : status (complete_upstream up) = 200%N.
Proof.
  unfold complete_upstream. destruct up as [|[] [text|]]; try reflexivity.
  destruct (parse text) as [data|]; [|reflexivity].
  now destruct (completion_choice data) as [[c|]|].
Qed.

Lemma complete_upstream_type up :
  content_type (complete_upstream up) = js"application/json".
Proof.
  unfold complete_upstream. destruct up as [|[] [text|]]; try reflexivity.
  destruct (parse text) as [data|]; [|reflexivity].
  now destruct (completion_choice data) as [[c|]|].
Qed.

(** Whatever the request and whatever the upstream does, [POST] answers
    with a JSON document and one of the statuses 200, 400 and 500; the
    status is 500 exactly when the key is absent or blank, and an answer
    other than 200 is given without a call upstream. *)
Theorem proxy_answers_with_three_statuses env request up :
  let r := fst (POST env request up) in
  content_type r = js"application/json"
  /\ (status r = 200%N \/ status r = 400%N \/ status r = 500%N)
  /\ (status r = 500%N <-> key_blank env = true)
  /\ (status r <> 200%N -> snd (POST env request up) = []).
Proof.
  cbv zeta. destruct (POST_way env request up) as [Hk|Hk|Hk|Hk|? ? ? ? ? Hp];
    cbn [fst snd];
    rewrite ?complete_upstream_status, ?complete_upstream_type;
    try destruct Hp as [Hk _]; rewrite Hk;
    (split; [reflexivity|]); (split; [auto|]);
    (split; [split; [discriminate || reflexivity | discriminate || reflexivity]|]);
    try reflexivity; intros N; now elim N.
Qed.

(** A call upstream is made only for a request that passes the
    credential check and the validation, and then once: it asks for no
    stream, for at most 1000 tokens at temperature 0.7, for a model that
    [MODEL_MAP] holds or inherits, and its messages are the [role] and
    the [content] of the elements of [messages], in order. *)
Theorem upstream_call_follows_the_checks env request up c :
  In c (snd (POST env request up)) ->
  passes env request
  /\ snd (POST env request up) = [c]
  /\ status (fst (POST env request up)) = 200%N
  /\ call_stream c = false
  /\ call_max_tokens c = 1000%N
  /\ call_temperature c = {| negative := false; mantissa := 7; exponent := -1 |}
  /\ looked_up_truthy (call_model c) = true
  /\ exists json elements,
       parse request = Some json
       /\ get json (js"messages") = Some (Arr elements)
       /\ reduced elements (call_messages c).
Proof.
  destruct (POST_way env request up)
    as [Hk|Hk|Hk|Hk|json elements model key pairs Hp Hj Hm Hmo Hkey Hf];
    cbn [fst snd]; intros H; try (now destruct H).
  destruct H as [<-|[]]. split; [assumption|]. split; [reflexivity|].
  split; [apply complete_upstream_status|]. do 3 (split; [reflexivity|]).
  split.
  - destruct Hp as (_ & j & ms & mo & k & Hj' & _ & Hmo' & _ & _ & _ & Hk & Hl).
    cbn [the_call call_model]. congruence.
  - exists json, elements. auto using formatted_reduced.
Qed.

Lemma upstream_call_follows_the_checks_witness :
  In (the_call (Own (js"01-ai/yi-34b-chat"))
        [ (Str (js"user"), Str (js"Hi"));
          (Str (js"assistant"), Str (js"Hello!")) ])
     (snd (POST Scenario.configured Cases.two_messages Scenario.answered))
  /\ passes Scenario.configured Cases.two_messages.
Proof.
  assert (H : In (the_call (Own (js"01-ai/yi-34b-chat"))
                    [ (Str (js"user"), Str (js"Hi"));
                      (Str (js"assistant"), Str (js"Hello!")) ])
                (snd (POST Scenario.configured Cases.two_messages
                        Scenario.answered))).
  { left. vm_compute. reflexivity. }
  split; [exact H|].
  exact (proj1 (@upstream_call_follows_the_checks Scenario.configured
                  Cases.two_messages Scenario.answered _ H)).
Defined.

(** When the call was made and the upstream document holds a truthy
    [choices[0].message], the answer is status 200 with the [content] of
    that message as [JSON.stringify] writes it: a string, a boolean,
    [null] and a finite number as they are, in an array or an object as
    well, and a number too large for a binary64, which the proxy has
    read as infinite, as [null]; there is no [error]. *)
Theorem answer_content_is_passed_on env request text data c :
  snd (POST env request (Answer true (Some text))) <> [] ->
  parse text = Some data ->
  completion_choice data = Some (Some c) ->
  let r := fst (POST env request (Answer true (Some text))) in
  r = respond 200 [ (js"content", c) ]
  /\ error_of r = Some Undefined
  /\ content_of r = Some (stringified c)
  /\ (forall text', c = Str text' -> content_of r = Some (Str text')).
Proof.
  intros Hc Hp Hd. cbv zeta.
  destruct (POST_way env request (Answer true (Some text)));
    cbn [fst snd] in *; try (now elim Hc).
  unfold complete_upstream. rewrite Hp, Hd.
  split; [reflexivity|].
  unfold error_of, content_of, respond. cbn [body stringified].
  split; [|split].
  - now destruct (stringified c).
  - now destruct (stringified c).
  - intros text' ->. reflexivity.
Qed.

Lemma answer_content_is_passed_on_witness :
  content_of (fst (POST Scenario.configured Scenario.good_request
                     Scenario.answered)) = Some (Str (js"Hello")).
Proof.
  refine (proj1 (proj2 (proj2
            (@answer_content_is_passed_on Scenario.configured
               Scenario.good_request
               (JS.quoted
                  "{'choices':[{'message':{'role':'assistant','content':'Hello'}}]}")
               (Obj [ (js"choices",
                       Arr [Obj [ (js"message",
                                   Obj [ (js"role", Str (js"assistant"));
                                         (js"content", Str (js"Hello")) ]) ]]) ])
               (Str (js"Hello")) _ eq_refl eq_refl)))).
  vm_compute. discriminate.
Defined.

(** A content too large for a binary64 is answered as [null]. *)
Example huge_content_is_written_null :
  content_of (fst (POST Scenario.configured Scenario.good_request
                     Cases.huge_content)) = Some Null.
Proof. vm_compute. reflexivity. Qed.

Lemma inherited_lookup name :
  In name Object_prototype -> MODEL_MAP_get name = Inherited name.
Proof.
  intros H.
  assert (A : forallb (fun n => match assoc n MODEL_MAP with
                                | None => true
                                | Some _ => false
                                end) Object_prototype = true)
    by (vm_compute; reflexivity).
  rewrite forallb_forall in A. specialize (A _ H).
  unfold MODEL_MAP_get. destruct (assoc name MODEL_MAP); [discriminate|].
  assert (E : existsb (JS.eqb name) Object_prototype = true).
  { apply existsb_exists. exists name. split; [assumption|].
    now apply ControllerFacts.eqb_true_iff. }
  now rewrite E.
Qed.

Lemma prototype_names_truthy name :
  In name Object_prototype -> truthy (Str name) = true.
Proof.
  intros H.
  assert (A : forallb (fun n => truthy (Str n)) Object_prototype = true)
    by (vm_compute; reflexivity).
  rewrite forallb_forall in A. auto.
Qed.

(** A [model] that names a property which [MODEL_MAP] inherits from
    [Object.prototype] passes the check [!modelId]: the call is made,
    with the inherited value in the place of the model id. *)
Theorem inherited_names_pass_the_model_check
    env request up json elements pairs name :
  key_blank env = false ->
  parse request = Some json ->
  get json (js"messages") = Some (Arr elements) ->
  get json (js"model") = Some (Str name) ->
  formatted elements = Some pairs ->
  In name Object_prototype ->
  POST env request up
  = (complete_upstream up, [the_call (Inherited name) pairs]).
Proof.
  intros Hk Hp Hm Hmo Hf Hn. unfold POST.
  rewrite <- key_blank_spec, Hk, Hp, Hm, Hmo.
  rewrite (@prototype_names_truthy _ Hn). cbn [truthy is_array negb orb ToString].
  rewrite (@inherited_lookup _ Hn). cbn [looked_up_truthy negb].
  now rewrite Hf.
Qed.

Lemma inherited_names_pass_the_model_check_witness :
  POST Scenario.configured Scenario.inherited_model Scenario.overloaded
  = (complete_upstream Scenario.overloaded,
     [the_call (Inherited (js"constructor")) []]).
Proof.
  refine (@inherited_names_pass_the_model_check Scenario.configured
            Scenario.inherited_model Scenario.overloaded
            (Obj [ (js"messages", Arr []); (js"model", Str (js"constructor")) ])
            [] [] (js"constructor") eq_refl eq_refl eq_refl eq_refl eq_refl _).
  left. reflexivity.
Defined.

(** A request that passes the checks and has [null] among its messages
    is not forwarded: the [map] throws, and the outer handler answers. *)
Theorem null_message_is_not_forwarded env request up json elements :
  passes env request ->
  parse request = Some json ->
  get json (js"messages") = Some (Arr elements) ->
  In Null elements ->
  POST env request up = (internal_error, []).
Proof.
  intros (Hk & j & ms & mo & key & Hp & Hm & Hmo & Ht & Ha & Htm & Hkey & Hl)
    Hp' Hm' Hn.
  assert (j = json) by congruence. subst j.
  assert (ms = Arr elements) by congruence. subst ms.
  unfold POST. rewrite <- key_blank_spec, Hk, Hp, Hm, Hmo, Htm, Hkey, Hl.
  cbn [truthy is_array negb orb]. now rewrite (@formatted_null _ Hn).
Qed.

Lemma null_message_is_not_forwarded_witness :
  POST Scenario.configured Cases.null_element Scenario.answered
  = (internal_error, []).
Proof.
  refine (@null_message_is_not_forwarded Scenario.configured
            Cases.null_element Scenario.answered
            (Obj [ (js"messages",
                    Arr [Obj [ (js"role", Str (js"user"));
                               (js"content", Str (js"Hi")) ]; Null]);
                   (js"model", Str (js"mistral")) ])
            [Obj [ (js"role", Str (js"user")); (js"content", Str (js"Hi")) ];
             Null] _ eq_refl eq_refl _).
  - split; [reflexivity|].
    exists (Obj [ (js"messages",
                   Arr [Obj [ (js"role", Str (js"user"));
                              (js"content", Str (js"Hi")) ]; Null]);
                  (js"model", Str (js"mistral")) ]),
           (Arr [Obj [ (js"role", Str (js"user"));
                       (js"content", Str (js"Hi")) ]; Null]),
           (Str (js"mistral")), (js"mistral").
    repeat split.
  - right. left. reflexivity.
Defined.

(** With a key configured, a body that is not JSON, and the body
    [null], end in the outer handler: status 200, with an [error] and a
    [content], and no call upstream. *)
Theorem unreadable_request_is_caught env request up :
  key_blank env = false ->
  parse request = None \/ parse request = Some Null ->
  let r := fst (POST env request up) in
  POST env request up = (internal_error, [])
  /\ status r = 200%N
  /\ error_of r = Some (Str (js"Произошла непредвиденная ошибка"))
  /\ content_of r = Some (Str FAILED).
Proof.
  intros Hk Hp. cbv zeta.
  assert (E : POST env request up = (internal_error, [])).
  { unfold POST. rewrite <- key_blank_spec, Hk.
    destruct Hp as [-> | ->]; reflexivity. }
  rewrite E. repeat split.
Qed.

Lemma unreadable_request_is_caught_witness :
  POST Scenario.configured (js"{") Scenario.answered = (internal_error, []).
Proof.
  exact (proj1 (@unreadable_request_is_caught Scenario.configured (js"{")
                  Scenario.answered eq_refl (or_introl eq_refl))).
Defined.

(** No answer of the proxy is an event stream for the page: an answer
    of status 200 is a structured document, and the others are not
    [ok]. *)
Theorem proxy_answers_are_never_streams env request up b :
  let r := delivered (fst (POST env request up)) b in
  ~ ControllerSpec.event_stream r
  /\ (Controller.ok r = true -> ControllerSpec.structured_document r)
  /\ (Controller.ok r = true <-> status (fst (POST env request up)) = 200%N).
Proof.
  cbv zeta.
  assert (J : JS.includes (js"application/json") (js"application/json") = true)
    by (vm_compute; reflexivity).
  unfold ControllerSpec.event_stream, ControllerSpec.structured_document,
    ControllerSpec.declared_kind, delivered.
  cbn [Controller.ok Controller.content_type].
  destruct (POST_way env request up) as [Hk|Hk|Hk|Hk|? ? ? ? ? Hp];
    cbn [fst]; rewrite ?complete_upstream_status, ?complete_upstream_type;
    cbn [respond internal_error status content_type];
    (split; [intros (_ & F & _); congruence|]);
    (split; [intros O; split; [exact O | exact J]|]);
    split; (reflexivity || discriminate).
Qed.

End ProxyMore.

(* ================================================================== *)
(** * [fetchFromOpenRouter]: what is logged *)

Module OpenRouterFacts.

Import OpenRouter.

Lemma substring_head s n :
  substring s 0 (Some (Z.of_nat n)) = firstn n s.
Proof.
  unfold substring.
  replace (Z.min (Z.max 0 0) (Z.of_nat (length s))) with 0%Z by lia.
  replace (Z.min (Z.max (Z.of_nat n) 0) (Z.of_nat (length s)))
    with (Z.of_nat (Nat.min n (length s))) by lia.
  replace (Z.min 0 (Z.of_nat (Nat.min n (length s)))) with 0%Z by lia.
  replace (Z.max 0 (Z.of_nat (Nat.min n (length s))))
    with (Z.of_nat (Nat.min n (length s))) by lia.
  rewrite Z.sub_0_r, Nat2Z.id. cbn [Z.to_nat skipn].
  destruct (Nat.le_ge_cases n (length s)) as [H|H].
  - now rewrite Nat.min_l by assumption.
  - rewrite Nat.min_r by assumption. now rewrite !firstn_all2 by lia.
Qed.

Lemma substring_tail s k :
  substring s (Z.of_nat (length s) - Z.of_nat k) None
  = skipn (length s - k) s.
Proof.
  unfold substring.
  replace (Z.min (Z.max (Z.of_nat (length s) - Z.of_nat k) 0)
             (Z.of_nat (length s)))
    with (Z.of_nat (length s - k)) by lia.
  replace (Z.min (Z.of_nat (length s - k)) (Z.of_nat (length s)))
    with (Z.of_nat (length s - k)) by lia.
  replace (Z.max (Z.of_nat (length s - k)) (Z.of_nat (length s)))
    with (Z.of_nat (length s)) by lia.
  rewrite Nat2Z.id. apply firstn_all2. rewrite length_skipn. lia.
Qed.

(** The excerpt that is logged is the first ten units of the key, three
    dots, and the last five units; a key of fifteen units or fewer is
    logged whole, its middle twice. *)
Theorem key_excerpt_shows_both_ends apiKey :
  key_excerpt apiKey
  = firstn 10 apiKey ++ js"..." ++ skipn (length apiKey - 5) apiKey
  /\ (length apiKey <= 15 ->
      exists overlap,
        skipn (length apiKey - 5) apiKey = overlap ++ skipn 10 apiKey
        /\ firstn 10 apiKey ++ skipn 10 apiKey = apiKey).
Proof.
  split.
  - unfold key_excerpt.
    change 10%Z with (Z.of_nat 10). change 5%Z with (Z.of_nat 5).
    now rewrite substring_head, substring_tail.
  - intros H. exists (firstn (10 - (length apiKey - 5))
                        (skipn (length apiKey - 5) apiKey)).
    split; [|apply firstn_skipn].
    rewrite <- (firstn_skipn (10 - (length apiKey - 5))
                  (skipn (length apiKey - 5) apiKey)) at 1.
    f_equal. rewrite skipn_skipn. f_equal. lia.
Qed.

End OpenRouterFacts.
